(** * Tolerant extraction of LLM replies

    A shallow embedding of the response-normalisation layer of
    [web-ui/internal/services/ai.go]: [parseAIResponse],
    [createFallbackReview], [parseQuestions], [parseHint] and
    [parseChatResponse], together with the parts of Go's [strings],
    [unicode/utf8], [strconv] and [encoding/json] packages they call.

    Go strings are byte sequences, Go [int]s are modelled by [Z], a
    [float64] by its IEEE-754 binary64 specification, a slice by an
    optional list ([None] is the nil slice) and a run-time panic by an
    explicit result.  The diagnostic lines that the functions print with
    [fmt.Printf] have no part in what they return and are left out. *)

From Stdlib Require Import ZArith List Bool Lia FunInd Floats.SpecFloat.
From Stdlib Require Import Strings.Byte.
From Stdlib Require Strings.String.
Import ListNotations String.StringSyntax.

Open Scope string_scope.
Open Scope list_scope.
Open Scope Z_scope.

(** ** Go values *)

Definition gostring := list byte.

Definition str (s : String.string) : gostring := String.list_byte_of_string s.
Coercion str : String.string >-> gostring.

Definition len {A : Type} (s : list A) : Z := Z.of_nat (length s).

Fixpoint gostring_eqb (a b : gostring) : bool :=
  match a, b with
  | [], [] => true
  | x :: a', y :: b' => Byte.eqb x y && gostring_eqb a' b'
  | _, _ => false
  end.

(** A slice is nil or holds a list of elements. *)
Definition slice (A : Type) := option (list A).

Definition float64 := spec_float.

Definition float64_of_Z (n : Z) : float64 := binary_normalize 53 1024 n 0 false.

(** Go's [x == 0] on a float64. *)
Definition float64_is_zero (x : float64) : bool := SFeqb x (S754_zero false).

(** ** Run-time panics *)

Inductive runtime_error :=
| slice_bounds_out_of_range (lo hi length : Z).

Inductive go_result (A : Type) :=
| Returned (a : A)
| Panicked (e : runtime_error).
Arguments Returned {A} a.
Arguments Panicked {A} e.

Definition bind {A B : Type} (m : go_result A) (k : A -> go_result B) : go_result B :=
  match m with
  | Returned a => k a
  | Panicked e => Panicked e
  end.

Notation "x <- m ;; k" := (bind m (fun x => k))
  (at level 61, m at next level, right associativity).

(** The slice expression [s[lo:hi]] on a string: in bounds when
    [0 <= lo <= hi <= len(s)], a run-time panic otherwise. *)
Definition slice_expr (s : gostring) (lo hi : Z) : go_result gostring :=
  if (0 <=? lo) && (lo <=? hi) && (hi <=? len s)
  then Returned (firstn (Z.to_nat (hi - lo)) (skipn (Z.to_nat lo) s))
  else Panicked (slice_bounds_out_of_range lo hi (len s)).

(** ** Package unicode/utf8 *)

Module utf8.

Definition in_range (lo hi b : byte) : bool :=
  (Byte.to_N lo <=? Byte.to_N b)%N && (Byte.to_N b <=? Byte.to_N hi)%N.

Definition is_cont (b : byte) : bool := in_range x80 xbf b.

(** Width in bytes of the encoding that starts the string, [0] when the
    string is empty or starts with an invalid encoding (the decoder then
    yields [RuneError] and consumes one byte). *)
Definition valid_width (s : gostring) : nat :=
  match s with
  | [] => 0
  | b0 :: r =>
    if (Byte.to_N b0 <? 128)%N then 1
    else match r with
    | b1 :: r1 =>
      if in_range xc2 xdf b0 then (if is_cont b1 then 2 else 0)
      else match r1 with
      | b2 :: r2 =>
        let second3 :=
          if Byte.eqb b0 xe0 then in_range xa0 xbf b1
          else if Byte.eqb b0 xed then in_range x80 x9f b1
          else is_cont b1 in
        if in_range xe0 xef b0 then (if second3 && is_cont b2 then 3 else 0)
        else match r2 with
        | b3 :: _ =>
          let second4 :=
            if Byte.eqb b0 xf0 then in_range x90 xbf b1
            else if Byte.eqb b0 xf4 then in_range x80 x8f b1
            else is_cont b1 in
          if in_range xf0 xf4 b0 && second4 && is_cont b2 && is_cont b3
          then 4 else 0
        | [] => 0
        end
      | [] => 0
      end
    | [] => 0
    end
  end%nat.

(** Bytes consumed by [DecodeRuneInString]. *)
Definition rune_size (s : gostring) : nat := Nat.max 1 (valid_width s).

(** [RuneCountInString]: an invalid byte counts as one rune. *)
Fixpoint count_fuel (fuel : nat) (s : gostring) : Z :=
  match fuel, s with
  | _, [] => 0
  | O, _ => 0
  | S fuel', _ => 1 + count_fuel fuel' (skipn (rune_size s) s)
  end.

Definition RuneCountInString (s : gostring) : Z := count_fuel (length s) s.

End utf8.

(** ** Package unicode: white space *)

Module unicode.

(** ASCII white space: tab, line feed, vertical tab, form feed,
    carriage return, space. *)
Definition is_ascii_space (b : byte) : bool :=
  match b with
  | x09 | x0a | x0b | x0c | x0d | x20 => true
  | _ => false
  end.

(** U+0085 and U+00A0, encoded [C2 85] and [C2 A0]. *)
Definition is_space2 (b1 b2 : byte) : bool :=
  Byte.eqb b1 xc2 && (Byte.eqb b2 x85 || Byte.eqb b2 xa0).

(** U+1680, U+2000..U+200A, U+2028, U+2029, U+202F, U+205F, U+3000. *)
Definition is_space3 (b1 b2 b3 : byte) : bool :=
  (Byte.eqb b1 xe1 && Byte.eqb b2 x9a && Byte.eqb b3 x80)
  || (Byte.eqb b1 xe2 && Byte.eqb b2 x80
      && (utf8.in_range x80 x8a b3 || Byte.eqb b3 xa8 || Byte.eqb b3 xa9
          || Byte.eqb b3 xaf))
  || (Byte.eqb b1 xe2 && Byte.eqb b2 x81 && Byte.eqb b3 x9f)
  || (Byte.eqb b1 xe3 && Byte.eqb b2 x80 && Byte.eqb b3 x80).

End unicode.

(** ** Package strings *)

Module strings.

Fixpoint HasPrefix (s prefix : gostring) {struct prefix} : bool :=
  match prefix, s with
  | [], _ => true
  | p :: prefix', c :: s' => Byte.eqb c p && HasPrefix s' prefix'
  | _ :: _, [] => false
  end.

Definition HasSuffix (s suffix : gostring) : bool :=
  (length suffix <=? length s)%nat
  && gostring_eqb (skipn (length s - length suffix) s) suffix.

Definition TrimPrefix (s prefix : gostring) : gostring :=
  if HasPrefix s prefix then skipn (length prefix) s else s.

Definition TrimSuffix (s suffix : gostring) : gostring :=
  if HasSuffix s suffix then firstn (length s - length suffix) s else s.

(** [Index]: position of the first occurrence of [substr], or [-1]. *)
Fixpoint index_from (i : Z) (s substr : gostring) : Z :=
  if HasPrefix s substr then i
  else match s with
       | [] => -1
       | _ :: s' => index_from (i + 1) s' substr
       end.

Definition Index (s substr : gostring) : Z := index_from 0 s substr.

(** [LastIndex]: position of the last occurrence of [substr], or [-1]. *)
Fixpoint last_index_from (i : Z) (s substr : gostring) (found : Z) : Z :=
  let found' := if HasPrefix s substr then i else found in
  match s with
  | [] => found'
  | _ :: s' => last_index_from (i + 1) s' substr found'
  end.

Definition LastIndex (s substr : gostring) : Z := last_index_from 0 s substr (-1).

(** [Count]: number of non-overlapping occurrences of [substr]; for the
    empty [substr], one more than the number of runes. *)
Fixpoint count_from (skip : nat) (s substr : gostring) : Z :=
  match s with
  | [] => 0
  | _ :: s' =>
    match skip with
    | S k => count_from k s' substr
    | O => if HasPrefix s substr
           then 1 + count_from (length substr - 1) s' substr
           else count_from 0 s' substr
    end
  end.

Definition Count (s substr : gostring) : Z :=
  match substr with
  | [] => utf8.RuneCountInString s + 1
  | _ :: _ => count_from 0 s substr
  end.

(** [TrimLeftFunc(s, unicode.IsSpace)]: drop leading white-space runes. *)
Function TrimLeftSpace (s : gostring) {struct s} : gostring :=
  match s with
  | [] => []
  | b1 :: r1 =>
    if unicode.is_ascii_space b1 then TrimLeftSpace r1
    else match r1 with
    | [] => s
    | b2 :: r2 =>
      if unicode.is_space2 b1 b2 then TrimLeftSpace r2
      else match r2 with
      | [] => s
      | b3 :: r3 =>
        if unicode.is_space3 b1 b2 b3 then TrimLeftSpace r3 else s
      end
    end
  end.

(** Trailing white-space runes, read from the reversed string: the last
    rune of a string is a white-space rune exactly when the string ends
    with its encoding. *)
Function trim_left_space_rev (s : gostring) {struct s} : gostring :=
  match s with
  | [] => []
  | b1 :: r1 =>
    if unicode.is_ascii_space b1 then trim_left_space_rev r1
    else match r1 with
    | [] => s
    | b2 :: r2 =>
      if unicode.is_space2 b2 b1 then trim_left_space_rev r2
      else match r2 with
      | [] => s
      | b3 :: r3 =>
        if unicode.is_space3 b3 b2 b1 then trim_left_space_rev r3 else s
      end
    end
  end.

(** [TrimRightFunc(s, unicode.IsSpace)]. *)
Definition TrimRightSpace (s : gostring) : gostring :=
  rev (trim_left_space_rev (rev s)).

Definition TrimSpace (s : gostring) : gostring :=
  TrimRightSpace (TrimLeftSpace s).

End strings.

(** ** The review record and its parts *)

Module CodeIssue.
Record t := mk {
  Type_ : gostring;
  Severity : gostring;
  LineNumber : Z;
  Description : gostring;
  Solution : gostring
}.
End CodeIssue.

Module CodeSuggestion.
Record t := mk {
  Category : gostring;
  Priority : gostring;
  Description : gostring;
  Example : gostring
}.
End CodeSuggestion.

Module ComplexityAnalysis.
Record t := mk {
  TimeComplexity : gostring;
  SpaceComplexity : gostring;
  CanOptimize : bool;
  OptimizedApproach : gostring
}.
End ComplexityAnalysis.

Record AICodeReview := mkAICodeReview {
  OverallScore : float64;
  Issues : slice CodeIssue.t;
  Suggestions : slice CodeSuggestion.t;
  InterviewerFeedback : gostring;
  FollowUpQuestions : slice gostring;
  Complexity : ComplexityAnalysis.t;
  ReadabilityScore : float64;
  TestCoverage : gostring
}.

(** Go's [error] interface value: nil or an error carrying a message. *)
Definition error := option gostring.

(** ** Extraction: parseAIResponse and its siblings *)

(** [createFallbackReview] creates a reasonable fallback when AI parsing
    fails. *)
Definition createFallbackReview (reason rawResponse : gostring)
  : go_result AICodeReview :=
  let feedback := rawResponse in
  feedback <- (if 500 <? len feedback
               then head500 <- slice_expr feedback 0 500 ;;
                    Returned (head500 ++ str "...")
               else Returned feedback) ;;
  let feedback :=
    if gostring_eqb feedback ""
    then str "AI provided an empty or malformed response. Please try again."
    else feedback in
  Returned {|
    OverallScore := float64_of_Z 50;
    Issues := Some [
      {| CodeIssue.Type_ := "parsing";
         CodeIssue.Severity := "medium";
         CodeIssue.LineNumber := 0;
         CodeIssue.Description := str "AI response parsing issue: " ++ reason;
         CodeIssue.Solution :=
           "Try running the AI review again, or check your code for syntax issues." |} ];
    Suggestions := Some [
      {| CodeSuggestion.Category := "troubleshooting";
         CodeSuggestion.Priority := "medium";
         CodeSuggestion.Description :=
           "If this keeps happening, try simplifying your code or breaking it into smaller functions.";
         CodeSuggestion.Example := "" |} ];
    InterviewerFeedback :=
      str "I'm having trouble analyzing your code automatically. " ++ feedback
      ++ str " Let's focus on the core logic - can you walk me through your approach?";
    FollowUpQuestions := Some [
      str "Can you explain your algorithm step by step?";
      str "What's the time complexity of your solution?";
      str "How would you handle edge cases?" ];
    Complexity :=
      {| ComplexityAnalysis.TimeComplexity := "Unable to analyze";
         ComplexityAnalysis.SpaceComplexity := "Unable to analyze";
         ComplexityAnalysis.CanOptimize := false;
         ComplexityAnalysis.OptimizedApproach :=
           "Rerun analysis after fixing any syntax issues" |};
    ReadabilityScore := float64_of_Z 50;
    TestCoverage := "Unable to assess due to parsing error"
  |}.

Definition default_questions : slice gostring :=
  Some [ str "What's the time complexity of your solution?";
         str "How would you handle edge cases?";
         str "Can you optimize this further?" ].

Section Extraction.

(** [json.Unmarshal] into a zero [AICodeReview] and into a nil
    [[]string]: the decoded value, or [None] when it reports an error. *)
Variable json_Unmarshal_AICodeReview : gostring -> option AICodeReview.
Variable json_Unmarshal_strings : gostring -> option (slice gostring).

(** The first five statements of [parseAIResponse]: remove markdown code
    blocks if present. *)
Definition strip_code_fence (response : gostring) : gostring :=
  let response := strings.TrimSpace response in
  let response := strings.TrimPrefix response "```json" in
  let response := strings.TrimPrefix response "```" in
  let response := strings.TrimSuffix response "```" in
  strings.TrimSpace response.

(** [parseAIResponse] parses the AI response into a structured review. *)
Definition parseAIResponse (response : gostring)
  : go_result (AICodeReview * error) :=
  let response := strip_code_fence response in
  let start := strings.Index response "{" in
  let end_ := strings.LastIndex response "}" in
  if (start =? -1) || (end_ =? -1) then
    review <- createFallbackReview "No JSON found in AI response" response ;;
    Returned (review, None)
  else
    jsonStr <- slice_expr response start (end_ + 1) ;;
    let openBraces := strings.Count jsonStr "{" in
    let closeBraces := strings.Count jsonStr "}" in
    if negb (openBraces =? closeBraces) then
      review <- createFallbackReview "Incomplete JSON response" jsonStr ;;
      Returned (review, None)
    else
      match json_Unmarshal_AICodeReview jsonStr with
      | None =>
        review <- createFallbackReview "JSON parsing error" jsonStr ;;
        Returned (review, None)
      | Some review =>
        if float64_is_zero (OverallScore review)
           && float64_is_zero (ReadabilityScore review)
           && gostring_eqb (InterviewerFeedback review) ""
        then
          review <- createFallbackReview "Incomplete AI response" jsonStr ;;
          Returned (review, None)
        else Returned (review, None)
      end.

(** [parseQuestions] parses questions from the AI response. *)
Definition parseQuestions (response : gostring) : go_result (slice gostring) :=
  let start := strings.Index response "[" in
  let end_ := strings.LastIndex response "]" in
  if (start =? -1) || (end_ =? -1) then Returned default_questions
  else
    jsonStr <- slice_expr response start (end_ + 1) ;;
    match json_Unmarshal_strings jsonStr with
    | None => Returned default_questions
    | Some questions => Returned questions
    end.

End Extraction.

(** [parseHint] extracts the hint from the AI response. *)
Definition parseHint (response : gostring) : gostring :=
  let hint := strings.TrimSpace response in
  if gostring_eqb hint ""
  then str "Consider the problem step by step. What's the core requirement here?"
  else hint.

(** [parseChatResponse] cleans up and formats the chat response. *)
Definition parseChatResponse (response : gostring) : gostring :=
  let cleaned := strings.TrimSpace response in
  let cleaned := strings.TrimPrefix cleaned "```" in
  let cleaned := strings.TrimSuffix cleaned "```" in
  let cleaned := strings.TrimSpace cleaned in
  if gostring_eqb cleaned ""
  then str "I'm here to help! Could you rephrase your question?"
  else cleaned.

(** ** Package strconv: numbers *)

Module strconv.

Definition is_digit (b : byte) : bool := utf8.in_range x30 x39 b.

Definition digit_val (b : byte) : Z := Z.of_N (Byte.to_N b) - 48.

(** Value of a run of decimal digits. *)
Definition digits_val (ds : gostring) : Z :=
  fold_left (fun acc d => 10 * acc + digit_val d) ds 0.

(** The parts of a number literal of the JSON grammar:
    [-? int (. frac)? ([eE] [+-]? exp)?]. *)
Record literal := mk_literal {
  lit_neg : bool;
  lit_int : gostring;
  lit_frac : gostring;
  lit_exp : option (bool * gostring)
}.

(** The nearest binary64 to [(-1)^neg * num / den], ties to even;
    [None] when it overflows ([ErrRange]). *)
Definition round_ratio (neg : bool) (num den : Z) : option float64 :=
  if num =? 0 then Some (S754_zero neg)
  else
    let '(q, e, l) := SFdiv_core_binary 53 1024 num 0 den 0 in
    match binary_round_aux 53 1024 neg q e l with
    | S754_infinity _ => None
    | S754_nan => None
    | f => Some f
    end.

(** The nearest binary64 to [(-1)^neg * m * 10^e10]. *)
Definition round_decimal (neg : bool) (m e10 : Z) : option float64 :=
  round_ratio neg (m * 10 ^ Z.max e10 0) (10 ^ Z.max (- e10) 0).

(** [ParseFloat(s, 64)] on a literal of the JSON grammar. *)
Definition ParseFloat (l : literal) : option float64 :=
  let m := digits_val (lit_int l ++ lit_frac l) in
  let e := match lit_exp l with
           | None => 0
           | Some (eneg, ds) => if eneg then - digits_val ds else digits_val ds
           end in
  round_decimal (lit_neg l) m (e - len (lit_frac l)).

(** [ParseInt(s, 10, 64)] on a literal of the JSON grammar: a fraction
    or an exponent is a syntax error, a value outside the int64 range a
    range error. *)
Definition ParseInt (l : literal) : option Z :=
  match lit_frac l, lit_exp l with
  | [], None =>
    let n := if lit_neg l then - digits_val (lit_int l) else digits_val (lit_int l) in
    if (- 2 ^ 63 <=? n) && (n <=? 2 ^ 63 - 1) then Some n else None
  | _, _ => None
  end.

(** Decimal digits of a natural number, most significant first. *)
Fixpoint digits_fuel (fuel : nat) (n : Z) (acc : gostring) : gostring :=
  let d := match Byte.of_N (Z.to_N (48 + n mod 10)) with
           | Some b => b
           | None => x30
           end in
  match fuel with
  | O => d :: acc
  | S fuel' => if n <? 10 then d :: acc else digits_fuel fuel' (n / 10) (d :: acc)
  end.

Definition digits_of (n : Z) : gostring :=
  digits_fuel (Z.to_nat (Z.log2 n)) n [].

(** [FormatInt(n, 10)]. *)
Definition FormatInt (n : Z) : gostring :=
  if n <? 0 then x2d :: digits_of (- n) else digits_of n.

(** *** Shortest decimal that reads back as the same float64 *)

(** Least [j] with [num * 10^j >= den]. *)
Fixpoint scale_up (fuel : nat) (num den j : Z) : Z :=
  match fuel with
  | O => j
  | S fuel' => if den <=? num then j else scale_up fuel' (num * 10) den (j + 1)
  end.

(** The [k] with [10^(k-1) <= num/den < 10^k], for [num/den > 0]. *)
Definition decimal_point (num den : Z) : Z :=
  if den <=? num then len (digits_of (num / den))
  else 1 - scale_up 400 num den 0.

Definition strip_zeros (ds : gostring) : gostring :=
  rev ((fix strip (l : gostring) : gostring :=
          match l with
          | x30 :: r => strip r
          | _ => l
          end) (rev ds)).

(** With [n] digits: the two [n]-digit decimals around [num/den], the
    one that reads back as [x] being chosen, the nearer of the two when
    both do, the even one on a tie. *)
Definition shortest_at (x : float64) (num den k : Z) (n : Z) : option Z :=
  let p := n - k in
  let a := num * 10 ^ Z.max p 0 in
  let b := den * 10 ^ Z.max (- p) 0 in
  let lo := a / b in
  let r := a mod b in
  let reads c := match round_decimal false c (- p) with
                 | Some y => SFeqb y x
                 | None => false
                 end in
  if r =? 0 then Some lo
  else
    match reads lo, reads (lo + 1) with
    | true, true =>
      match 2 * r ?= b with
      | Lt => Some lo
      | Gt => Some (lo + 1)
      | Eq => if Z.even lo then Some lo else Some (lo + 1)
      end
    | true, false => Some lo
    | false, true => Some (lo + 1)
    | false, false => None
    end.

Fixpoint shortest_from (fuel : nat) (x : float64) (num den k n : Z) : Z * Z :=
  match shortest_at x num den k n, fuel with
  | Some c, _ => (c, n)
  | None, S fuel' => shortest_from fuel' x num den k (n + 1)
  | None, O => (num * 10 ^ Z.max (n - k) 0 / (den * 10 ^ Z.max (k - n) 0), n)
  end.

(** Digits and decimal point of the shortest decimal for a positive
    finite [m * 2^e]: the value is [0.d1d2... * 10^dp]. *)
Definition shortest (m : positive) (e : Z) : gostring * Z :=
  let num := Zpos m * 2 ^ Z.max e 0 in
  let den := 2 ^ Z.max (- e) 0 in
  let k := decimal_point num den in
  let '(c, n) := shortest_from 16 (S754_finite false m e) num den k 1 in
  let ds := digits_of c in
  (strip_zeros ds, len ds + (k - n)).

Definition zeros (n : Z) : gostring := repeat x30 (Z.to_nat n).

(** The ['f'] format with the shortest precision. *)
Definition fmtF (ds : gostring) (dp : Z) : gostring :=
  let nd := len ds in
  (if 0 <? dp
   then firstn (Z.to_nat dp) ds ++ zeros (dp - nd)
   else [x30])
  ++ (if dp <? nd
      then x2e :: zeros (- dp) ++ skipn (Z.to_nat dp) ds
      else []).

(** The ['e'] format with the shortest precision. *)
Definition fmtE (ds : gostring) (dp : Z) : gostring :=
  let exp := match ds with [] => 0 | _ => dp - 1 end in
  let es := digits_of (Z.abs exp) in
  hd x30 ds
  :: (match tl ds with [] => [] | fr => x2e :: fr end)
  ++ x65 :: (if exp <? 0 then x2d else x2b)
  :: (if Z.abs exp <? 10 then x30 :: es else es).

End strconv.

(** ** Package encoding/json: reading *)

Module json.

(** A JSON document as the scanner reads it: strings are held unquoted,
    numbers as the parts of their literal, objects as their members in
    source order. *)
#[local] Unset Elimination Schemes.
Inductive value :=
| Null
| Bool (b : bool)
| Number (l : strconv.literal)
| String (s : gostring)
| Array (elems : list value)
| Object (members : list (gostring * value)).
#[local] Set Elimination Schemes.

Definition is_space (b : byte) : bool :=
  match b with
  | x20 | x09 | x0d | x0a => true
  | _ => false
  end.

Fixpoint skip_space (s : gostring) : gostring :=
  match s with
  | b :: r => if is_space b then skip_space r else s
  | [] => []
  end.

(** *** Strings *)

Definition hex_val (b : byte) : option Z :=
  if utf8.in_range x30 x39 b then Some (Z.of_N (Byte.to_N b) - 48)
  else if utf8.in_range x61 x66 b then Some (Z.of_N (Byte.to_N b) - 87)
  else if utf8.in_range x41 x46 b then Some (Z.of_N (Byte.to_N b) - 55)
  else None.

(** [getu4] after the [\u]: four hexadecimal digits. *)
Definition hex4 (s : gostring) : option (Z * gostring) :=
  match s with
  | a :: b :: c :: d :: r =>
    match hex_val a, hex_val b, hex_val c, hex_val d with
    | Some va, Some vb, Some vc, Some vd =>
      Some (((va * 16 + vb) * 16 + vc) * 16 + vd, r)
    | _, _, _, _ => None
    end
  | _ => None
  end.

Definition byte_of_Z (n : Z) : byte :=
  match Byte.of_N (Z.to_N n) with
  | Some b => b
  | None => x00
  end.

(** [utf8.EncodeRune] on a rune that is not a surrogate. *)
Definition encode_rune (r : Z) : gostring :=
  if r <? 128 then [byte_of_Z r]
  else if r <? 2048 then
    [byte_of_Z (192 + r / 64); byte_of_Z (128 + r mod 64)]
  else if r <? 65536 then
    [byte_of_Z (224 + r / 4096); byte_of_Z (128 + (r / 64) mod 64);
     byte_of_Z (128 + r mod 64)]
  else
    [byte_of_Z (240 + r / 262144); byte_of_Z (128 + (r / 4096) mod 64);
     byte_of_Z (128 + (r / 64) mod 64); byte_of_Z (128 + r mod 64)].

Definition replacement_char : gostring := [xef; xbf; xbd].

Definition is_surrogate (r : Z) : bool := (55296 <=? r) && (r <? 57344).

(** [utf16.DecodeRune]: the code point of a surrogate pair, if it is one. *)
Definition decode_surrogates (r1 r2 : Z) : option Z :=
  if (55296 <=? r1) && (r1 <? 56320) && (56320 <=? r2) && (r2 <? 57344)
  then Some ((r1 - 55296) * 1024 + (r2 - 56320) + 65536)
  else None.

(** Reads a string literal after its opening quote and unquotes it:
    escapes are replaced, a lone surrogate and every byte that is not
    part of a valid UTF-8 encoding become U+FFFD; a control character or
    an unknown escape is a syntax error. *)
Fixpoint scan_string (fuel : nat) (s : gostring) : option (gostring * gostring) :=
  match fuel with
  | O => None
  | S fuel' =>
    let continue (out rest : gostring) :=
      match scan_string fuel' rest with
      | Some (tl, rest') => Some (out ++ tl, rest')
      | None => None
      end in
    match s with
    | [] => None
    | x22 :: r => Some ([], r)
    | x5c :: c :: r =>
      match c with
      | x22 => continue [x22] r
      | x5c => continue [x5c] r
      | x2f => continue [x2f] r
      | x62 => continue [x08] r
      | x66 => continue [x0c] r
      | x6e => continue [x0a] r
      | x72 => continue [x0d] r
      | x74 => continue [x09] r
      | x75 =>
        match hex4 r with
        | None => None
        | Some (rr, r') =>
          if is_surrogate rr then
            match r' with
            | x5c :: x75 :: r'' =>
              match hex4 r'' with
              | Some (rr1, r3) =>
                match decode_surrogates rr rr1 with
                | Some dec => continue (encode_rune dec) r3
                | None => continue replacement_char r'
                end
              | None => continue replacement_char r'
              end
            | _ => continue replacement_char r'
            end
          else continue (encode_rune rr) r'
        end
      | _ => None
      end
    | x5c :: [] => None
    | c :: r =>
      if (Byte.to_N c <? 32)%N then None
      else if (Byte.to_N c <? 128)%N then continue [c] r
      else match utf8.valid_width s with
           | O => continue replacement_char r
           | w => continue (firstn w s) (skipn w s)
           end
    end
  end.

(** *** Numbers *)

Fixpoint span_digits (s : gostring) : gostring * gostring :=
  match s with
  | b :: r =>
    if strconv.is_digit b
    then let '(ds, rest) := span_digits r in (b :: ds, rest)
    else ([], s)
  | [] => ([], [])
  end.

Definition scan_exponent (s : gostring) : option (option (bool * gostring) * gostring) :=
  match s with
  | (x65 | x45) :: r =>
    let '(eneg, r') :=
      match r with
      | x2d :: r' => (true, r')
      | x2b :: r' => (false, r')
      | _ => (false, r)
      end in
    match span_digits r' with
    | ([], _) => None
    | (ds, rest) => Some (Some (eneg, ds), rest)
    end
  | _ => Some (None, s)
  end.

Definition scan_fraction (s : gostring) : option (gostring * gostring) :=
  match s with
  | x2e :: r =>
    match span_digits r with
    | ([], _) => None
    | (ds, rest) => Some (ds, rest)
    end
  | _ => Some ([], s)
  end.

Definition scan_number (s : gostring) : option (strconv.literal * gostring) :=
  let '(neg, r) := match s with
                   | x2d :: r => (true, r)
                   | _ => (false, s)
                   end in
  let int_part :=
    match r with
    | x30 :: r' => Some ([x30], r')
    | _ => match span_digits r with
           | ([], _) => None
           | (ds, rest) => Some (ds, rest)
           end
    end in
  match int_part with
  | None => None
  | Some (ds, r1) =>
    match scan_fraction r1 with
    | None => None
    | Some (fs, r2) =>
      match scan_exponent r2 with
      | None => None
      | Some (e, r3) => Some (strconv.mk_literal neg ds fs e, r3)
      end
    end
  end.

(** *** Values *)

Definition maxNestingDepth : Z := 10000.

(** [scan_value fuel depth s] reads one value, after optional white
    space, and returns it with the rest of the input. *)
Fixpoint scan_value (fuel : nat) (depth : Z) (s : gostring)
  : option (value * gostring) :=
  match fuel with
  | O => None
  | S fuel' =>
    match skip_space s with
    | x7b :: r =>
      if maxNestingDepth <? depth + 1 then None
      else match skip_space r with
           | x7d :: r' => Some (Object [], r')
           | r' =>
             match scan_members fuel' (depth + 1) r' with
             | Some (ms, rest) => Some (Object ms, rest)
             | None => None
             end
           end
    | x5b :: r =>
      if maxNestingDepth <? depth + 1 then None
      else match skip_space r with
           | x5d :: r' => Some (Array [], r')
           | r' =>
             match scan_elements fuel' (depth + 1) r' with
             | Some (vs, rest) => Some (Array vs, rest)
             | None => None
             end
           end
    | x22 :: r =>
      match scan_string (S (length r)) r with
      | Some (str, rest) => Some (String str, rest)
      | None => None
      end
    | x74 :: x72 :: x75 :: x65 :: r => Some (Bool true, r)
    | x66 :: x61 :: x6c :: x73 :: x65 :: r => Some (Bool false, r)
    | x6e :: x75 :: x6c :: x6c :: r => Some (Null, r)
    | r =>
      match scan_number r with
      | Some (l, rest) => Some (Number l, rest)
      | None => None
      end
    end
  end
(** The members of an object from its first key on, up to and
    including the closing brace. *)
with scan_members (fuel : nat) (depth : Z) (s : gostring)
  : option (list (gostring * value) * gostring) :=
  match fuel with
  | O => None
  | S fuel' =>
    match s with
    | x22 :: r =>
      match scan_string (S (length r)) r with
      | None => None
      | Some (key, r1) =>
        match skip_space r1 with
        | x3a :: r2 =>
          match scan_value fuel' depth r2 with
          | None => None
          | Some (v, r3) =>
            match skip_space r3 with
            | x7d :: r4 => Some ([(key, v)], r4)
            | x2c :: r4 =>
              match scan_members fuel' depth (skip_space r4) with
              | Some (ms, rest) => Some ((key, v) :: ms, rest)
              | None => None
              end
            | _ => None
            end
          end
        | _ => None
        end
      end
    | _ => None
    end
  end
(** The elements of an array from its first element on, up to and
    including the closing bracket. *)
with scan_elements (fuel : nat) (depth : Z) (s : gostring)
  : option (list value * gostring) :=
  match fuel with
  | O => None
  | S fuel' =>
    match scan_value fuel' depth s with
    | None => None
    | Some (v, r1) =>
      match skip_space r1 with
      | x5d :: r2 => Some ([v], r2)
      | x2c :: r2 =>
        match scan_elements fuel' depth r2 with
        | Some (vs, rest) => Some (v :: vs, rest)
        | None => None
        end
      | _ => None
      end
    end
  end.

(** [checkValid] and the scan in one: the whole input is one value
    surrounded by optional white space. *)
Definition parse (data : gostring) : option value :=
  match scan_value (S (2 * length data)) 0 data with
  | Some (v, rest) =>
    match skip_space rest with
    | [] => Some v
    | _ :: _ => None
    end
  | None => None
  end.

(** *** Storing a document into Go values

    Every decoder takes the current content of its destination, as
    [Unmarshal] decodes into what is already there: [null] leaves a
    string, a number, a boolean or a struct as it is and makes a slice
    nil; a value of the wrong kind is an [UnmarshalTypeError]. *)

Definition decode_string (cur : gostring) (v : value) : option gostring :=
  match v with
  | Null => Some cur
  | String s => Some s
  | _ => None
  end.

Definition decode_float64 (cur : float64) (v : value) : option float64 :=
  match v with
  | Null => Some cur
  | Number l => strconv.ParseFloat l
  | _ => None
  end.

Definition decode_int (cur : Z) (v : value) : option Z :=
  match v with
  | Null => Some cur
  | Number l => strconv.ParseInt l
  | _ => None
  end.

Definition decode_bool (cur : bool) (v : value) : option bool :=
  match v with
  | Null => Some cur
  | Bool b => Some b
  | _ => None
  end.

Section Containers.

Context {A : Type}.

(** Element [i] of an array is decoded into element [i] of the old
    slice while there is one, into a zero element after that.  (The
    old elements that a shorter array leaves behind the new length are
    not kept: they could only be seen by a document that assigns the
    same array three times.) *)
Fixpoint decode_elements (decode : A -> value -> option A) (zero : A)
    (old : list A) (vs : list value) : option (list A) :=
  match vs with
  | [] => Some []
  | v :: vs' =>
    match decode (hd zero old) v with
    | None => None
    | Some a =>
      match decode_elements decode zero (tl old) vs' with
      | None => None
      | Some l => Some (a :: l)
      end
    end
  end.

Definition decode_slice (decode : A -> value -> option A) (zero : A)
    (cur : slice A) (v : value) : option (slice A) :=
  match v with
  | Null => Some None
  | Array vs =>
    match decode_elements decode zero
            (match cur with Some l => l | None => [] end) vs with
    | Some l => Some (Some l)
    | None => None
    end
  | _ => None
  end.

(** The members of an object are stored one after the other, each
    into the field its key names. *)
Fixpoint decode_members (store : A -> gostring -> value -> option A)
    (cur : A) (ms : list (gostring * value)) : option A :=
  match ms with
  | [] => Some cur
  | (key, v) :: ms' =>
    match store cur key v with
    | None => None
    | Some cur' => decode_members store cur' ms'
    end
  end.

Definition decode_struct (store : A -> gostring -> value -> option A)
    (cur : A) (v : value) : option A :=
  match v with
  | Null => Some cur
  | Object ms => decode_members store cur ms
  | _ => None
  end.

End Containers.

(** [foldName]: keys are matched to field names up to Unicode simple
    case folding.  For the ASCII names of this program that is ASCII
    case, U+017F (long s) for [s] and U+212A (Kelvin sign) for [k]. *)
Fixpoint foldName (s : gostring) : gostring :=
  match s with
  | [] => []
  | xc5 :: xbf :: r => x53 :: foldName r
  | xe2 :: x84 :: xaa :: r => x4b :: foldName r
  | b :: r =>
    (if utf8.in_range x61 x7a b then byte_of_Z (Z.of_N (Byte.to_N b) - 32) else b)
    :: foldName r
  end.

Definition names (key : gostring) (field : gostring) : bool :=
  gostring_eqb (foldName key) (foldName field).

Definition zero_CodeIssue : CodeIssue.t := CodeIssue.mk [] [] 0 [] [].

Definition store_CodeIssue (c : CodeIssue.t) (key : gostring) (v : value)
  : option CodeIssue.t :=
  let '(CodeIssue.mk ty sev line desc sol) := c in
  if names key "type" then
    option_map (fun x => CodeIssue.mk x sev line desc sol) (decode_string ty v)
  else if names key "severity" then
    option_map (fun x => CodeIssue.mk ty x line desc sol) (decode_string sev v)
  else if names key "line_number" then
    option_map (fun x => CodeIssue.mk ty sev x desc sol) (decode_int line v)
  else if names key "description" then
    option_map (fun x => CodeIssue.mk ty sev line x sol) (decode_string desc v)
  else if names key "solution" then
    option_map (fun x => CodeIssue.mk ty sev line desc x) (decode_string sol v)
  else Some c.

Definition zero_CodeSuggestion : CodeSuggestion.t := CodeSuggestion.mk [] [] [] [].

Definition store_CodeSuggestion (c : CodeSuggestion.t) (key : gostring) (v : value)
  : option CodeSuggestion.t :=
  let '(CodeSuggestion.mk cat prio desc ex) := c in
  if names key "category" then
    option_map (fun x => CodeSuggestion.mk x prio desc ex) (decode_string cat v)
  else if names key "priority" then
    option_map (fun x => CodeSuggestion.mk cat x desc ex) (decode_string prio v)
  else if names key "description" then
    option_map (fun x => CodeSuggestion.mk cat prio x ex) (decode_string desc v)
  else if names key "example" then
    option_map (fun x => CodeSuggestion.mk cat prio desc x) (decode_string ex v)
  else Some c.

Definition zero_ComplexityAnalysis : ComplexityAnalysis.t :=
  ComplexityAnalysis.mk [] [] false [].

Definition store_ComplexityAnalysis (c : ComplexityAnalysis.t) (key : gostring)
    (v : value) : option ComplexityAnalysis.t :=
  let '(ComplexityAnalysis.mk tc sc can opt) := c in
  if names key "time_complexity" then
    option_map (fun x => ComplexityAnalysis.mk x sc can opt) (decode_string tc v)
  else if names key "space_complexity" then
    option_map (fun x => ComplexityAnalysis.mk tc x can opt) (decode_string sc v)
  else if names key "can_optimize" then
    option_map (fun x => ComplexityAnalysis.mk tc sc x opt) (decode_bool can v)
  else if names key "optimized_approach" then
    option_map (fun x => ComplexityAnalysis.mk tc sc can x) (decode_string opt v)
  else Some c.

(** The zero value of [var review AICodeReview]. *)
Definition zero_AICodeReview : AICodeReview :=
  mkAICodeReview (S754_zero false) None None [] None zero_ComplexityAnalysis
    (S754_zero false) [].

Definition store_AICodeReview (c : AICodeReview) (key : gostring) (v : value)
  : option AICodeReview :=
  let '(mkAICodeReview score issues suggs fb qs cx read cov) := c in
  if names key "overall_score" then
    option_map (fun x => mkAICodeReview x issues suggs fb qs cx read cov)
      (decode_float64 score v)
  else if names key "issues" then
    option_map (fun x => mkAICodeReview score x suggs fb qs cx read cov)
      (decode_slice (decode_struct store_CodeIssue) zero_CodeIssue issues v)
  else if names key "suggestions" then
    option_map (fun x => mkAICodeReview score issues x fb qs cx read cov)
      (decode_slice (decode_struct store_CodeSuggestion) zero_CodeSuggestion suggs v)
  else if names key "interviewer_feedback" then
    option_map (fun x => mkAICodeReview score issues suggs x qs cx read cov)
      (decode_string fb v)
  else if names key "follow_up_questions" then
    option_map (fun x => mkAICodeReview score issues suggs fb x cx read cov)
      (decode_slice decode_string [] qs v)
  else if names key "complexity" then
    option_map (fun x => mkAICodeReview score issues suggs fb qs x read cov)
      (decode_struct store_ComplexityAnalysis cx v)
  else if names key "readability_score" then
    option_map (fun x => mkAICodeReview score issues suggs fb qs cx x cov)
      (decode_float64 read v)
  else if names key "test_coverage" then
    option_map (fun x => mkAICodeReview score issues suggs fb qs cx read x)
      (decode_string cov v)
  else Some c.

(** [json.Unmarshal([]byte(data), &review)] on a zero [review]: the
    filled record, or [None] when an error is reported. *)
Definition Unmarshal_AICodeReview (data : gostring) : option AICodeReview :=
  match parse data with
  | None => None
  | Some v => decode_struct store_AICodeReview zero_AICodeReview v
  end.

(** [json.Unmarshal([]byte(data), &questions)] on a nil [[]string]. *)
Definition Unmarshal_strings (data : gostring) : option (slice gostring) :=
  match parse data with
  | None => None
  | Some v => decode_slice decode_string [] None v
  end.

(** *** Writing: [json.Marshal] *)

(** Text written with apostrophes for the quotation marks of JSON. *)
Definition text (s : String.string) : gostring :=
  map (fun b => match b with x27 => x22 | _ => b end) (str s).

Definition hex_digit (n : Z) : byte :=
  nth (Z.to_nat n) (str "0123456789abcdef") x30.

(** One ASCII byte inside a string literal, with HTML escaping on. *)
Definition encode_ascii (b : byte) : gostring :=
  match b with
  | x22 => [x5c; x22]
  | x5c => [x5c; x5c]
  | x08 => [x5c; x62]
  | x0c => [x5c; x66]
  | x0a => [x5c; x6e]
  | x0d => [x5c; x72]
  | x09 => [x5c; x74]
  | _ =>
    let n := Z.of_N (Byte.to_N b) in
    if (n <? 32) || Byte.eqb b x3c || Byte.eqb b x3e || Byte.eqb b x26
    then str "\u00" ++ [hex_digit (n / 16); hex_digit (n mod 16)]
    else [b]
  end.

Fixpoint encode_bytes (fuel : nat) (s : gostring) : gostring :=
  match fuel, s with
  | _, [] => []
  | O, _ => []
  | S fuel', b :: r =>
    if (Byte.to_N b <? 128)%N then encode_ascii b ++ encode_bytes fuel' r
    else match utf8.valid_width s with
         | O => str "\ufffd" ++ encode_bytes fuel' r
         | w =>
           let rune := firstn w s in
           (if gostring_eqb rune [xe2; x80; xa8] then str "\u2028"
            else if gostring_eqb rune [xe2; x80; xa9] then str "\u2029"
            else rune)
           ++ encode_bytes fuel' (skipn w s)
         end
  end.

Definition encode_string (s : gostring) : gostring :=
  x22 :: encode_bytes (length s) s ++ [x22].

(** The exponent form is written [e-7], not [e-07]. *)
Definition clean_exponent (b : gostring) : gostring :=
  match rev b with
  | d :: x30 :: x2d :: x65 :: r => rev (d :: x2d :: x65 :: r)
  | _ => b
  end.

Definition float_1e_6 : float64 :=
  match strconv.round_decimal false 1 (-6) with
  | Some f => f
  | None => S754_nan
  end.

Definition float_1e21 : float64 := float64_of_Z (10 ^ 21).

(** A float64 is written with the fewest digits that read back as the
    same value, in exponent form below [1e-6] and from [1e21] on; NaN
    and the infinities are an [UnsupportedValueError]. *)
Definition encode_float64 (f : float64) : option gostring :=
  match f with
  | S754_nan | S754_infinity _ => None
  | S754_zero s => Some (if s then str "-0" else str "0")
  | S754_finite s m e =>
    let '(ds, dp) := strconv.shortest m e in
    let abs := S754_finite false m e in
    let body :=
      if SFltb abs float_1e_6 || SFleb float_1e21 abs
      then clean_exponent (strconv.fmtE ds dp)
      else strconv.fmtF ds dp in
    Some (if s then x2d :: body else body)
  end.

Definition encode_bool (b : bool) : gostring :=
  if b then str "true" else str "false".

Fixpoint join (sep : gostring) (l : list gostring) : gostring :=
  match l with
  | [] => []
  | [x] => x
  | x :: r => x ++ sep ++ join sep r
  end.

(** A nil slice is written [null]. *)
Definition encode_slice {A : Type} (encode : A -> gostring) (s : slice A) : gostring :=
  match s with
  | None => str "null"
  | Some l => str "[" ++ join (str ",") (map encode l) ++ str "]"
  end.

Definition encode_CodeIssue (c : CodeIssue.t) : gostring :=
  text "{'type':" ++ encode_string (CodeIssue.Type_ c)
  ++ text ",'severity':" ++ encode_string (CodeIssue.Severity c)
  ++ text ",'line_number':" ++ strconv.FormatInt (CodeIssue.LineNumber c)
  ++ text ",'description':" ++ encode_string (CodeIssue.Description c)
  ++ text ",'solution':" ++ encode_string (CodeIssue.Solution c)
  ++ str "}".

Definition encode_CodeSuggestion (c : CodeSuggestion.t) : gostring :=
  text "{'category':" ++ encode_string (CodeSuggestion.Category c)
  ++ text ",'priority':" ++ encode_string (CodeSuggestion.Priority c)
  ++ text ",'description':" ++ encode_string (CodeSuggestion.Description c)
  ++ text ",'example':" ++ encode_string (CodeSuggestion.Example c)
  ++ str "}".

Definition encode_ComplexityAnalysis (c : ComplexityAnalysis.t) : gostring :=
  text "{'time_complexity':" ++ encode_string (ComplexityAnalysis.TimeComplexity c)
  ++ text ",'space_complexity':" ++ encode_string (ComplexityAnalysis.SpaceComplexity c)
  ++ text ",'can_optimize':" ++ encode_bool (ComplexityAnalysis.CanOptimize c)
  ++ text ",'optimized_approach':"
  ++ encode_string (ComplexityAnalysis.OptimizedApproach c)
  ++ str "}".

(** [json.Marshal(review)]: the fields in declaration order under
    their tags, or [None] when a score cannot be written. *)
Definition Marshal_AICodeReview (r : AICodeReview) : option gostring :=
  match encode_float64 (OverallScore r), encode_float64 (ReadabilityScore r) with
  | Some score, Some readability =>
    Some (text "{'overall_score':" ++ score
          ++ text ",'issues':" ++ encode_slice encode_CodeIssue (Issues r)
          ++ text ",'suggestions':"
          ++ encode_slice encode_CodeSuggestion (Suggestions r)
          ++ text ",'interviewer_feedback':"
          ++ encode_string (InterviewerFeedback r)
          ++ text ",'follow_up_questions':"
          ++ encode_slice encode_string (FollowUpQuestions r)
          ++ text ",'complexity':" ++ encode_ComplexityAnalysis (Complexity r)
          ++ text ",'readability_score':" ++ readability
          ++ text ",'test_coverage':" ++ encode_string (TestCoverage r)
          ++ str "}")
  | _, _ => None
  end.

End json.

(** ** What the claims speak of *)

(** The three fields whose zero values make a decoded review count as
    empty. *)
Definition signals_all_zero (r : AICodeReview) : bool :=
  float64_is_zero (OverallScore r)
  && float64_is_zero (ReadabilityScore r)
  && gostring_eqb (InterviewerFeedback r) "".

Definition slice_is_empty {A : Type} (s : slice A) : bool :=
  match s with
  | None | Some [] => true
  | Some (_ :: _) => false
  end.

Definition gostring_is_empty (s : gostring) : bool :=
  match s with
  | [] => true
  | _ :: _ => false
  end.

(** No top-level field holds the zero value of its type. *)
Definition fully_populated (r : AICodeReview) : bool :=
  negb (float64_is_zero (OverallScore r))
  && negb (slice_is_empty (Issues r))
  && negb (slice_is_empty (Suggestions r))
  && negb (gostring_is_empty (InterviewerFeedback r))
  && negb (slice_is_empty (FollowUpQuestions r))
  && negb (gostring_is_empty (ComplexityAnalysis.TimeComplexity (Complexity r)))
  && negb (gostring_is_empty (ComplexityAnalysis.SpaceComplexity (Complexity r)))
  && negb (float64_is_zero (ReadabilityScore r))
  && negb (gostring_is_empty (TestCoverage r)).

(** The text that the fallback wraps in its prompt: the text it was
    given, cut to its first 500 bytes and marked with an ellipsis when it
    is longer, or a fixed sentence when there is none. *)
Definition echo (text : gostring) : gostring :=
  match text with
  | [] => str "AI provided an empty or malformed response. Please try again."
  | _ :: _ => if 500 <? len text then firstn 500 text ++ str "..." else text
  end.

Definition prompt_before : gostring :=
  "I'm having trouble analyzing your code automatically. ".

Definition prompt_after : gostring :=
  " Let's focus on the core logic - can you walk me through your approach?".

(** The total-failure default, as the specification lists it. *)
Definition canonical_default (reason text : gostring) : AICodeReview :=
  {| OverallScore := float64_of_Z 50;
     Issues := Some [
       CodeIssue.mk "parsing" "medium" 0
         (str "AI response parsing issue: " ++ reason)
         "Try running the AI review again, or check your code for syntax issues." ];
     Suggestions := Some [
       CodeSuggestion.mk "troubleshooting" "medium"
         "If this keeps happening, try simplifying your code or breaking it into smaller functions."
         "" ];
     InterviewerFeedback := prompt_before ++ echo text ++ prompt_after;
     FollowUpQuestions := Some [
       str "Can you explain your algorithm step by step?";
       str "What's the time complexity of your solution?";
       str "How would you handle edge cases?" ];
     Complexity :=
       ComplexityAnalysis.mk "Unable to analyze" "Unable to analyze" false
         "Rerun analysis after fixing any syntax issues";
     ReadabilityScore := float64_of_Z 50;
     TestCoverage := "Unable to assess due to parsing error" |}.

(** The JSON candidate of [parseAIResponse]: nothing when the cleaned
    reply lacks an opening or a closing brace, else the slice from its
    first opening brace to its last closing brace. *)
Definition json_candidate (response : gostring) : go_result (option gostring) :=
  let cleaned := strip_code_fence response in
  let start := strings.Index cleaned "{" in
  let end_ := strings.LastIndex cleaned "}" in
  if (start =? -1) || (end_ =? -1) then Returned None
  else jsonStr <- slice_expr cleaned start (end_ + 1) ;; Returned (Some jsonStr).

(** The same for [parseQuestions], on the reply as it is. *)
Definition array_candidate (response : gostring) : go_result (option gostring) :=
  let start := strings.Index response "[" in
  let end_ := strings.LastIndex response "]" in
  if (start =? -1) || (end_ =? -1) then Returned None
  else jsonStr <- slice_expr response start (end_ + 1) ;; Returned (Some jsonStr).

Definition balanced (jsonStr : gostring) : bool :=
  strings.Count jsonStr "{" =? strings.Count jsonStr "}".

(** A string made of white-space runes only. *)
Inductive spaces : gostring -> Prop :=
| spaces_nil : spaces []
| spaces_ascii b w :
    unicode.is_ascii_space b = true -> spaces w -> spaces (b :: w)
| spaces_two b1 b2 w :
    unicode.is_space2 b1 b2 = true -> spaces w -> spaces (b1 :: b2 :: w)
| spaces_three b1 b2 b3 w :
    unicode.is_space3 b1 b2 b3 = true -> spaces w -> spaces (b1 :: b2 :: b3 :: w).

(** The bytes that can begin, and those that can end, a white-space rune. *)
Definition space_lead (b : byte) : bool :=
  unicode.is_ascii_space b
  || Byte.eqb b xc2 || Byte.eqb b xe1 || Byte.eqb b xe2 || Byte.eqb b xe3.

Definition space_trail (b : byte) : bool :=
  unicode.is_ascii_space b
  || Byte.eqb b x85 || Byte.eqb b xa0 || utf8.in_range x80 x8a b
  || Byte.eqb b xa8 || Byte.eqb b xa9 || Byte.eqb b xaf || Byte.eqb b x9f.

(** The bytes that occur in the encoding of some white-space rune. *)
Definition space_byte (b : byte) : bool :=
  space_lead b || space_trail b || Byte.eqb b x9a.

(** The reply wrapped in a code fence: opening marker with its language
    tag, the reply, closing marker, with white space around each part. *)
Definition fenced (w1 tag w2 s w3 w4 : gostring) : gostring :=
  w1 ++ str "```" ++ tag ++ w2 ++ s ++ w3 ++ str "```" ++ w4.

(** A text with no white space at either end: no run of white-space
    runes begins it or ends it. *)
Definition trimmed (s : gostring) : Prop :=
  (forall w r, spaces w -> s = w ++ r -> w = [])
  /\ (forall r w, spaces w -> s = r ++ w -> w = []).

(** How [parseChatResponse] reads a reply: white space, the opening
    marker when the text begins with one, white space, the core, white
    space, the closing marker when what follows the opening ends with
    one, white space.  The text between the outer white space and the
    core have no white space at their ends. *)
Definition chat_reading
    (response w1 opening w2 core w3 closing w4 : gostring) : Prop :=
  response = w1 ++ opening ++ w2 ++ core ++ w3 ++ closing ++ w4
  /\ spaces w1 /\ spaces w4
  /\ trimmed (opening ++ w2 ++ core ++ w3 ++ closing)
  /\ (opening = str "```"
      \/ opening = []
         /\ ~ (exists r, w2 ++ core ++ w3 ++ closing = str "```" ++ r))
  /\ (closing = str "```"
      \/ closing = [] /\ ~ (exists r, w2 ++ core ++ w3 = r ++ str "```"))
  /\ spaces w2 /\ spaces w3
  /\ trimmed core.

(** How [parseHint] reads a reply: white space, the core, white
    space. *)
Definition hint_reading (response w1 core w2 : gostring) : Prop :=
  response = w1 ++ core ++ w2 /\ spaces w1 /\ spaces w2 /\ trimmed core.


(** ** What a decoded review is made of *)

(** Valid UTF-8: a sequence of encodings of runes. *)
Inductive valid_utf8 : gostring -> Prop :=
| valid_empty : valid_utf8 []
| valid_rune (r s : gostring) :
    r <> [] -> utf8.valid_width r = length r -> valid_utf8 s ->
    valid_utf8 (r ++ s).

Definition in_int64 (n : Z) : Prop := - 2 ^ 63 <= n <= 2 ^ 63 - 1.

(** A property of every element of a slice. *)
Definition slice_all {A : Type} (P : A -> Prop) (s : slice A) : Prop :=
  match s with
  | Some l => Forall P l
  | None => True
  end.

Definition issue_ok (c : CodeIssue.t) : Prop :=
  valid_utf8 (CodeIssue.Type_ c)
  /\ valid_utf8 (CodeIssue.Severity c)
  /\ in_int64 (CodeIssue.LineNumber c)
  /\ valid_utf8 (CodeIssue.Description c)
  /\ valid_utf8 (CodeIssue.Solution c).

Definition suggestion_ok (c : CodeSuggestion.t) : Prop :=
  valid_utf8 (CodeSuggestion.Category c)
  /\ valid_utf8 (CodeSuggestion.Priority c)
  /\ valid_utf8 (CodeSuggestion.Description c)
  /\ valid_utf8 (CodeSuggestion.Example c).

Definition complexity_ok (c : ComplexityAnalysis.t) : Prop :=
  valid_utf8 (ComplexityAnalysis.TimeComplexity c)
  /\ valid_utf8 (ComplexityAnalysis.SpaceComplexity c)
  /\ valid_utf8 (ComplexityAnalysis.OptimizedApproach c).

(** What every review that the decoder delivers has: strings of valid
    UTF-8 and line numbers of 64 bits. *)
Definition review_ok (r : AICodeReview) : Prop :=
  slice_all issue_ok (Issues r)
  /\ slice_all suggestion_ok (Suggestions r)
  /\ valid_utf8 (InterviewerFeedback r)
  /\ slice_all valid_utf8 (FollowUpQuestions r)
  /\ complexity_ok (Complexity r)
  /\ valid_utf8 (TestCoverage r).

(** The same of a document: its strings, keys apart, are valid UTF-8. *)
Fixpoint value_ok (v : json.value) : Prop :=
  match v with
  | json.String s => valid_utf8 s
  | json.Array vs =>
    (fix all (l : list json.value) : Prop :=
       match l with
       | [] => True
       | x :: r => value_ok x /\ all r
       end) vs
  | json.Object ms =>
    (fix all (l : list (gostring * json.value)) : Prop :=
       match l with
       | [] => True
       | (_, x) :: r => value_ok x /\ all r
       end) ms
  | _ => True
  end.

(** Two float64 values with the same sign, mantissa and exponent. *)
Definition float64_same (x y : float64) : bool :=
  match x, y with
  | S754_zero a, S754_zero b => Bool.eqb a b
  | S754_infinity a, S754_infinity b => Bool.eqb a b
  | S754_nan, S754_nan => true
  | S754_finite a m e, S754_finite b n f =>
    Bool.eqb a b && Pos.eqb m n && Z.eqb e f
  | _, _ => false
  end.

(** The text that [Marshal] writes for the number is read back by the
    scanner and [ParseFloat] as the same float64. *)
Definition float_reads_back (f : float64) : bool :=
  match json.encode_float64 f with
  | Some t =>
    match json.scan_number t with
    | Some (l, []) =>
      match strconv.ParseFloat l with
      | Some y => float64_same y f
      | None => false
      end
    | _ => false
    end
  | None => false
  end.

(** The extractors with Go's own decoder. *)
Definition ExtractObject : gostring -> go_result (AICodeReview * error) :=
  parseAIResponse json.Unmarshal_AICodeReview.

Definition ExtractArray : gostring -> go_result (slice gostring) :=
  parseQuestions json.Unmarshal_strings.

(** ** Sample replies *)

(** A reply cut off in the middle of its issues. *)
Definition truncated_review : gostring :=
  json.text
    "{'overall_score': 60, 'issues': [{'type':'bug','severity':'high','description':'leak'}".

(** A valid object whose scores are zero and whose feedback is empty. *)
Definition zeroed_review : gostring :=
  json.text "{'overall_score': 0, 'readability_score': 0, 'interviewer_feedback': ''}".

(** A valid object with a closing brace inside a string. *)
Definition brace_in_feedback : gostring :=
  json.text "{'overall_score': 85, 'interviewer_feedback': 'missing } here'}".

(** The complete review of the specification's round-trip example, the
    record it stands for, and the text [json.Marshal] writes for it. *)
Definition complete_review : gostring :=
  json.text
    "{'overall_score': 85, 'issues': [], 'suggestions': [], 'interviewer_feedback': 'Good job', 'follow_up_questions': [], 'complexity': {'time_complexity':'O(n)','space_complexity':'O(1)','can_optimize':false,'optimized_approach':''}, 'readability_score': 90, 'test_coverage':'ok'}".

Definition complete_review_value : AICodeReview :=
  {| OverallScore := float64_of_Z 85;
     Issues := Some [];
     Suggestions := Some [];
     InterviewerFeedback := "Good job";
     FollowUpQuestions := Some [];
     Complexity := ComplexityAnalysis.mk "O(n)" "O(1)" false "";
     ReadabilityScore := float64_of_Z 90;
     TestCoverage := "ok" |}.

Definition complete_review_written : gostring :=
  json.text
    "{'overall_score':85,'issues':[],'suggestions':[],'interviewer_feedback':'Good job','follow_up_questions':[],'complexity':{'time_complexity':'O(n)','space_complexity':'O(1)','can_optimize':false,'optimized_approach':''},'readability_score':90,'test_coverage':'ok'}".

(** The same review with a closing brace in its feedback. *)
Definition complete_review_with_brace : gostring :=
  json.text
    "{'overall_score': 85, 'issues': [], 'suggestions': [], 'interviewer_feedback': 'Close the loop with } first', 'follow_up_questions': [], 'complexity': {'time_complexity':'O(n)','space_complexity':'O(1)','can_optimize':false,'optimized_approach':''}, 'readability_score': 90, 'test_coverage':'ok'}".

(** A review whose feedback holds an opening brace, escaped in the reply,
    the record it stands for, and the text [json.Marshal] writes for it. *)
Definition escaped_brace_review : gostring :=
  json.text "{'overall_score': 85, 'interviewer_feedback': 'open \u007b first'}".

Definition escaped_brace_value : AICodeReview :=
  {| OverallScore := float64_of_Z 85;
     Issues := None;
     Suggestions := None;
     InterviewerFeedback := "open { first";
     FollowUpQuestions := None;
     Complexity := json.zero_ComplexityAnalysis;
     ReadabilityScore := S754_zero false;
     TestCoverage := [] |}.

Definition escaped_brace_written : gostring :=
  json.text
    "{'overall_score':85,'issues':null,'suggestions':null,'interviewer_feedback':'open { first','follow_up_questions':null,'complexity':{'time_complexity':'','space_complexity':'','can_optimize':false,'optimized_approach':''},'readability_score':0,'test_coverage':''}".

(** The same reply cut off before any closing brace. *)
Definition truncated_review_open : gostring :=
  json.text
    "{'overall_score': 60, 'issues': [{'type':'bug','severity':'high','description':'leak'".

(** ** The rest of the service: run time *)

(** A call of the service can also panic on a nil pointer. *)
Inductive panic_value :=
| runtime_panic (e : runtime_error)
| nil_pointer_dereference.

Inductive outcome (A : Type) :=
| Done (a : A)
| Panic (p : panic_value).
Arguments Done {A} a.
Arguments Panic {A} p.

Definition of_result {A : Type} (m : go_result A) : outcome A :=
  match m with
  | Returned a => Done a
  | Panicked e => Panic (runtime_panic e)
  end.

Definition and_then {A B : Type} (m : outcome A) (k : A -> outcome B) : outcome B :=
  match m with
  | Done a => k a
  | Panic p => Panic p
  end.

Notation "x <~ m ;; k" := (and_then m (fun x => k))
  (at level 61, m at next level, right associativity).

(** Reading a field through a pointer. *)
Definition deref {A : Type} (p : option A) : outcome A :=
  match p with
  | Some a => Done a
  | None => Panic nil_pointer_dereference
  end.

(** The slice expression [s[lo:hi]] on a slice, for a slice whose
    capacity is its length: in bounds when [0 <= lo <= hi <= len(s)]. *)
Definition subslice {A : Type} (s : list A) (lo hi : Z) : outcome (list A) :=
  if (0 <=? lo) && (lo <=? hi) && (hi <=? len s)
  then Done (firstn (Z.to_nat (hi - lo)) (skipn (Z.to_nat lo) s))
  else Panic (runtime_panic (slice_bounds_out_of_range lo hi (len s))).

Definition elements {A : Type} (s : slice A) : list A :=
  match s with
  | Some l => l
  | None => []
  end.

(** [append(s, x)]. *)
Definition append {A : Type} (s : slice A) (x : A) : slice A :=
  Some (elements s ++ [x]).

(** ** More of packages unicode/utf8, unicode and strings *)

Definition utf8_RuneError : Z := 65533.

(** [utf8.DecodeRuneInString]: the first rune and its width; an invalid
    encoding is [RuneError] of width 1, the empty string [RuneError] of
    width 0. *)
Definition utf8_DecodeRuneInString (s : gostring) : Z * nat :=
  let v (b : byte) := Z.of_N (Byte.to_N b) in
  match utf8.valid_width s, s with
  | 1%nat, b0 :: _ => (v b0, 1%nat)
  | 2%nat, b0 :: b1 :: _ => (v b0 mod 32 * 64 + v b1 mod 64, 2%nat)
  | 3%nat, b0 :: b1 :: b2 :: _ =>
    (v b0 mod 16 * 4096 + v b1 mod 64 * 64 + v b2 mod 64, 3%nat)
  | 4%nat, b0 :: b1 :: b2 :: b3 :: _ =>
    (v b0 mod 8 * 262144 + v b1 mod 64 * 4096 + v b2 mod 64 * 64 + v b3 mod 64,
     4%nat)
  | _, [] => (utf8_RuneError, 0%nat)
  | _, _ :: _ => (utf8_RuneError, 1%nat)
  end.

(** [utf8.AppendRune]: a surrogate or a value out of range is written as
    [RuneError]. *)
Definition utf8_AppendRune (r : Z) : gostring :=
  if (r <? 0) || (1114111 <? r) || json.is_surrogate r
  then json.replacement_char
  else json.encode_rune r.

(** [strings.Map], by what it returns: every rune of the string, an
    invalid byte being [RuneError], is replaced by its image, and dropped
    when the image is negative. *)
Fixpoint strings_Map_fuel (fuel : nat) (mapping : Z -> Z) (s : gostring) : gostring :=
  match fuel, s with
  | _, [] => []
  | O, _ :: _ => []
  | S fuel', _ :: _ =>
    let '(c, width) := utf8_DecodeRuneInString s in
    let r := mapping c in
    (if r <? 0 then [] else utf8_AppendRune r)
    ++ strings_Map_fuel fuel' mapping (skipn width s)
  end.

Definition strings_Map (mapping : Z -> Z) (s : gostring) : gostring :=
  strings_Map_fuel (length s) mapping s.

Definition is_ascii (s : gostring) : bool :=
  forallb (fun c => (Byte.to_N c <? 128)%N) s.

Definition ascii_lower (c : byte) : byte :=
  if utf8.in_range x41 x5a c then json.byte_of_Z (Z.of_N (Byte.to_N c) + 32) else c.

(** [strings.Contains]. *)
Definition strings_Contains (s substr : gostring) : bool :=
  0 <=? strings.Index s substr.

Section Lowercase.

(** The lower-case mapping of the runes above ASCII, which package
    unicode reads from its case tables. *)
Variable unicode_LowerCase : Z -> Z.

(** [unicode.ToLower]. *)
Definition unicode_ToLower (r : Z) : Z :=
  if r <=? 127
  then (if (65 <=? r) && (r <=? 90) then r + 32 else r)
  else unicode_LowerCase r.

(** [strings.ToLower]: byte by byte on an ASCII string, rune by rune
    otherwise. *)
Definition strings_ToLower (s : gostring) : gostring :=
  if is_ascii s then map ascii_lower s else strings_Map unicode_ToLower s.

End Lowercase.

(** ** The types of the service *)

Definition LLMProvider := gostring.
Definition ProviderGemini : LLMProvider := str "gemini".
Definition ProviderOpenAI : LLMProvider := str "openai".
Definition ProviderClaude : LLMProvider := str "claude".

Module LLMConfig.
Record t := mk {
  Provider : LLMProvider;
  APIKey : gostring;
  Model : gostring;
  BaseURL : gostring;
  MaxTokens : Z;
  Temperature : float64
}.
End LLMConfig.

(** The service: its configuration and the time-out of its HTTP client,
    in nanoseconds. *)
Module AIService.
Record t := mk {
  config : LLMConfig.t;
  httpClient_Timeout : Z
}.
End AIService.

Module ChatMessage.
Record t := mk {
  Role : gostring;
  Content : gostring;
  Timestamp : gostring
}.
End ChatMessage.

Module ChatResponse.
Record t := mk {
  Message : gostring;
  Success : bool;
  Error : gostring;
  Timestamp : gostring;
  Context : gostring;
  Suggestions : slice gostring
}.
End ChatResponse.

(** The float64 constant written [m * 10^e] in the source. *)
Definition float64_of_decimal (m e : Z) : float64 :=
  match strconv.round_decimal false m e with
  | Some f => f
  | None => S754_infinity false
  end.

(** ** The texts of the prompts *)

(** The text of the code-review prompt around its three operands. *)
Definition codeReviewPrompt_0 : gostring :=
  json.text "You are a senior Go interviewer. Respond ONLY with a single JSON object. Do NOT include markdown or code fences. All numeric fields must be JSON numbers, not strings.

SCHEMA:
{
  'overall_score': integer (0..100),
  'issues': [
    {
      'type': 'bug|performance|style|logic',
      'severity': 'low|medium|high|critical',
      'line_number': integer,
      'description': string,
      'solution': string
    }
  ],
  'suggestions': [
    {
      'category': 'optimization|best_practice|alternative',
      'priority': 'low|medium|high',
      'description': string,
      'example': string
    }
  ],
  'interviewer_feedback': string,
  'follow_up_questions': [string],
  'complexity': {
    'time_complexity': string,
    'space_complexity': string,
    'can_optimize': boolean,
    'optimized_approach': string
  },
  'readability_score': integer (0..100),
  'test_coverage': string
}

CHALLENGE: ".

Definition codeReviewPrompt_1 : gostring :=
  str "
CONTEXT: ".

Definition codeReviewPrompt_2 : gostring :=
  str "

CODE (Go):
BEGIN_CODE
".

Definition codeReviewPrompt_3 : gostring :=
  str "
END_CODE

Focus on: (1) correctness and edge cases, (2) Go idioms, (3) performance, (4) readability, (5) interviewer follow-ups.".

(** The text of the question prompt around its three operands. *)
Definition questionPrompt_0 : gostring :=
  str "You are a technical interviewer. Respond ONLY with a JSON array of strings. No markdown, no prose outside the array.

CHALLENGE: ".

Definition questionPrompt_1 : gostring :=
  str "
USER PROGRESS: ".

Definition questionPrompt_2 : gostring :=
  str "

CODE (Go):
BEGIN_CODE
".

Definition questionPrompt_3 : gostring :=
  str "
END_CODE

Generate 3-5 follow-up questions that probe: deeper understanding, edge cases, optimizations, Go-specific concepts, and trade-offs.".

(** The text of the hint prompt around its four operands. *)
Definition hintPrompt_0 : gostring :=
  str "You are a helpful coding mentor. Return only the hint text as plain text. No JSON, no code fences.

CHALLENGE CONTEXT: ".

Definition hintPrompt_1 : gostring :=
  str "
CURRENT CODE:
".

Definition hintPrompt_2 : gostring :=
  str "

Provide ".

Definition hintPrompt_3 : gostring :=
  str " (level ".

Definition hintPrompt_4 : gostring :=
  str "/4). Be encouraging and educational, not just giving the answer.

Important: Use the CHALLENGE CONTEXT above to understand what specific challenge the student is working on. If it mentions a specific framework (like Gin, GORM, Cobra), provide hints specific to that framework.

Return only the hint text.".

(** The text of the chat prompt around its five operands. *)
Definition chatPrompt_0 : gostring :=
  str "You are a friendly and knowledgeable Go programming mentor. You're helping a student learn Go through hands-on coding challenges.

CONTEXT:
".

Definition chatPrompt_1 : gostring :=
  str "".

Definition chatPrompt_2 : gostring :=
  str "".

Definition chatPrompt_3 : gostring :=
  str "

STUDENT'S QUESTION: ".

Definition chatPrompt_4 : gostring :=
  json.text "

INSTRUCTIONS:
- Be encouraging and supportive
- Give clear, practical explanations with examples when helpful
- If discussing code, provide Go code snippets when relevant
- When showing code examples, use triple backticks with 'go' directly after (not on separate line)
- Keep responses concise but thorough (aim for 2-3 paragraphs)
- If the student is struggling, break down concepts into smaller steps
- Relate answers back to the current challenge when possible
- Use emojis sparingly and appropriately
- If asked about non-Go/programming topics, gently redirect to programming".

Definition chatPrompt_5 : gostring :=
  str "

Respond naturally as a helpful mentor would in a conversation.".

(** The two instructions about the code in the editor. *)
Definition codeAwareInstructions : gostring :=
  str "
- I can see the user's current code above, so refer to it directly when relevant
- Point out specific parts of their code when giving feedback
- Suggest improvements to their existing code rather than asking them to paste it".

Definition codeUnawareInstructions : gostring :=
  str "
- The user hasn't written any code yet, or I can't see their current code
- If they ask about their code, let them know I can automatically see their code in the editor, but if they prefer, they can paste it here".

(** [hintTypes[hintLevel]]: a level that is no key of the map gives the
    empty string. *)
Definition hintTypes (hintLevel : Z) : gostring :=
  if hintLevel =? 1 then str "a subtle nudge in the right direction"
  else if hintLevel =? 2 then str "a more direct hint about the approach"
  else if hintLevel =? 3 then str "a specific suggestion about implementation"
  else if hintLevel =? 4 then str "a detailed explanation with partial code example"
  else [].

(** The review returned when no API key is configured. *)
Definition no_key_review : AICodeReview :=
  {| OverallScore := float64_of_Z 0;
     Issues := Some [];
     Suggestions := Some [];
     InterviewerFeedback :=
       "⚠️ AI features require an API key. Please add GEMINI_API_KEY to your .env file. Get your free key at: https://makersuite.google.com/app/apikey";
     FollowUpQuestions := Some [str "Would you like to set up AI code review?"];
     Complexity :=
       ComplexityAnalysis.mk "N/A" "N/A" false "Set up your API key first";
     ReadabilityScore := float64_of_Z 0;
     TestCoverage := "API key required for AI analysis" |}.

(** The review returned when the call of the provider fails with [err]. *)
Definition unavailable_review (err : gostring) : AICodeReview :=
  {| OverallScore := float64_of_Z 0;
     Issues := Some [];
     Suggestions := Some [];
     InterviewerFeedback :=
       str "❌ AI service temporarily unavailable: " ++ err
       ++ str ". Please try again later.";
     FollowUpQuestions := Some [str "Would you like to try again?"];
     Complexity :=
       ComplexityAnalysis.mk "N/A" "N/A" false "API service temporarily unavailable";
     ReadabilityScore := float64_of_Z 0;
     TestCoverage := "AI service unavailable" |}.

Definition no_key_message : gostring :=
  "⚠️ AI features require an API key. Get your free key at: https://makersuite.google.com/app/apikey".

Section Service.

(** [models.Challenge], of which the service reads the title only. *)
Variable Challenge : Type.
Variable Challenge_Title : Challenge -> gostring.

Variable unicode_LowerCase : Z -> Z.

(** The environment of the process: [os.Getenv], empty for a variable
    that is not set. *)
Variable os_Getenv : gostring -> gostring.

(** [getCurrentTimestamp()]: the time of the call in RFC 3339. *)
Variable getCurrentTimestamp : gostring.

(** The three HTTP calls, one per provider: the text of the reply, or an
    error with its message. *)
Variable callGeminiWithOpts : AIService.t -> gostring -> bool -> gostring * error.
Variable callOpenAIWithOpts : AIService.t -> gostring -> bool -> gostring * error.
Variable callClaudeWithOpts : AIService.t -> gostring -> bool -> gostring * error.

Variable json_Unmarshal_AICodeReview : gostring -> option AICodeReview.
Variable json_Unmarshal_strings : gostring -> option (slice gostring).

(** *** Configuration from the environment *)

Definition getProviderFromEnv : LLMProvider :=
  let provider := strings_ToLower unicode_LowerCase (os_Getenv "AI_PROVIDER") in
  if gostring_eqb provider "gemini" then ProviderGemini
  else if gostring_eqb provider "openai" then ProviderOpenAI
  else if gostring_eqb provider "claude" then ProviderClaude
  else ProviderGemini.

Definition getAPIKeyFromEnvFor (provider : LLMProvider) : gostring :=
  let generic := os_Getenv "AI_API_KEY" in
  if gostring_eqb provider ProviderGemini then
    let key := os_Getenv "GEMINI_API_KEY" in
    if negb (gostring_eqb key "") then key else generic
  else if gostring_eqb provider ProviderOpenAI then
    let key := os_Getenv "OPENAI_API_KEY" in
    if negb (gostring_eqb key "") then key else generic
  else if gostring_eqb provider ProviderClaude then
    let key := os_Getenv "CLAUDE_API_KEY" in
    if negb (gostring_eqb key "") then key else generic
  else generic.

Definition getModelFromEnv : gostring := os_Getenv "AI_MODEL".

(** [NewAIService] creates a new AI service with the specified
    provider. *)
Definition NewAIService : AIService.t :=
  let cfgProvider := getProviderFromEnv in
  let apiKey := getAPIKeyFromEnvFor cfgProvider in
  let model := getModelFromEnv in
  let maxTokens := 4000 in
  let temperature := float64_of_decimal 3 (-1) in
  let default_model (d : gostring) := if gostring_eqb model "" then d else model in
  let config :=
    if gostring_eqb cfgProvider ProviderGemini then
      LLMConfig.mk cfgProvider apiKey (default_model "gemini-2.5-flash")
        "https://generativelanguage.googleapis.com/v1beta/models"
        maxTokens temperature
    else if gostring_eqb cfgProvider ProviderOpenAI then
      LLMConfig.mk cfgProvider apiKey (default_model "gpt-4o-mini")
        "https://api.openai.com/v1/chat/completions" maxTokens temperature
    else if gostring_eqb cfgProvider ProviderClaude then
      LLMConfig.mk cfgProvider apiKey (default_model "claude-3-sonnet-20240229")
        "https://api.anthropic.com/v1/messages" maxTokens temperature
    else
      LLMConfig.mk ProviderGemini apiKey (default_model "gemini-2.5-flash")
        "https://generativelanguage.googleapis.com/v1beta/models"
        maxTokens temperature in
  AIService.mk config (30 * 1000000000).

(** *** Prompts *)

(** [buildCodeReviewPrompt] creates the prompt for code review. *)
Definition buildCodeReviewPrompt (code : gostring) (challenge : option Challenge)
    (context : gostring) : outcome gostring :=
  c <~ deref challenge ;;
  Done (codeReviewPrompt_0 ++ Challenge_Title c ++ codeReviewPrompt_1 ++ context
        ++ codeReviewPrompt_2 ++ code ++ codeReviewPrompt_3).

(** [buildQuestionPrompt] creates the prompt for generating interview
    questions. *)
Definition buildQuestionPrompt (code : gostring) (challenge : option Challenge)
    (userProgress : gostring) : outcome gostring :=
  c <~ deref challenge ;;
  Done (questionPrompt_0 ++ Challenge_Title c ++ questionPrompt_1 ++ userProgress
        ++ questionPrompt_2 ++ code ++ questionPrompt_3).

(** [buildHintPrompt] creates the prompt for generating hints. *)
Definition buildHintPrompt (code : gostring) (challenge : option Challenge)
    (hintLevel : Z) (context : gostring) : outcome gostring :=
  c <~ deref challenge ;;
  let challengeInfo := Challenge_Title c in
  let challengeInfo :=
    if negb (gostring_eqb context "") then context else challengeInfo in
  Done (hintPrompt_0 ++ challengeInfo ++ hintPrompt_1 ++ code ++ hintPrompt_2
        ++ hintTypes hintLevel ++ hintPrompt_3 ++ strconv.FormatInt hintLevel
        ++ hintPrompt_4).

(** One line of the conversation history. *)
Definition history_line (msg : ChatMessage.t) : gostring :=
  let role :=
    if gostring_eqb (ChatMessage.Role msg) "assistant"
    then str "Mentor" else str "User" in
  role ++ str ": " ++ ChatMessage.Content msg ++ [x0a].

(** [buildChatPrompt] creates the prompt for chat conversations. *)
Definition buildChatPrompt (userMessage : gostring) (challenge : option Challenge)
    (conversationHistory : slice ChatMessage.t) (codeContext : gostring)
  : outcome gostring :=
  let challengeContext :=
    match challenge with
    | Some c => str "Current Challenge: " ++ Challenge_Title c
    | None => []
    end in
  let hasCode :=
    negb (gostring_eqb codeContext "")
    && negb (gostring_eqb (strings.TrimSpace codeContext) "") in
  let codeContextStr :=
    if hasCode
    then str "
User's Current Code:
```go
" ++ codeContext ++ str "
```"
    else [] in
  historyStr <~
    (if 0 <? len (elements conversationHistory) then
       let start :=
         if 5 <? len (elements conversationHistory)
         then len (elements conversationHistory) - 5 else 0 in
       recent <~ subslice (elements conversationHistory) start
                   (len (elements conversationHistory)) ;;
       Done (fold_left (fun historyStr msg => historyStr ++ history_line msg)
               recent (str "
Conversation History:
"))
     else Done []) ;;
  let codeAwarenessInstructions :=
    if hasCode then codeAwareInstructions else codeUnawareInstructions in
  Done (chatPrompt_0 ++ challengeContext ++ chatPrompt_1 ++ codeContextStr
        ++ chatPrompt_2 ++ historyStr ++ chatPrompt_3 ++ userMessage
        ++ chatPrompt_4 ++ codeAwarenessInstructions ++ chatPrompt_5).

(** [generateFollowUpSuggestions] creates contextual follow-up
    suggestions. *)
Definition generateFollowUpSuggestions (userMessage aiResponse : gostring)
    (challenge : option Challenge) : outcome (slice gostring) :=
  let suggestions : slice gostring := Some [] in
  let userLower := strings_ToLower unicode_LowerCase userMessage in
  let suggestions :=
    if strings_Contains userLower "explain" || strings_Contains userLower "what"
    then append (append suggestions (str "Can you show me an example?"))
           (str "How would I implement this?")
    else suggestions in
  let suggestions :=
    if strings_Contains userLower "error" || strings_Contains userLower "problem"
    then append (append suggestions (str "How can I debug this?"))
           (str "What's the best practice here?")
    else suggestions in
  let suggestions :=
    if strings_Contains userLower "optimize"
       || strings_Contains userLower "performance"
    then append (append suggestions (str "What's the time complexity?"))
           (str "Are there other approaches?")
    else suggestions in
  let suggestions :=
    if len (elements suggestions) =? 0
    then Some [str "Can you explain this more?";
               str "Show me best practices";
               str "Help with the current challenge"]
    else suggestions in
  if 3 <? len (elements suggestions)
  then first3 <~ subslice (elements suggestions) 0 3 ;; Done (Some first3)
  else Done suggestions.

(** [getContextDescription] provides a human-readable context
    description. *)
Definition getContextDescription (challenge : option Challenge) : gostring :=
  match challenge with
  | None => str "General Go programming discussion"
  | Some c => str "Working on: " ++ Challenge_Title c
  end.

(** *** Calling the provider *)

(** [callLLMWithOpts] allows specifying whether JSON output is expected. *)
Definition callLLMWithOpts (ai : AIService.t) (prompt : gostring) (expectJSON : bool)
  : gostring * error :=
  let provider := LLMConfig.Provider (AIService.config ai) in
  if gostring_eqb provider ProviderGemini then callGeminiWithOpts ai prompt expectJSON
  else if gostring_eqb provider ProviderOpenAI then callOpenAIWithOpts ai prompt expectJSON
  else if gostring_eqb provider ProviderClaude then callClaudeWithOpts ai prompt expectJSON
  else ([], Some (str "unsupported provider: " ++ provider)).

(** [callLLM] makes a request to the configured LLM provider. *)
Definition callLLM (ai : AIService.t) (prompt : gostring) : gostring * error :=
  callLLMWithOpts ai prompt false.

(** [CallLLMRaw] calls the LLM and returns the raw response. *)
Definition CallLLMRaw (ai : AIService.t) (prompt : gostring) : gostring * error :=
  callLLMWithOpts ai prompt true.

(** [BuildCodeReviewPrompt] exposes the prompt builder. *)
Definition BuildCodeReviewPrompt (ai : AIService.t) (code : gostring)
    (challenge : option Challenge) (context : gostring) : outcome gostring :=
  buildCodeReviewPrompt code challenge context.

(** *** The four requests *)

(** [ReviewCode] performs AI-powered code review. *)
Definition ReviewCode (ai : AIService.t) (code : gostring)
    (challenge : option Challenge) (context : gostring)
  : outcome (AICodeReview * error) :=
  if gostring_eqb (LLMConfig.APIKey (AIService.config ai)) "" then
    Done (no_key_review, None)
  else
    prompt <~ buildCodeReviewPrompt code challenge context ;;
    match callLLMWithOpts ai prompt true with
    | (_, Some err) => Done (unavailable_review err, None)
    | (response, None) =>
      parsed <~ of_result (parseAIResponse json_Unmarshal_AICodeReview response) ;;
      match parsed with
      | (_, Some _) =>
        review <~ of_result (createFallbackReview "Unexpected parsing error" response) ;;
        Done (review, None)
      | (review, None) => Done (review, None)
      end
    end.

(** [GetInterviewerQuestions] generates follow-up questions based on
    code. *)
Definition GetInterviewerQuestions (ai : AIService.t) (code : gostring)
    (challenge : option Challenge) (userProgress : gostring)
  : outcome (slice gostring * error) :=
  if gostring_eqb (LLMConfig.APIKey (AIService.config ai)) "" then
    Done (Some [no_key_message], None)
  else
    prompt <~ buildQuestionPrompt code challenge userProgress ;;
    match callLLMWithOpts ai prompt true with
    | (_, Some err) => Done (Some [str "❌ AI service unavailable: " ++ err], None)
    | (response, None) =>
      questions <~ of_result (parseQuestions json_Unmarshal_strings response) ;;
      Done (questions, None)
    end.

(** [GetCodeHint] provides context-aware hints. *)
Definition GetCodeHint (ai : AIService.t) (code : gostring)
    (challenge : option Challenge) (hintLevel : Z) (context : gostring)
  : outcome (gostring * error) :=
  if gostring_eqb (LLMConfig.APIKey (AIService.config ai)) "" then
    Done (no_key_message, None)
  else
    prompt <~ buildHintPrompt code challenge hintLevel context ;;
    match callLLMWithOpts ai prompt false with
    | (_, Some err) => Done (str "❌ AI service unavailable: " ++ err, None)
    | (response, None) => Done (parseHint response, None)
    end.

(** [ChatWithMentor] handles conversational chat with the AI mentor. *)
Definition ChatWithMentor (ai : AIService.t) (userMessage : gostring)
    (challenge : option Challenge) (conversationHistory : slice ChatMessage.t)
    (codeContext : gostring) : outcome (ChatResponse.t * error) :=
  if gostring_eqb (LLMConfig.APIKey (AIService.config ai)) "" then
    Done (ChatResponse.mk
            "⚠️ AI chat requires an API key. Get your free key at: https://makersuite.google.com/app/apikey"
            false "API key not configured" getCurrentTimestamp [] None, None)
  else
    prompt <~ buildChatPrompt userMessage challenge conversationHistory codeContext ;;
    match callLLMWithOpts ai prompt false with
    | (_, Some err) =>
      Done (ChatResponse.mk
              "❌ I'm having trouble connecting right now. Please try again in a moment."
              false err getCurrentTimestamp [] None, None)
    | (response, None) =>
      let parsedResponse := parseChatResponse response in
      suggestions <~ generateFollowUpSuggestions userMessage parsedResponse challenge ;;
      Done (ChatResponse.mk parsedResponse true [] getCurrentTimestamp
              (getContextDescription challenge) suggestions, None)
    end.

End Service.

Arguments buildCodeReviewPrompt {Challenge}.
Arguments buildQuestionPrompt {Challenge}.
Arguments buildHintPrompt {Challenge}.
Arguments buildChatPrompt {Challenge}.
Arguments generateFollowUpSuggestions {Challenge}.
Arguments getContextDescription {Challenge}.
Arguments BuildCodeReviewPrompt {Challenge}.
Arguments ReviewCode {Challenge}.
Arguments GetInterviewerQuestions {Challenge}.
Arguments GetCodeHint {Challenge}.
Arguments ChatWithMentor {Challenge}.

(** ** A sample deployment *)

(** An environment that selects OpenAI, written in capitals, with its
    key, and that holds a key of another provider as well. *)
Definition sample_env (name : gostring) : gostring :=
  if gostring_eqb name "AI_PROVIDER" then str "OpenAI"
  else if gostring_eqb name "OPENAI_API_KEY" then str "sk-sample"
  else if gostring_eqb name "GEMINI_API_KEY" then str "other"
  else [].

(** The same without the key of the other provider. *)
Definition sample_env_one_key (name : gostring) : gostring :=
  if gostring_eqb name "AI_PROVIDER" then str "OpenAI"
  else if gostring_eqb name "OPENAI_API_KEY" then str "sk-sample"
  else [].

Definition sample_service : AIService.t :=
  NewAIService (fun r => r) sample_env.

(** A provider that answers every prompt with the same reply, and one
    that fails. *)
Definition answers (reply : gostring)
    (ai : AIService.t) (prompt : gostring) (expectJSON : bool) : gostring * error :=
  (reply, None).

Definition fails (message : gostring)
    (ai : AIService.t) (prompt : gostring) (expectJSON : bool) : gostring * error :=
  ([], Some message).

Definition sample_title (challenge : gostring) : gostring := challenge.

(** * Properties *)

(** ** Bytes and strings *)

Lemma byte_eqb_eq (a b : byte) : Byte.eqb a b = true <-> a = b.
Proof.
  split.
  - intro H. apply Byte.byte_dec_bl. exact H.
  - intros ->. apply Byte.byte_dec_lb. reflexivity.
Qed.

Lemma gostring_eqb_eq (a b : gostring) : gostring_eqb a b = true <-> a = b.
Proof.
  revert b. induction a as [|x a IH]; intros [|y b]; simpl; split;
    try discriminate; try reflexivity.
  - intro H. apply andb_true_iff in H as [Hx Hab].
    apply byte_eqb_eq in Hx. apply IH in Hab. now subst.
  - intro H. injection H as -> ->.
    apply andb_true_iff. split; [now apply byte_eqb_eq | now apply IH].
Qed.

Lemma gostring_eqb_nil (a : gostring) : gostring_eqb a [] = gostring_is_empty a.
Proof. now destruct a. Qed.

Lemma len_nonneg {A : Type} (s : list A) : 0 <= len s.
Proof. unfold len. lia. Qed.

Lemma len_app {A : Type} (a b : list A) : len (a ++ b) = len a + len b.
Proof. unfold len. rewrite length_app. lia. Qed.

Lemma HasPrefix_app (p r : gostring) : strings.HasPrefix (p ++ r) p = true.
Proof.
  induction p as [|c p IH]; simpl; [reflexivity|].
  rewrite IH. now rewrite (proj2 (byte_eqb_eq c c) eq_refl).
Qed.

Lemma HasPrefix_true (s p : gostring) :
  strings.HasPrefix s p = true -> s = p ++ skipn (length p) s.
Proof.
  revert s. induction p as [|c p IH]; intros s H; simpl in *; [reflexivity|].
  destruct s as [|x s]; [discriminate|].
  apply andb_true_iff in H as [Hx Hp]. apply byte_eqb_eq in Hx. subst x.
  simpl. f_equal. now apply IH.
Qed.

Lemma HasPrefix_first (s p : gostring) (b c : byte) :
  b <> c -> strings.HasPrefix (b :: s) (c :: p) = false.
Proof.
  intro Hne. simpl. destruct (Byte.eqb b c) eqn:E; [|reflexivity].
  apply byte_eqb_eq in E. contradiction.
Qed.

Lemma TrimPrefix_app (p r : gostring) : strings.TrimPrefix (p ++ r) p = r.
Proof.
  unfold strings.TrimPrefix. rewrite HasPrefix_app.
  now rewrite skipn_app, skipn_all, Nat.sub_diag.
Qed.

Lemma TrimPrefix_first (s p : gostring) (b c : byte) :
  b <> c -> strings.TrimPrefix (b :: s) (c :: p) = b :: s.
Proof.
  intro Hne. unfold strings.TrimPrefix. now rewrite HasPrefix_first.
Qed.

Lemma HasSuffix_app (r p : gostring) : strings.HasSuffix (r ++ p) p = true.
Proof.
  unfold strings.HasSuffix. rewrite length_app.
  apply andb_true_iff. split.
  - apply Nat.leb_le. lia.
  - replace (length r + length p - length p)%nat with (length r + 0)%nat by lia.
    rewrite skipn_app, skipn_all2 by lia.
    replace (length r + 0 - length r)%nat with 0%nat by lia.
    simpl. now apply gostring_eqb_eq.
Qed.

Lemma HasSuffix_true (s p : gostring) :
  strings.HasSuffix s p = true -> s = firstn (length s - length p) s ++ p.
Proof.
  unfold strings.HasSuffix. intro H.
  apply andb_true_iff in H as [_ H]. apply gostring_eqb_eq in H.
  pose proof (firstn_skipn (length s - length p) s) as E.
  rewrite H in E. now symmetry.
Qed.

Lemma TrimSuffix_app (r p : gostring) : strings.TrimSuffix (r ++ p) p = r.
Proof.
  unfold strings.TrimSuffix. rewrite HasSuffix_app, length_app.
  replace (length r + length p - length p)%nat with (length r + 0)%nat by lia.
  rewrite firstn_app_2. simpl. apply app_nil_r.
Qed.

(** A string that ends with another ends with its last byte. *)
Lemma HasSuffix_last (s p : gostring) (b c : byte) :
  b <> c -> strings.HasSuffix (s ++ [b]) (p ++ [c]) = false.
Proof.
  intro Hne. destruct (strings.HasSuffix (s ++ [b]) (p ++ [c])) eqn:E; [|reflexivity].
  apply HasSuffix_true in E.
  rewrite app_assoc in E. apply app_inj_tail in E as [_ E]. contradiction.
Qed.

Lemma TrimSuffix_last (s p : gostring) (b c : byte) :
  b <> c -> strings.TrimSuffix (s ++ [b]) (p ++ [c]) = s ++ [b].
Proof.
  intro Hne. unfold strings.TrimSuffix. now rewrite HasSuffix_last.
Qed.

Lemma HasSuffix_nil_false (p : gostring) (c : byte) :
  strings.HasSuffix [] (p ++ [c]) = false.
Proof.
  unfold strings.HasSuffix. rewrite length_app. simpl.
  replace (length p + 1)%nat with (S (length p)) by lia. reflexivity.
Qed.

(** What trimming a prefix or a suffix leaves is a part of the string. *)
Lemma TrimPrefix_incl (s p : gostring) (b : byte) :
  In b (strings.TrimPrefix s p) -> In b s.
Proof.
  unfold strings.TrimPrefix. destruct (strings.HasPrefix s p); [|auto].
  intro H. rewrite <- (firstn_skipn (length p) s). apply in_or_app. now right.
Qed.

Lemma TrimSuffix_incl (s p : gostring) (b : byte) :
  In b (strings.TrimSuffix s p) -> In b s.
Proof.
  unfold strings.TrimSuffix. destruct (strings.HasSuffix s p); [|auto].
  intro H. rewrite <- (firstn_skipn (length s - length p) s).
  apply in_or_app. now left.
Qed.

(** *** Index and LastIndex of a single byte *)

Lemma index_from_absent (i : Z) (s : gostring) (b : byte) :
  ~ In b s -> strings.index_from i s [b] = -1.
Proof.
  revert i. induction s as [|x s IH]; intros i Hn; simpl; [reflexivity|].
  destruct (Byte.eqb x b) eqn:E.
  - apply byte_eqb_eq in E. subst. exfalso. apply Hn. now left.
  - simpl. apply IH. intro H. apply Hn. now right.
Qed.

Lemma index_from_found (i : Z) (pre post : gostring) (b : byte) :
  ~ In b pre -> strings.index_from i (pre ++ b :: post) [b] = i + len pre.
Proof.
  revert i. induction pre as [|x pre IH]; intros i Hn; simpl.
  - rewrite (proj2 (byte_eqb_eq b b) eq_refl). simpl. unfold len. simpl. lia.
  - destruct (Byte.eqb x b) eqn:E.
    + apply byte_eqb_eq in E. subst. exfalso. apply Hn. now left.
    + simpl. rewrite IH by (intro H; apply Hn; now right).
      unfold len. simpl length. lia.
Qed.

Lemma last_index_from_absent (i f : Z) (s : gostring) (b : byte) :
  ~ In b s -> strings.last_index_from i s [b] f = f.
Proof.
  revert i f. induction s as [|x s IH]; intros i f Hn; simpl; [reflexivity|].
  destruct (Byte.eqb x b) eqn:E.
  - apply byte_eqb_eq in E. subst. exfalso. apply Hn. now left.
  - simpl. apply IH. intro H. apply Hn. now right.
Qed.

Lemma last_index_from_found (i f : Z) (pre post : gostring) (b : byte) :
  ~ In b post -> strings.last_index_from i (pre ++ b :: post) [b] f = i + len pre.
Proof.
  revert i f. induction pre as [|x pre IH]; intros i f Hn.
  - simpl. rewrite (proj2 (byte_eqb_eq b b) eq_refl). simpl.
    rewrite last_index_from_absent by assumption. unfold len. simpl. lia.
  - change ((x :: pre) ++ b :: post) with (x :: (pre ++ b :: post)).
    cbn [strings.last_index_from]. rewrite IH by assumption.
    unfold len. simpl length. lia.
Qed.

Lemma Index_absent (s : gostring) (b : byte) :
  ~ In b s -> strings.Index s [b] = -1.
Proof. apply index_from_absent. Qed.

Lemma Index_found (pre post : gostring) (b : byte) :
  ~ In b pre -> strings.Index (pre ++ b :: post) [b] = len pre.
Proof. intro H. unfold strings.Index. now rewrite index_from_found. Qed.

Lemma LastIndex_absent (s : gostring) (b : byte) :
  ~ In b s -> strings.LastIndex s [b] = -1.
Proof. apply last_index_from_absent. Qed.

Lemma LastIndex_found (pre post : gostring) (b : byte) :
  ~ In b post -> strings.LastIndex (pre ++ b :: post) [b] = len pre.
Proof. intro H. unfold strings.LastIndex. now rewrite last_index_from_found. Qed.

(** The first and the last occurrence of a byte that occurs. *)
Lemma in_split_first (b : byte) (s : gostring) :
  In b s -> exists pre post, s = pre ++ b :: post /\ ~ In b pre.
Proof.
  induction s as [|x s IH]; [contradiction|].
  intro H. destruct (Byte.byte_eq_dec x b) as [->|Hne].
  - exists [], s. split; [reflexivity | intros []].
  - destruct H as [->|H]; [contradiction|].
    destruct (IH H) as (pre & post & -> & Hpre).
    exists (x :: pre), post. split; [reflexivity|].
    intros [E|E]; [contradiction | now apply Hpre].
Qed.

Lemma in_split_last (b : byte) (s : gostring) :
  In b s -> exists pre post, s = pre ++ b :: post /\ ~ In b post.
Proof.
  intro H. apply in_rev in H. apply in_split_first in H as (p & q & E & Hp).
  exists (rev q), (rev p). split.
  - rewrite <- (rev_involutive s), E, rev_app_distr. simpl.
    now rewrite <- app_assoc.
  - intro Hin. apply Hp. now apply in_rev in Hin.
Qed.

Lemma Index_range (s : gostring) (b : byte) :
  strings.Index s [b] = -1 /\ ~ In b s
  \/ 0 <= strings.Index s [b] < len s /\ In b s.
Proof.
  destruct (in_dec Byte.byte_eq_dec b s) as [Hin|Hn].
  - right. split; [|assumption].
    destruct (in_split_first b s Hin) as (pre & post & -> & Hpre).
    rewrite Index_found by assumption.
    unfold len. rewrite length_app. simpl length. lia.
  - left. split; [now apply Index_absent | assumption].
Qed.

Lemma LastIndex_range (s : gostring) (b : byte) :
  strings.LastIndex s [b] = -1 /\ ~ In b s
  \/ 0 <= strings.LastIndex s [b] < len s /\ In b s.
Proof.
  destruct (in_dec Byte.byte_eq_dec b s) as [Hin|Hn].
  - right. split; [|assumption].
    destruct (in_split_last b s Hin) as (pre & post & -> & Hpost).
    rewrite LastIndex_found by assumption.
    unfold len. rewrite length_app. simpl length. lia.
  - left. split; [now apply LastIndex_absent | assumption].
Qed.

(** ** White space *)

Lemma is_space2_inv (b1 b2 : byte) :
  unicode.is_space2 b1 b2 = true -> b1 = xc2 /\ (b2 = x85 \/ b2 = xa0).
Proof.
  unfold unicode.is_space2. rewrite andb_true_iff, orb_true_iff.
  rewrite !byte_eqb_eq. tauto.
Qed.

Lemma is_space3_inv (b1 b2 b3 : byte) :
  unicode.is_space3 b1 b2 b3 = true ->
  (b1 = xe1 \/ b1 = xe2 \/ b1 = xe3)
  /\ (b2 = x9a \/ b2 = x80 \/ b2 = x81)
  /\ space_trail b3 = true /\ unicode.is_ascii_space b3 = false.
Proof.
  unfold unicode.is_space3. intro H.
  repeat (apply orb_true_iff in H as [H|H]);
    repeat (apply andb_true_iff in H as [H ?]);
    repeat match goal with
           | E : Byte.eqb _ _ = true |- _ => apply byte_eqb_eq in E; subst
           end;
    try (repeat split; auto; reflexivity).
  assert (utf8.in_range x80 x8a b3 = true \/ b3 = xa8 \/ b3 = xa9 \/ b3 = xaf)
    as [R | [-> | [-> | ->]]];
    try (repeat split; auto; reflexivity).
  { repeat match goal with
           | E : (_ || _) = true |- _ => apply orb_true_iff in E as [E|E]
           end;
      try (apply byte_eqb_eq in H0; subst); auto.
    all: match goal with
         | E : Byte.eqb _ _ = true |- _ => apply byte_eqb_eq in E; subst; auto
         | _ => idtac
         end. }
  repeat split; auto.
  - unfold space_trail. rewrite R. now rewrite !orb_true_r.
  - destruct b3; try discriminate R; reflexivity.
Qed.

Lemma space_lead_ascii (b : byte) :
  unicode.is_ascii_space b = true -> space_lead b = true.
Proof. unfold space_lead. now intros ->. Qed.

Lemma spaces_lead (b : byte) (w : gostring) :
  spaces (b :: w) -> space_lead b = true.
Proof.
  intro H. inversion H as [|? ? Ha|? ? ? H2|? ? ? ? H3]; subst.
  - now apply space_lead_ascii.
  - apply is_space2_inv in H2 as [-> _]. reflexivity.
  - apply is_space3_inv in H3 as ([-> | [-> | ->]] & _); reflexivity.
Qed.

(** A byte that can begin a white-space rune is neither the second nor
    the third byte of one. *)
Lemma lead_not_second2 (a c : byte) :
  space_lead c = true -> unicode.is_space2 a c = false.
Proof.
  intro H. destruct (unicode.is_space2 a c) eqn:E; [|reflexivity].
  apply is_space2_inv in E as [_ [-> | ->]]; discriminate H.
Qed.

Lemma lead_not_second3 (a c x : byte) :
  space_lead c = true -> unicode.is_space3 a c x = false.
Proof.
  intro H. destruct (unicode.is_space3 a c x) eqn:E; [|reflexivity].
  apply is_space3_inv in E as (_ & [-> | [-> | ->]] & _); discriminate H.
Qed.

Lemma lead_not_third3 (a a2 c : byte) :
  space_lead c = true -> unicode.is_space3 a a2 c = false.
Proof.
  intro H. destruct (unicode.is_space3 a a2 c) eqn:E; [|reflexivity].
  apply is_space3_inv in E as (_ & _ & Ht & Ha).
  unfold space_lead in H. rewrite Ha in H. simpl in H.
  destruct c; try discriminate H; discriminate Ht.
Qed.

Lemma spaces_app (u w : gostring) : spaces u -> spaces w -> spaces (u ++ w).
Proof.
  intros Hu Hw. induction Hu; simpl; auto using spaces.
Qed.

Lemma spaces_bytes (w : gostring) (b : byte) :
  spaces w -> In b w -> space_byte b = true.
Proof.
  intro Hw. induction Hw as [|c w Hc _ IH|c1 c2 w H2 _ IH|c1 c2 c3 w H3 _ IH].
  - intros [].
  - intros [->|H]; [|now apply IH].
    unfold space_byte, space_lead. now rewrite Hc.
  - apply is_space2_inv in H2 as [-> H2].
    intros [<-|[<-|H]]; [reflexivity| |now apply IH].
    destruct H2 as [-> | ->]; reflexivity.
  - apply is_space3_inv in H3 as (H1 & H2 & H3 & _).
    intros [<-|[<-|[<-|H]]]; [| | |now apply IH].
    + destruct H1 as [-> | [-> | ->]]; reflexivity.
    + destruct H2 as [-> | [-> | ->]]; reflexivity.
    + unfold space_byte. rewrite H3. now rewrite orb_true_r.
Qed.

(** Braces and backticks never belong to white space. *)
Lemma spaces_no_byte (b : byte) (w : gostring) :
  space_byte b = false -> spaces w -> ~ In b w.
Proof.
  intros Hb Hw Hin. apply (spaces_bytes w b Hw) in Hin. congruence.
Qed.

(** *** Trimming on the left *)

Lemma TrimLeftSpace_spaces_app (w x : gostring) :
  spaces w -> strings.TrimLeftSpace (w ++ x) = strings.TrimLeftSpace x.
Proof.
  induction 1 as [|b w Hb _ IH|b1 b2 w H2 _ IH|b1 b2 b3 w H3 _ IH].
  - reflexivity.
  - simpl app. rewrite strings.TrimLeftSpace_equation, Hb. exact IH.
  - simpl app. rewrite strings.TrimLeftSpace_equation, H2.
    apply is_space2_inv in H2 as [-> _]. exact IH.
  - simpl app. rewrite strings.TrimLeftSpace_equation, H3.
    destruct (is_space3_inv _ _ _ H3) as (Hl & Hm & _).
    assert (unicode.is_ascii_space b1 = false) as ->
      by (destruct Hl as [-> | [-> | ->]]; reflexivity).
    assert (unicode.is_space2 b1 b2 = false) as ->
      by (destruct Hl as [-> | [-> | ->]]; reflexivity).
    exact IH.
Qed.

Lemma TrimLeftSpace_spaces (w : gostring) : spaces w -> strings.TrimLeftSpace w = [].
Proof.
  intro H. rewrite <- (app_nil_r w). now rewrite TrimLeftSpace_spaces_app.
Qed.

Lemma TrimLeftSpace_split (s : gostring) :
  exists w, spaces w /\ s = w ++ strings.TrimLeftSpace s.
Proof.
  functional induction (strings.TrimLeftSpace s);
    try (exists []; split; [constructor | reflexivity]);
    match goal with
    | IH : exists _, _ |- _ => destruct IH as (w & Hw & E)
    end.
  - exists (b1 :: w). split; [now constructor|].
    simpl. now rewrite <- E.
  - exists (b1 :: b2 :: w). split; [now constructor|].
    simpl. now rewrite <- E.
  - exists (b1 :: b2 :: b3 :: w). split; [now constructor|].
    simpl. now rewrite <- E.
Qed.

(** A string that starts with a byte no white-space rune starts with is
    left as it is. *)
Lemma TrimLeftSpace_lead (b : byte) (r : gostring) :
  space_lead b = false -> strings.TrimLeftSpace (b :: r) = b :: r.
Proof.
  intro H. rewrite strings.TrimLeftSpace_equation.
  destruct (unicode.is_ascii_space b) eqn:Ea.
  { apply space_lead_ascii in Ea. congruence. }
  destruct r as [|b2 r2]; [reflexivity|].
  destruct (unicode.is_space2 b b2) eqn:E2.
  { apply is_space2_inv in E2 as [-> _]. discriminate H. }
  destruct r2 as [|b3 r3]; [reflexivity|].
  destruct (unicode.is_space3 b b2 b3) eqn:E3; [|reflexivity].
  apply is_space3_inv in E3 as ([-> | [-> | ->]] & _); discriminate H.
Qed.

Lemma TrimLeftSpace_length (s : gostring) :
  (length (strings.TrimLeftSpace s) <= length s)%nat.
Proof.
  destruct (TrimLeftSpace_split s) as (w & _ & E).
  rewrite E at 2. rewrite length_app. lia.
Qed.

(** White space after a trimmed, non-empty string does not make its
    start a white-space rune. *)
Lemma TrimLeftSpace_fixed_app (y w : gostring) :
  y <> [] -> strings.TrimLeftSpace y = y -> spaces w ->
  strings.TrimLeftSpace (y ++ w) = y ++ w.
Proof.
  intros Hne Hy Hw.
  destruct w as [|c w']; [now rewrite app_nil_r|].
  pose proof (spaces_lead _ _ Hw) as Hc.
  assert (shorter : forall r x, strings.TrimLeftSpace r = x ->
                                (length r < length x)%nat -> False).
  { intros r x E L. pose proof (TrimLeftSpace_length r). rewrite E in *. lia. }
  destruct y as [|a [|a2 [|a3 y3]]]; [contradiction| | |];
    rewrite strings.TrimLeftSpace_equation in Hy;
    simpl app; rewrite strings.TrimLeftSpace_equation;
    destruct (unicode.is_ascii_space a);
    try (exfalso; apply (shorter _ _ Hy); simpl; lia).
  - rewrite (lead_not_second2 a c Hc).
    destruct w' as [|c2 w2]; [reflexivity|].
    now rewrite (lead_not_second3 a c c2 Hc).
  - destruct (unicode.is_space2 a a2);
      try (exfalso; apply (shorter _ _ Hy); simpl; lia).
    now rewrite (lead_not_third3 a a2 c Hc).
  - destruct (unicode.is_space2 a a2);
      try (exfalso; apply (shorter _ _ Hy); simpl; lia).
    destruct (unicode.is_space3 a a2 a3); [|reflexivity].
    exfalso; apply (shorter _ _ Hy); simpl; lia.
Qed.

Lemma TrimLeftSpace_idem (s : gostring) :
  strings.TrimLeftSpace (strings.TrimLeftSpace s) = strings.TrimLeftSpace s.
Proof.
  functional induction (strings.TrimLeftSpace s); auto;
    rewrite strings.TrimLeftSpace_equation;
    repeat match goal with
           | E : _ = false |- _ => rewrite E; clear E
           end;
    reflexivity.
Qed.

(** *** Trimming on the right *)

Lemma trim_left_space_rev_app (w z : gostring) :
  spaces w ->
  strings.trim_left_space_rev (rev w ++ z) = strings.trim_left_space_rev z.
Proof.
  intro Hw. revert z.
  induction Hw as [|b w Hb _ IH|b1 b2 w H2 _ IH|b1 b2 b3 w H3 _ IH]; intro z.
  - reflexivity.
  - simpl rev. rewrite <- app_assoc, IH. simpl app.
    now rewrite strings.trim_left_space_rev_equation, Hb.
  - simpl rev. rewrite <- !app_assoc, IH. simpl app.
    rewrite strings.trim_left_space_rev_equation, H2.
    apply is_space2_inv in H2 as [_ [-> | ->]]; reflexivity.
  - simpl rev. rewrite <- !app_assoc, IH. simpl app.
    rewrite strings.trim_left_space_rev_equation, H3.
    destruct (is_space3_inv _ _ _ H3) as (_ & Hm & _ & ->).
    assert (unicode.is_space2 b2 b3 = false) as ->; [|reflexivity].
    destruct (unicode.is_space2 b2 b3) eqn:E; [|reflexivity].
    apply is_space2_inv in E as [-> _].
    destruct Hm as [Hm | [Hm | Hm]]; discriminate Hm.
Qed.

Lemma trim_left_space_rev_split (z : gostring) :
  exists w, spaces w /\ z = rev w ++ strings.trim_left_space_rev z.
Proof.
  functional induction (strings.trim_left_space_rev z);
    try (exists []; split; [constructor | reflexivity]);
    match goal with
    | IH : exists _, _ |- _ => destruct IH as (w & Hw & E)
    end.
  - exists (w ++ [b1]). split.
    + apply spaces_app; [assumption | now repeat constructor].
    + rewrite rev_app_distr. simpl. now rewrite <- E.
  - exists (w ++ [b2; b1]). split.
    + apply spaces_app; [assumption | now repeat constructor].
    + rewrite rev_app_distr. simpl. now rewrite <- E.
  - exists (w ++ [b3; b2; b1]). split.
    + apply spaces_app; [assumption | now repeat constructor].
    + rewrite rev_app_distr. simpl. now rewrite <- E.
Qed.

Lemma TrimRightSpace_spaces_app (x w : gostring) :
  spaces w -> strings.TrimRightSpace (x ++ w) = strings.TrimRightSpace x.
Proof.
  intro Hw. unfold strings.TrimRightSpace.
  now rewrite rev_app_distr, trim_left_space_rev_app.
Qed.

Lemma TrimRightSpace_split (s : gostring) :
  exists w, spaces w /\ s = strings.TrimRightSpace s ++ w.
Proof.
  destruct (trim_left_space_rev_split (rev s)) as (w & Hw & E).
  exists w. split; [assumption|].
  unfold strings.TrimRightSpace.
  rewrite <- (rev_involutive s) at 1. rewrite E at 1.
  now rewrite rev_app_distr, rev_involutive.
Qed.

(** A string that ends with a byte no white-space rune ends with is left
    as it is. *)
Lemma TrimRightSpace_trail (r : gostring) (b : byte) :
  space_trail b = false -> strings.TrimRightSpace (r ++ [b]) = r ++ [b].
Proof.
  intro H. unfold strings.TrimRightSpace.
  rewrite rev_app_distr. simpl app.
  assert (strings.trim_left_space_rev (b :: rev r) = b :: rev r) as ->.
  { rewrite strings.trim_left_space_rev_equation.
    destruct (unicode.is_ascii_space b) eqn:Ea.
    { unfold space_trail in H. now rewrite Ea in H. }
    destruct (rev r) as [|b2 r2]; [reflexivity|].
    destruct (unicode.is_space2 b2 b) eqn:E2.
    { apply is_space2_inv in E2 as [_ [-> | ->]]; discriminate H. }
    destruct r2 as [|b3 r3]; [reflexivity|].
    destruct (unicode.is_space3 b3 b2 b) eqn:E3; [|reflexivity].
    apply is_space3_inv in E3 as (_ & _ & E3 & _). congruence. }
  simpl. now rewrite rev_involutive.
Qed.

(** *** TrimSpace *)

Lemma TrimSpace_split (s : gostring) :
  exists w1 w2, spaces w1 /\ spaces w2 /\ s = w1 ++ strings.TrimSpace s ++ w2.
Proof.
  destruct (TrimLeftSpace_split s) as (w1 & H1 & E1).
  destruct (TrimRightSpace_split (strings.TrimLeftSpace s)) as (w2 & H2 & E2).
  exists w1, w2. unfold strings.TrimSpace. now rewrite <- E2.
Qed.

Lemma TrimSpace_incl (s : gostring) (b : byte) :
  In b (strings.TrimSpace s) -> In b s.
Proof.
  destruct (TrimSpace_split s) as (w1 & w2 & _ & _ & E).
  intro H. rewrite E. apply in_or_app. right. apply in_or_app. now left.
Qed.

(** White space around a string does not change what trimming leaves. *)
Lemma TrimSpace_spaces_around (w1 x w2 : gostring) :
  spaces w1 -> spaces w2 ->
  strings.TrimSpace (w1 ++ x ++ w2) = strings.TrimSpace x.
Proof.
  intros H1 H2. unfold strings.TrimSpace.
  rewrite TrimLeftSpace_spaces_app by assumption.
  destruct (TrimLeftSpace_split x) as (u & Hu & E).
  set (y := strings.TrimLeftSpace x) in *.
  rewrite E, <- app_assoc, TrimLeftSpace_spaces_app by assumption.
  destruct y as [|a y'] eqn:Ey.
  - simpl app. now rewrite TrimLeftSpace_spaces.
  - rewrite TrimLeftSpace_fixed_app; try assumption; try discriminate.
    + now apply TrimRightSpace_spaces_app.
    + rewrite <- Ey. apply TrimLeftSpace_idem.
Qed.

Lemma TrimSpace_idem (s : gostring) :
  strings.TrimSpace (strings.TrimSpace s) = strings.TrimSpace s.
Proof.
  destruct (TrimSpace_split s) as (w1 & w2 & H1 & H2 & E).
  rewrite E at 2. symmetry. now apply TrimSpace_spaces_around.
Qed.

Lemma TrimSpace_spaces (w : gostring) : spaces w -> strings.TrimSpace w = [].
Proof.
  intro H. unfold strings.TrimSpace. now rewrite TrimLeftSpace_spaces.
Qed.

(** Text between two bytes that are not white space is already trimmed. *)
Lemma TrimSpace_tight (s r r' : gostring) (b c : byte) :
  s = b :: r -> s = r' ++ [c] ->
  space_lead b = false -> space_trail c = false ->
  strings.TrimSpace s = s.
Proof.
  intros Eb Ec Hb Hc. unfold strings.TrimSpace.
  rewrite Eb at 1. rewrite TrimLeftSpace_lead by assumption.
  rewrite <- Eb, Ec. now apply TrimRightSpace_trail.
Qed.

(** ** The fallback review *)

Lemma slice_expr_head (s : gostring) (n : Z) :
  0 <= n <= len s -> slice_expr s 0 n = Returned (firstn (Z.to_nat n) s).
Proof.
  intro H. unfold slice_expr.
  replace ((0 <=? 0) && (0 <=? n) && (n <=? len s)) with true.
  - now rewrite Z.sub_0_r.
  - symmetry. rewrite !andb_true_iff, !Z.leb_le. lia.
Qed.

(** [createFallbackReview] never panics and builds the canonical
    default. *)
Lemma createFallbackReview_returns (reason rawResponse : gostring) :
  createFallbackReview reason rawResponse
  = Returned (canonical_default reason rawResponse).
Proof.
  unfold createFallbackReview, canonical_default, echo.
  destruct (500 <? len rawResponse) eqn:L.
  - apply Z.ltb_lt in L.
    rewrite slice_expr_head by lia. cbn [bind].
    destruct rawResponse as [|b r]; [discriminate L|].
    change (Z.to_nat 500) with 500%nat.
    change (firstn 500 (b :: r)) with (b :: firstn 499 r).
    reflexivity.
  - cbn [bind]. destruct rawResponse as [|b r]; reflexivity.
Qed.

Lemma canonical_default_populated (reason text : gostring) :
  fully_populated (canonical_default reason text) = true.
Proof.
  unfold fully_populated, canonical_default, echo. cbn [OverallScore Issues
    Suggestions InterviewerFeedback FollowUpQuestions Complexity
    ReadabilityScore TestCoverage].
  destruct text; reflexivity.
Qed.

Lemma canonical_default_signals (reason text : gostring) :
  signals_all_zero (canonical_default reason text) = false.
Proof. reflexivity. Qed.

(** The echoed text is at most 500 bytes of the text, and three more for
    the ellipsis. *)
Lemma echo_text (text : gostring) :
  text <> [] ->
  (len text <= 500 -> echo text = text)
  /\ (500 < len text -> echo text = firstn 500 text ++ str "...").
Proof.
  intro Hne. destruct text as [|b r]; [contradiction|].
  unfold echo. split; intro H.
  - apply Z.ltb_ge in H. now rewrite H.
  - apply Z.ltb_lt in H. now rewrite H.
Qed.

(** ** Cleaning and locating the candidate *)

Lemma strip_code_fence_incl (response : gostring) (b : byte) :
  In b (strip_code_fence response) -> In b response.
Proof.
  unfold strip_code_fence. intro H.
  apply TrimSpace_incl, TrimSuffix_incl, TrimPrefix_incl, TrimPrefix_incl,
    TrimSpace_incl in H.
  exact H.
Qed.

(** A reply that is one object, from its opening to its closing brace,
    is not changed by the cleaning. *)
Lemma strip_code_fence_object (s r r' : gostring) :
  s = x7b :: r -> s = r' ++ [x7d] -> strip_code_fence s = s.
Proof.
  intros Eb Ec. unfold strip_code_fence.
  rewrite (TrimSpace_tight s r r' x7b x7d Eb Ec eq_refl eq_refl).
  change (str "```json") with (x60 :: str "``json").
  change (str "```") with (x60 :: str "``") at 1.
  rewrite Eb at 1. rewrite TrimPrefix_first by discriminate.
  rewrite TrimPrefix_first by discriminate.
  rewrite <- Eb, Ec.
  change (str "```") with (str "``" ++ [x60]).
  rewrite TrimSuffix_last by discriminate.
  rewrite <- Ec. apply (TrimSpace_tight s r r' x7b x7d Eb Ec eq_refl eq_refl).
Qed.

Lemma slice_expr_middle (pre mid post : gostring) :
  slice_expr (pre ++ mid ++ post) (len pre) (len pre + len mid) = Returned mid.
Proof.
  unfold slice_expr.
  replace ((0 <=? len pre) && (len pre <=? len pre + len mid)
           && (len pre + len mid <=? len (pre ++ mid ++ post))) with true.
  - f_equal. unfold len. rewrite Nat2Z.id.
    replace (Z.to_nat (Z.of_nat (length pre) + Z.of_nat (length mid)
                       - Z.of_nat (length pre))) with (length mid) by lia.
    rewrite skipn_app, skipn_all, Nat.sub_diag. simpl.
    rewrite firstn_app, firstn_all, Nat.sub_diag. simpl. apply app_nil_r.
  - symmetry. rewrite !andb_true_iff, !Z.leb_le, !len_app.
    pose proof (len_nonneg pre). pose proof (len_nonneg mid).
    pose proof (len_nonneg post). lia.
Qed.

Lemma json_candidate_none (response : gostring) :
  ~ In x7b response \/ ~ In x7d response ->
  json_candidate response = Returned None.
Proof.
  intro H. unfold json_candidate.
  change (str "{") with [x7b]. change (str "}") with [x7d].
  destruct H as [H|H].
  - rewrite Index_absent; [reflexivity|].
    intro Hin. apply H. now apply strip_code_fence_incl.
  - rewrite (LastIndex_absent _ x7d); [now rewrite orb_true_r|].
    intro Hin. apply H. now apply strip_code_fence_incl.
Qed.

(** The candidate runs from the first opening to the last closing brace. *)
Lemma json_candidate_some (response pre mid post : gostring) :
  strip_code_fence response = pre ++ x7b :: mid ++ x7d :: post ->
  ~ In x7b pre -> ~ In x7d post ->
  json_candidate response = Returned (Some (x7b :: mid ++ [x7d])).
Proof.
  intros E Hpre Hpost. unfold json_candidate. rewrite E.
  change (str "{") with [x7b]. change (str "}") with [x7d].
  assert (strings.Index (pre ++ x7b :: mid ++ x7d :: post) [x7b] = len pre) as ->
    by now apply Index_found.
  assert (strings.LastIndex (pre ++ x7b :: mid ++ x7d :: post) [x7d]
          = len pre + len (x7b :: mid ++ [x7d]) - 1) as ->.
  { replace (pre ++ x7b :: mid ++ x7d :: post)
      with ((pre ++ x7b :: mid) ++ x7d :: post)
      by (now rewrite <- app_assoc).
    rewrite LastIndex_found by assumption.
    unfold len. rewrite length_app. simpl length. rewrite length_app.
    simpl length. lia. }
  pose proof (len_nonneg pre). pose proof (len_nonneg mid).
  assert (0 < len (x7b :: mid ++ [x7d])) by (unfold len; simpl length; lia).
  replace ((len pre =? -1) || (len pre + len (x7b :: mid ++ [x7d]) - 1 =? -1))
    with false
    by (symmetry; apply orb_false_iff; split; apply Z.eqb_neq; lia).
  replace (len pre + len (x7b :: mid ++ [x7d]) - 1 + 1)
    with (len pre + len (x7b :: mid ++ [x7d])) by lia.
  replace (pre ++ x7b :: mid ++ x7d :: post)
    with (pre ++ (x7b :: mid ++ [x7d]) ++ post)
    by (simpl; now rewrite <- app_assoc).
  now rewrite slice_expr_middle.
Qed.

Lemma json_candidate_object (s r r' : gostring) :
  s = x7b :: r -> s = r' ++ [x7d] -> json_candidate s = Returned (Some s).
Proof.
  intros Eb Ec.
  destruct r' as [|b0 m].
  { rewrite Eb in Ec. discriminate Ec. }
  assert (b0 = x7b /\ r = m ++ [x7d]) as [-> Er].
  { rewrite Eb in Ec. simpl in Ec. now injection Ec as -> ->. }
  rewrite Ec at 2. simpl app.
  apply (json_candidate_some s [] m []); try (intros []).
  rewrite (strip_code_fence_object s r (x7b :: m) Eb Ec).
  now rewrite Ec.
Qed.

(** The slice panics exactly when the first opening brace lies more than
    one byte after the last closing brace. *)
Lemma json_candidate_panics (response : gostring) :
  let cleaned := strip_code_fence response in
  let start := strings.Index cleaned "{" in
  let end_ := strings.LastIndex cleaned "}" in
  (exists e, json_candidate response = Panicked e)
  <-> (end_ <> -1 /\ end_ + 1 < start).
Proof.
  cbv zeta. unfold json_candidate.
  change (str "{") with [x7b]. change (str "}") with [x7d].
  set (c := strip_code_fence response).
  destruct (Index_range c x7b) as [[Es _]|[Rs _]];
    destruct (LastIndex_range c x7d) as [[Ee _]|[Re _]].
  - rewrite Es, Ee. simpl. split; [intros [e H]; discriminate H | lia].
  - rewrite Es. simpl. split; [intros [e H]; discriminate H | lia].
  - rewrite Ee, orb_true_r. split; [intros [e H]; discriminate H | lia].
  - replace ((strings.Index c [x7b] =? -1) || (strings.LastIndex c [x7d] =? -1))
      with false
      by (symmetry; apply orb_false_iff; split; apply Z.eqb_neq; lia).
    unfold slice_expr.
    destruct ((0 <=? strings.Index c [x7b])
              && (strings.Index c [x7b] <=? strings.LastIndex c [x7d] + 1)
              && (strings.LastIndex c [x7d] + 1 <=? len c)) eqn:G; cbn [bind].
    + split; [intros [e H]; discriminate H|].
      apply andb_true_iff in G as [G _]. apply andb_true_iff in G as [_ G].
      apply Z.leb_le in G. lia.
    + split; [intros _ | intros _; eexists; reflexivity].
      split; [lia|].
      apply andb_false_iff in G as [G|G];
        [apply andb_false_iff in G as [G|G]|]; apply Z.leb_gt in G; lia.
Qed.

(** ** The paths of parseAIResponse and parseQuestions *)

Section Paths.

Variable decode : gostring -> option AICodeReview.
Variable decode_strings : gostring -> option (slice gostring).

(** [parseAIResponse] in terms of its candidate and of the canonical
    default: the five ways it can return, and the panic of the slice. *)
Lemma parseAIResponse_paths (response : gostring) :
  parseAIResponse decode response =
  c <- json_candidate response ;;
  match c with
  | None =>
    Returned (canonical_default "No JSON found in AI response"
                (strip_code_fence response), None)
  | Some jsonStr =>
    if negb (balanced jsonStr)
    then Returned (canonical_default "Incomplete JSON response" jsonStr, None)
    else match decode jsonStr with
         | None => Returned (canonical_default "JSON parsing error" jsonStr, None)
         | Some review =>
           if signals_all_zero review
           then Returned (canonical_default "Incomplete AI response" jsonStr, None)
           else Returned (review, None)
         end
  end.
Proof.
  unfold parseAIResponse, json_candidate, balanced, signals_all_zero.
  destruct ((strings.Index (strip_code_fence response) "{" =? -1)
            || (strings.LastIndex (strip_code_fence response) "}" =? -1)).
  - now rewrite createFallbackReview_returns.
  - destruct (slice_expr _ _ _) as [jsonStr|e]; cbn [bind]; [|reflexivity].
    destruct (negb _).
    + now rewrite createFallbackReview_returns.
    + destruct (decode jsonStr) as [review|].
      * destruct (_ && _); [now rewrite createFallbackReview_returns | reflexivity].
      * now rewrite createFallbackReview_returns.
Qed.

Lemma parseQuestions_paths (response : gostring) :
  parseQuestions decode_strings response =
  c <- array_candidate response ;;
  match c with
  | None => Returned default_questions
  | Some jsonStr =>
    match decode_strings jsonStr with
    | None => Returned default_questions
    | Some questions => Returned questions
    end
  end.
Proof.
  unfold parseQuestions, array_candidate.
  destruct ((strings.Index response "[" =? -1)
            || (strings.LastIndex response "]" =? -1)); [reflexivity|].
  now destruct (slice_expr _ _ _).
Qed.

(** Neither function ever hands an error value to its caller. *)
Lemma parseAIResponse_error_nil (response : gostring) (r : AICodeReview) (err : error) :
  parseAIResponse decode response = Returned (r, err) -> err = None.
Proof.
  rewrite parseAIResponse_paths.
  destruct (json_candidate response) as [[jsonStr|]|e]; cbn [bind];
    try discriminate.
  - destruct (negb _); [now intros [= _ <-]|].
    destruct (decode jsonStr) as [review|]; [|now intros [= _ <-]].
    destruct (signals_all_zero review); now intros [= _ <-].
  - now intros [= _ <-].
Qed.

(** [parseAIResponse] panics exactly when its slice is out of bounds. *)
Lemma parseAIResponse_panics_iff (response : gostring) :
  let cleaned := strip_code_fence response in
  let start := strings.Index cleaned "{" in
  let end_ := strings.LastIndex cleaned "}" in
  (exists e, parseAIResponse decode response = Panicked e)
  <-> (end_ <> -1 /\ end_ + 1 < start).
Proof.
  cbv zeta. rewrite <- json_candidate_panics, parseAIResponse_paths.
  destruct (json_candidate response) as [[jsonStr|]|e]; cbn [bind].
  - split; intros [e H]; [|discriminate H].
    destruct (negb _); [discriminate H|].
    destruct (decode jsonStr) as [review|]; [|discriminate H].
    destruct (signals_all_zero review); discriminate H.
  - split; intros [e H]; discriminate H.
  - split; intros _; now exists e.
Qed.

End Paths.

Lemma gostring_neq (a b : gostring) : gostring_eqb a b = false -> a <> b.
Proof.
  intros H E. apply gostring_eqb_eq in E. congruence.
Qed.

(** ** Claims about panics *)

(** C1. The claim says that no input makes [parseAIResponse] panic and
    that its slice is always in bounds.  On the reply made of a closing
    brace, a space and an opening brace, the first opening brace is at 2
    and the last closing brace at 0: the slice [response[2:1]] is out of
    bounds and the call panics, whatever the decoder. *)
Theorem parseAIResponse_panics_on_reversed_braces :
  forall decode : gostring -> option AICodeReview,
    parseAIResponse decode "} {" = Panicked (slice_bounds_out_of_range 2 1 3).
Proof. intro decode. reflexivity. Qed.

(** C8. The claim says that [parseQuestions] returns the default list on
    every failure.  On the reply made of a closing bracket, a space and an
    opening bracket, the first opening bracket lies after the last closing
    bracket: the slice [response[2:1]] is out of bounds and the call
    panics instead of returning the default list. *)
Theorem parseQuestions_panics_on_reversed_brackets :
  forall decode : gostring -> option (slice gostring),
    parseQuestions decode "] [" = Panicked (slice_bounds_out_of_range 2 1 3).
Proof. intro decode. reflexivity. Qed.

(** Apart from that panic [parseQuestions] does what C8 says: the
    default list when a bracket is missing or the candidate does not
    decode, else the decoded list as it is. *)
Lemma parseQuestions_outcomes
    (decode : gostring -> option (slice gostring)) (response : gostring) :
  (array_candidate response = Returned None ->
   parseQuestions decode response = Returned default_questions)
  /\ (forall jsonStr, array_candidate response = Returned (Some jsonStr) ->
      decode jsonStr = None ->
      parseQuestions decode response = Returned default_questions)
  /\ (forall jsonStr questions,
      array_candidate response = Returned (Some jsonStr) ->
      decode jsonStr = Some questions ->
      parseQuestions decode response = Returned questions)
  /\ (forall e, array_candidate response = Panicked e ->
      parseQuestions decode response = Panicked e).
Proof.
  rewrite parseQuestions_paths.
  repeat split; intros; repeat
    match goal with
    | H : array_candidate _ = _ |- _ => rewrite H; clear H; cbn [bind]
    | H : decode _ = _ |- _ => rewrite H; clear H
    end; reflexivity.
Qed.

Example ExtractArray_two_questions :
  ExtractArray (json.text "['Q1?', 'Q2?']") = Returned (Some [str "Q1?"; str "Q2?"]).
Proof. vm_compute. reflexivity. Qed.

Example ExtractArray_inside_prose :
  ExtractArray (json.text "Here you go: ['Why a map?'] Good luck!")
  = Returned (Some [str "Why a map?"]).
Proof. vm_compute. reflexivity. Qed.

Example ExtractArray_not_an_array :
  ExtractArray "not an array" = Returned default_questions.
Proof. vm_compute. reflexivity. Qed.

(** ** Claims about the returned review *)

(** C2, as the code has it.  A returned review is either a canonical
    default, every field of which is populated, or the very record the
    decoder delivered for the candidate, of which only this is known: its
    two scores and its feedback are not all zero. *)
Theorem parseAIResponse_populated_or_decoded :
  forall (decode : gostring -> option AICodeReview)
         (response : gostring) (r : AICodeReview) (err : error),
    parseAIResponse decode response = Returned (r, err) ->
    err = None
    /\ ((exists reason text,
           r = canonical_default reason text /\ fully_populated r = true)
        \/ (exists jsonStr,
              json_candidate response = Returned (Some jsonStr)
              /\ balanced jsonStr = true
              /\ decode jsonStr = Some r
              /\ signals_all_zero r = false)).
Proof.
  intros decode response r err H.
  split; [now apply (parseAIResponse_error_nil decode response r)|].
  rewrite parseAIResponse_paths in H.
  destruct (json_candidate response) as [[jsonStr|]|e]; cbn [bind] in H;
    try discriminate H.
  - destruct (balanced jsonStr) eqn:B; cbn [negb] in H.
    + destruct (decode jsonStr) as [review|] eqn:D.
      * destruct (signals_all_zero review) eqn:S; injection H as <- _.
        -- left. eexists _, _. split; [reflexivity|].
           apply canonical_default_populated.
        -- right. now exists jsonStr.
      * injection H as <- _. left. eexists _, _. split; [reflexivity|].
        apply canonical_default_populated.
    + injection H as <- _. left. eexists _, _. split; [reflexivity|].
      apply canonical_default_populated.
  - injection H as <- _. left. eexists _, _. split; [reflexivity|].
    apply canonical_default_populated.
Qed.

Lemma parseAIResponse_populated_or_decoded_witness :
  (None : error) = None
  /\ ((exists reason text,
         canonical_default "No JSON found in AI response" "no json here"
         = canonical_default reason text
         /\ fully_populated
              (canonical_default "No JSON found in AI response" "no json here")
            = true)
      \/ (exists jsonStr,
            json_candidate "no json here" = Returned (Some jsonStr)
            /\ balanced jsonStr = true
            /\ json.Unmarshal_AICodeReview jsonStr
               = Some (canonical_default "No JSON found in AI response" "no json here")
            /\ signals_all_zero
                 (canonical_default "No JSON found in AI response" "no json here")
               = false)).
Proof.
  apply (parseAIResponse_populated_or_decoded json.Unmarshal_AICodeReview
           "no json here").
  vm_compute. reflexivity.
Defined.

(** C2, as stated, fails on the success path: a valid object that gives
    only [overall_score] comes back with every other field at its zero
    value. *)
Lemma ExtractObject_omitted_fields_stay_zero :
  exists r,
    ExtractObject (json.text "{'overall_score': 85}") = Returned (r, None)
    /\ OverallScore r = float64_of_Z 85
    /\ Issues r = None
    /\ Suggestions r = None
    /\ InterviewerFeedback r = []
    /\ FollowUpQuestions r = None
    /\ ReadabilityScore r = S754_zero false
    /\ TestCoverage r = []
    /\ fully_populated r = false.
Proof.
  eexists. split; [vm_compute; reflexivity|].
  repeat split.
Qed.

(** C3, as the code has it.  Without an opening or without a closing
    brace, and for a balanced candidate that does not decode, the result
    is the canonical default: both scores 50, one parsing issue that names
    the reason, one troubleshooting suggestion, both complexities
    [Unable to analyze], three follow-up questions, and a feedback that
    wraps in the prompt the text handed to the fallback, which is the
    cleaned reply in the first case and the candidate in the second: that
    text itself up to 500 bytes, its first 500 bytes and an ellipsis when
    it is longer, a fixed sentence when it is empty. *)
Theorem parseAIResponse_total_failure_default :
  forall (decode : gostring -> option AICodeReview) (response : gostring),
    (~ In x7b response \/ ~ In x7d response ->
     parseAIResponse decode response
     = Returned (canonical_default "No JSON found in AI response"
                   (strip_code_fence response), None))
    /\ (forall jsonStr,
          json_candidate response = Returned (Some jsonStr) ->
          balanced jsonStr = true ->
          decode jsonStr = None ->
          parseAIResponse decode response
          = Returned (canonical_default "JSON parsing error" jsonStr, None))
    /\ (forall reason text,
          let d := canonical_default reason text in
          OverallScore d = float64_of_Z 50
          /\ ReadabilityScore d = float64_of_Z 50
          /\ (exists issue,
                Issues d = Some [issue]
                /\ CodeIssue.Type_ issue = "parsing"
                /\ CodeIssue.Description issue
                   = str "AI response parsing issue: " ++ reason)
          /\ (exists suggestion,
                Suggestions d = Some [suggestion]
                /\ CodeSuggestion.Category suggestion = "troubleshooting")
          /\ ComplexityAnalysis.TimeComplexity (Complexity d) = "Unable to analyze"
          /\ ComplexityAnalysis.SpaceComplexity (Complexity d) = "Unable to analyze"
          /\ (exists q1 q2 q3, FollowUpQuestions d = Some [q1; q2; q3])
          /\ InterviewerFeedback d = prompt_before ++ echo text ++ prompt_after
          /\ (text <> [] -> len text <= 500 -> echo text = text)
          /\ (500 < len text -> echo text = firstn 500 text ++ str "...")
          /\ (text = [] ->
              echo text
              = "AI provided an empty or malformed response. Please try again.")).
Proof.
  intros decode response. split; [|split].
  - intro H. rewrite parseAIResponse_paths.
    now rewrite (json_candidate_none response H).
  - intros jsonStr Hc Hb Hd. rewrite parseAIResponse_paths, Hc. cbn [bind].
    now rewrite Hb, Hd.
  - intros reason text d. subst d.
    repeat split; try (eexists; repeat split; fail).
    + eexists _, _, _. reflexivity.
    + intros Hne Hl. now apply echo_text.
    + intro Hl. apply echo_text; [|assumption].
      intros ->. discriminate Hl.
    + now intros ->.
Qed.

Lemma parseAIResponse_total_failure_default_witness :
  ExtractObject ""
  = Returned (canonical_default "No JSON found in AI response" "", None)
  /\ ExtractObject (json.text "{a}")
     = Returned (canonical_default "JSON parsing error" (json.text "{a}"), None).
Proof.
  pose proof (parseAIResponse_total_failure_default
                json.Unmarshal_AICodeReview "") as (H1 & _ & _).
  pose proof (parseAIResponse_total_failure_default
                json.Unmarshal_AICodeReview (json.text "{a}")) as (_ & H2 & _).
  split.
  - apply H1. left. intros [].
  - apply H2; vm_compute; reflexivity.
Defined.

(** C3, as stated, fails on its feedback: what is wrapped in the prompt
    is the candidate, not the first bytes of the raw reply. *)
Lemma ExtractObject_echoes_candidate_not_reply :
  exists r,
    ExtractObject "Sure! {a} Done." = Returned (r, None)
    /\ InterviewerFeedback r = prompt_before ++ str "{a}" ++ prompt_after
    /\ strings.HasPrefix "Sure! {a} Done." "{a}" = false
    /\ InterviewerFeedback r
       <> prompt_before ++ echo "Sure! {a} Done." ++ prompt_after.
Proof.
  eexists. split; [vm_compute; reflexivity|].
  repeat split. apply gostring_neq. vm_compute. reflexivity.
Qed.

(** C4, as the code has it.  A candidate with unequal numbers of opening
    and closing braces is not repaired: the result is the canonical
    default for the reason [Incomplete JSON response], with score 50 and
    its single parsing issue of severity medium. *)
Theorem parseAIResponse_unbalanced_is_total_failure :
  forall (decode : gostring -> option AICodeReview) (response jsonStr : gostring),
    json_candidate response = Returned (Some jsonStr) ->
    balanced jsonStr = false ->
    exists r,
      parseAIResponse decode response = Returned (r, None)
      /\ r = canonical_default "Incomplete JSON response" jsonStr
      /\ OverallScore r = float64_of_Z 50
      /\ exists issue,
           Issues r = Some [issue]
           /\ CodeIssue.Type_ issue = "parsing"
           /\ CodeIssue.Severity issue = "medium".
Proof.
  intros decode response jsonStr Hc Hb.
  eexists. split.
  - rewrite parseAIResponse_paths, Hc. cbn [bind]. rewrite Hb. reflexivity.
  - repeat split. eexists. repeat split.
Qed.

Lemma parseAIResponse_unbalanced_is_total_failure_witness :
  exists r,
    ExtractObject truncated_review = Returned (r, None)
    /\ r = canonical_default "Incomplete JSON response" truncated_review
    /\ OverallScore r = float64_of_Z 50
    /\ exists issue,
         Issues r = Some [issue]
         /\ CodeIssue.Type_ issue = "parsing"
         /\ CodeIssue.Severity issue = "medium".
Proof.
  apply (parseAIResponse_unbalanced_is_total_failure
           json.Unmarshal_AICodeReview truncated_review truncated_review);
    vm_compute; reflexivity.
Defined.

(** C4, as stated, fails: on a truncated object whose text holds
    [overall_score 60] the score returned is the neutral 50, neither the
    60 of the text nor 0. *)
Lemma ExtractObject_unbalanced_scores_50 :
  json_candidate truncated_review = Returned (Some truncated_review)
  /\ strings.Count truncated_review "{" = 2
  /\ strings.Count truncated_review "}" = 1
  /\ exists r,
       ExtractObject truncated_review = Returned (r, None)
       /\ OverallScore r = float64_of_Z 50
       /\ OverallScore r <> float64_of_Z 60
       /\ OverallScore r <> float64_of_Z 0.
Proof.
  repeat split; try (vm_compute; reflexivity).
  eexists. split; [vm_compute; reflexivity|].
  repeat split; vm_compute; discriminate.
Qed.

(** Cut off before any closing brace, the reply has no candidate at all
    and is answered with the default for [No JSON found in AI response]. *)
Example ExtractObject_truncated_without_closing_brace :
  ExtractObject truncated_review_open
  = Returned (canonical_default "No JSON found in AI response"
                truncated_review_open, None)
  /\ OverallScore (canonical_default "No JSON found in AI response"
                     truncated_review_open)
     = float64_of_Z 50.
Proof. split; vm_compute; reflexivity. Qed.

(** C5, as the code has it.  When the candidate has as many opening as
    closing braces and decodes, the canonical default for
    [Incomplete AI response] is returned if both scores are zero and the
    feedback is empty, and it differs from the decoded record; otherwise
    the decoded record itself is returned. *)
Theorem parseAIResponse_validation_gate :
  forall (decode : gostring -> option AICodeReview)
         (response jsonStr : gostring) (r : AICodeReview),
    json_candidate response = Returned (Some jsonStr) ->
    balanced jsonStr = true ->
    decode jsonStr = Some r ->
    (signals_all_zero r = true ->
     parseAIResponse decode response
     = Returned (canonical_default "Incomplete AI response" jsonStr, None)
     /\ canonical_default "Incomplete AI response" jsonStr <> r)
    /\ (signals_all_zero r = false ->
        parseAIResponse decode response = Returned (r, None))
    /\ (signals_all_zero r = true
        <-> float64_is_zero (OverallScore r) = true
            /\ float64_is_zero (ReadabilityScore r) = true
            /\ InterviewerFeedback r = []).
Proof.
  intros decode response jsonStr r Hc Hb Hd.
  rewrite parseAIResponse_paths, Hc. cbn [bind]. rewrite Hb, Hd. cbn [negb].
  split; [|split].
  - intro Hz. rewrite Hz. split; [reflexivity|].
    intro E. rewrite <- E in Hz. discriminate Hz.
  - intro Hz. now rewrite Hz.
  - unfold signals_all_zero. rewrite !andb_true_iff.
    change (str "") with (@nil byte). rewrite gostring_eqb_eq. tauto.
Qed.

Lemma parseAIResponse_validation_gate_witness :
  (signals_all_zero json.zero_AICodeReview = true ->
   ExtractObject zeroed_review
   = Returned (canonical_default "Incomplete AI response" zeroed_review, None)
   /\ canonical_default "Incomplete AI response" zeroed_review
      <> json.zero_AICodeReview)
  /\ (signals_all_zero json.zero_AICodeReview = false ->
      ExtractObject zeroed_review = Returned (json.zero_AICodeReview, None))
  /\ (signals_all_zero json.zero_AICodeReview = true
      <-> float64_is_zero (OverallScore json.zero_AICodeReview) = true
          /\ float64_is_zero (ReadabilityScore json.zero_AICodeReview) = true
          /\ InterviewerFeedback json.zero_AICodeReview = []).
Proof.
  apply (parseAIResponse_validation_gate json.Unmarshal_AICodeReview
           zeroed_review zeroed_review json.zero_AICodeReview);
    vm_compute; reflexivity.
Defined.

(** C5, as stated, fails: this candidate decodes cleanly with a score of
    85, yet the default is returned, because the brace inside its feedback
    string is counted. *)
Lemma ExtractObject_default_despite_signal :
  exists r,
    json_candidate brace_in_feedback = Returned (Some brace_in_feedback)
    /\ json.Unmarshal_AICodeReview brace_in_feedback = Some r
    /\ OverallScore r = float64_of_Z 85
    /\ signals_all_zero r = false
    /\ ExtractObject brace_in_feedback
       = Returned (canonical_default "Incomplete JSON response" brace_in_feedback,
                   None)
    /\ ExtractObject brace_in_feedback <> Returned (r, None).
Proof.
  eexists. split; [vm_compute; reflexivity|].
  split; [vm_compute; reflexivity|].
  repeat split; try (vm_compute; reflexivity).
  vm_compute. discriminate.
Qed.

(** C6, as the code has it.  A reply that is one object from its opening
    to its closing brace, with as many opening as closing braces in its
    text, that decodes to a record whose signal fields are not all zero,
    comes back as that record. *)
Theorem parseAIResponse_exact_object :
  forall (decode : gostring -> option AICodeReview)
         (s body init : gostring) (r : AICodeReview),
    s = x7b :: body ->
    s = init ++ [x7d] ->
    balanced s = true ->
    decode s = Some r ->
    signals_all_zero r = false ->
    parseAIResponse decode s = Returned (r, None).
Proof.
  intros decode s body init r Eb Ec Hb Hd Hz.
  rewrite parseAIResponse_paths, (json_candidate_object s body init Eb Ec).
  cbn [bind]. now rewrite Hb, Hd, Hz.
Qed.

Lemma parseAIResponse_exact_object_witness :
  ExtractObject complete_review = Returned (complete_review_value, None).
Proof.
  apply (parseAIResponse_exact_object json.Unmarshal_AICodeReview
           complete_review (tl complete_review) (removelast complete_review));
    vm_compute; reflexivity.
Defined.

(** C6, as stated, fails: a valid object that supplies every field, with
    a closing brace inside its feedback, is answered with the default. *)
Lemma ExtractObject_valid_object_defaulted :
  exists r,
    json.Unmarshal_AICodeReview complete_review_with_brace = Some r
    /\ InterviewerFeedback r = "Close the loop with } first"
    /\ OverallScore r = float64_of_Z 85
    /\ ReadabilityScore r = float64_of_Z 90
    /\ ExtractObject complete_review_with_brace
       = Returned (canonical_default "Incomplete JSON response"
                     complete_review_with_brace, None)
    /\ ExtractObject complete_review_with_brace <> Returned (r, None).
Proof.
  eexists. split; [vm_compute; reflexivity|].
  repeat split; try (vm_compute; reflexivity).
  vm_compute. discriminate.
Qed.

(** ** Serialising a review and extracting it again *)

(** What [Marshal] writes is one object, from brace to brace. *)
Lemma Marshal_AICodeReview_shape (r : AICodeReview) (j : gostring) :
  json.Marshal_AICodeReview r = Some j ->
  exists body init, j = x7b :: body /\ j = init ++ [x7d].
Proof.
  unfold json.Marshal_AICodeReview.
  destruct (json.encode_float64 (OverallScore r)) as [score|]; [|discriminate].
  destruct (json.encode_float64 (ReadabilityScore r)) as [readability|];
    [|discriminate].
  intro H.
  apply (f_equal (fun o => match o with Some x => x | None => [] end)) in H.
  cbv beta iota in H. subst j.
  eexists _, _. split.
  - change (json.text "{'overall_score':")
      with (x7b :: tl (json.text "{'overall_score':")).
    reflexivity.
  - change (str "}") with [x7d]. rewrite !app_assoc. reflexivity.
Qed.

(** Whatever [parseAIResponse] returns has a signal. *)
Lemma parseAIResponse_signal
    (decode : gostring -> option AICodeReview) (response : gostring)
    (r : AICodeReview) (err : error) :
  parseAIResponse decode response = Returned (r, err) ->
  signals_all_zero r = false.
Proof.
  rewrite parseAIResponse_paths.
  destruct (json_candidate response) as [[jsonStr|]|e]; cbn [bind];
    try discriminate.
  - destruct (negb _); [now intros [= <- _]|].
    destruct (decode jsonStr) as [review|]; [|now intros [= <- _]].
    destruct (signals_all_zero review) eqn:S; [now intros [= <- _]|].
    now intros [= <- _].
  - now intros [= <- _].
Qed.

(** *** Valid UTF-8 *)

Lemma valid_utf8_app (a b : gostring) :
  valid_utf8 a -> valid_utf8 b -> valid_utf8 (a ++ b).
Proof.
  intros Ha Hb. induction Ha as [|r s Hr Hw _ IH]; [assumption|].
  rewrite <- app_assoc. now constructor.
Qed.

Lemma valid_utf8_one (r : gostring) :
  r <> [] -> utf8.valid_width r = length r -> valid_utf8 r.
Proof.
  intros Hr Hw. rewrite <- (app_nil_r r). constructor; try assumption. constructor.
Qed.

(** The width of an encoding does not depend on what follows it. *)
Lemma valid_width_app (r x : gostring) :
  r <> [] -> utf8.valid_width r = length r ->
  utf8.valid_width (r ++ x) = length r.
Proof.
  intros Hr Hw.
  destruct r as [|b0 [|b1 [|b2 [|b3 [|b4 r]]]]]; [contradiction| | | | |];
    clear Hr; cbn [utf8.valid_width app length] in *;
    repeat match type of Hw with
           | context [if ?c then _ else _] => destruct c eqn:?
           end;
    try discriminate Hw; try reflexivity;
    destruct x; reflexivity.
Qed.

(** One ASCII byte is read back from what is written for it. *)
Lemma scan_string_ascii (b : byte) (f : nat) (x : gostring) :
  (Byte.to_N b <? 128)%N = true ->
  json.scan_string (S f) (json.encode_ascii b ++ x)
  = match json.scan_string f x with
    | Some (tl, rest) => Some (b :: tl, rest)
    | None => None
    end.
Proof.
  destruct b; intro H; try discriminate H; reflexivity.
Qed.

Lemma encode_ascii_length (b : byte) : (1 <= length (json.encode_ascii b))%nat.
Proof. destruct b; cbn; lia. Qed.

(** A byte that is not ASCII is read as the start of a rune. *)
Lemma scan_string_rune (c : byte) (r : gostring) (f : nat) :
  (Byte.to_N c <? 128)%N = false ->
  json.scan_string (S f) (c :: r)
  = match utf8.valid_width (c :: r) with
    | O =>
      match json.scan_string f r with
      | Some (tl, rest) => Some (json.replacement_char ++ tl, rest)
      | None => None
      end
    | w =>
      match json.scan_string f (skipn w (c :: r)) with
      | Some (tl, rest) => Some (firstn w (c :: r) ++ tl, rest)
      | None => None
      end
    end.
Proof.
  destruct c; intro H; try discriminate H; reflexivity.
Qed.

Lemma encode_bytes_cons (n : nat) (b : byte) (r : gostring) :
  json.encode_bytes (S n) (b :: r)
  = if (Byte.to_N b <? 128)%N then json.encode_ascii b ++ json.encode_bytes n r
    else match utf8.valid_width (b :: r) with
         | O => str "\ufffd" ++ json.encode_bytes n r
         | w =>
           (if gostring_eqb (firstn w (b :: r)) [xe2; x80; xa8] then str "\u2028"
            else if gostring_eqb (firstn w (b :: r)) [xe2; x80; xa9]
            then str "\u2029"
            else firstn w (b :: r))
           ++ json.encode_bytes n (skipn w (b :: r))
         end.
Proof. reflexivity. Qed.

(** A valid string is read back from what is written for it. *)
Lemma scan_string_encode (s : gostring) :
  valid_utf8 s ->
  forall (n f : nat) (x : gostring),
    (length s <= n)%nat ->
    (length (json.encode_bytes n s) < f)%nat ->
    json.scan_string f (json.encode_bytes n s ++ x22 :: x) = Some (s, x).
Proof.
  induction 1 as [|r s Hr Hw Hs IH]; intros n f x Hn Hf.
  - destruct f as [|f]; [simpl in Hf; destruct n; simpl in Hf; lia|].
    destruct n; reflexivity.
  - destruct r as [|b r]; [contradiction|]. clear Hr.
    destruct n as [|n]; [simpl in Hn; lia|].
    destruct f as [|f]; [lia|].
    change ((b :: r) ++ s) with (b :: r ++ s) in *.
    rewrite encode_bytes_cons in Hf |- *.
    destruct ((Byte.to_N b <? 128)%N) eqn:A.
    + assert (r = []) as ->.
      { unfold utf8.valid_width in Hw. rewrite A in Hw.
        destruct r; [reflexivity | discriminate Hw]. }
      simpl app in *.
      rewrite <- (app_assoc (json.encode_ascii b)).
      rewrite scan_string_ascii by assumption.
      rewrite IH; [reflexivity | simpl in Hn; lia |].
      rewrite length_app in Hf. pose proof (encode_ascii_length b). lia.
    + assert (W : utf8.valid_width (b :: r ++ s) = S (length r)).
      { apply (valid_width_app (b :: r) s); [discriminate | assumption]. }
      rewrite W in Hf |- *. cbv beta iota zeta in Hf |- *.
      assert (F : firstn (S (length r)) (b :: r ++ s) = b :: r).
      { change (b :: r ++ s) with ((b :: r) ++ s).
        rewrite firstn_app. simpl length. rewrite Nat.sub_diag. simpl firstn at 2.
        rewrite app_nil_r. change (S (length r)) with (length (b :: r)).
        apply firstn_all. }
      assert (K : skipn (S (length r)) (b :: r ++ s) = s).
      { change (b :: r ++ s) with ((b :: r) ++ s).
        rewrite skipn_app. simpl length. rewrite Nat.sub_diag.
        change (S (length r)) with (length (b :: r)).
        now rewrite skipn_all. }
      rewrite F, K in Hf |- *.
      simpl length in Hn. rewrite length_app in Hn.
      destruct (gostring_eqb (b :: r) [xe2; x80; xa8]) eqn:E1.
      { apply gostring_eqb_eq in E1. injection E1 as -> ->. 
        rewrite <- app_assoc.
        change (json.scan_string (S f)
                  (str "\u2028" ++ json.encode_bytes n s ++ x22 :: x))
          with (match json.scan_string f (json.encode_bytes n s ++ x22 :: x) with
                | Some (tl, rest) => Some ([xe2; x80; xa8] ++ tl, rest)
                | None => None
                end).
        rewrite IH; [reflexivity | lia |].
        rewrite length_app in Hf. simpl length in Hf. lia. }
      destruct (gostring_eqb (b :: r) [xe2; x80; xa9]) eqn:E2.
      { apply gostring_eqb_eq in E2. injection E2 as -> ->.
        rewrite <- app_assoc.
        change (json.scan_string (S f)
                  (str "\u2029" ++ json.encode_bytes n s ++ x22 :: x))
          with (match json.scan_string f (json.encode_bytes n s ++ x22 :: x) with
                | Some (tl, rest) => Some ([xe2; x80; xa9] ++ tl, rest)
                | None => None
                end).
        rewrite IH; [reflexivity | lia |].
        rewrite length_app in Hf. simpl length in Hf. lia. }
      rewrite <- app_assoc. simpl app.
      rewrite scan_string_rune by assumption.
      assert (W' : utf8.valid_width
                     (b :: r ++ json.encode_bytes n s ++ x22 :: x)
                   = S (length r)).
      { apply (valid_width_app (b :: r)); [discriminate | assumption]. }
      rewrite W'. cbv beta iota zeta.
      assert (F' : firstn (S (length r))
                     (b :: r ++ json.encode_bytes n s ++ x22 :: x) = b :: r).
      { change (b :: r ++ json.encode_bytes n s ++ x22 :: x)
          with ((b :: r) ++ json.encode_bytes n s ++ x22 :: x).
        rewrite firstn_app. simpl length. rewrite Nat.sub_diag. simpl firstn at 2.
        rewrite app_nil_r. change (S (length r)) with (length (b :: r)).
        apply firstn_all. }
      assert (K' : skipn (S (length r))
                     (b :: r ++ json.encode_bytes n s ++ x22 :: x)
                   = json.encode_bytes n s ++ x22 :: x).
      { change (b :: r ++ json.encode_bytes n s ++ x22 :: x)
          with ((b :: r) ++ json.encode_bytes n s ++ x22 :: x).
        rewrite skipn_app. simpl length. rewrite Nat.sub_diag.
        change (S (length r)) with (length (b :: r)).
        now rewrite skipn_all. }
      rewrite F', K'.
      rewrite IH; [reflexivity | lia |].
      simpl length in Hf. rewrite length_app in Hf. lia.
Qed.

(** *** Numbers *)

Lemma HasPrefix_one_app (t x : gostring) (c : byte) :
  c <> x2c -> strings.HasPrefix (t ++ x2c :: x) [c] = strings.HasPrefix t [c].
Proof.
  intro H. destruct t as [|b t]; simpl.
  - destruct (Byte.eqb x2c c) eqn:E; [|reflexivity].
    apply byte_eqb_eq in E. congruence.
  - reflexivity.
Qed.

Lemma HasPrefix_one_cons (t : gostring) (c : byte) :
  strings.HasPrefix t [c] = true -> exists r, t = c :: r.
Proof.
  destruct t as [|b t]; simpl; [discriminate|].
  rewrite andb_true_r. intro E. apply byte_eqb_eq in E. subst. now exists t.
Qed.

Lemma span_digits_app (t x : gostring) :
  json.span_digits (t ++ x2c :: x)
  = (fst (json.span_digits t), snd (json.span_digits t) ++ x2c :: x).
Proof.
  induction t as [|b t IH]; [reflexivity|].
  simpl app. cbn [json.span_digits].
  destruct (strconv.is_digit b); [|reflexivity].
  rewrite IH. now destruct (json.span_digits t).
Qed.

(** The three parts of the scan of a number, by the first byte of what
    they read. *)
Lemma scan_fraction_if (s : gostring) :
  json.scan_fraction s
  = if strings.HasPrefix s [x2e]
    then match json.span_digits (tl s) with
         | ([], _) => None
         | (ds, rest) => Some (ds, rest)
         end
    else Some ([], s).
Proof. destruct s as [|b s]; [reflexivity|]. destruct b; reflexivity. Qed.

Lemma scan_exponent_if (s : gostring) :
  json.scan_exponent s
  = if strings.HasPrefix s [x65] || strings.HasPrefix s [x45]
    then
      let r := tl s in
      let eneg := strings.HasPrefix r [x2d] in
      let r' := if eneg || strings.HasPrefix r [x2b] then tl r else r in
      match json.span_digits r' with
      | ([], _) => None
      | (ds, rest) => Some (Some (eneg, ds), rest)
      end
    else Some (None, s).
Proof.
  destruct s as [|b s]; [reflexivity|].
  destruct b; try reflexivity;
    (destruct s as [|c s]; [reflexivity|]; destruct c; reflexivity).
Qed.

Lemma scan_number_if (s : gostring) :
  json.scan_number s
  = let neg := strings.HasPrefix s [x2d] in
    let r := if neg then tl s else s in
    match (if strings.HasPrefix r [x30] then Some ([x30], tl r)
           else match json.span_digits r with
                | ([], _) => None
                | (ds, rest) => Some (ds, rest)
                end) with
    | None => None
    | Some (ds, r1) =>
      match json.scan_fraction r1 with
      | None => None
      | Some (fs, r2) =>
        match json.scan_exponent r2 with
        | None => None
        | Some (e, r3) => Some (strconv.mk_literal neg ds fs e, r3)
        end
      end
    end.
Proof.
  destruct s as [|b s]; [reflexivity|].
  destruct b; try reflexivity;
    (destruct s as [|c s]; [reflexivity|]; destruct c; reflexivity).
Qed.

Lemma tl_app_cons (t y : gostring) (c : byte) :
  strings.HasPrefix t [c] = true -> tl (t ++ y) = tl t ++ y.
Proof.
  intro H. apply HasPrefix_one_cons in H as [r ->]. reflexivity.
Qed.

Lemma span_digits_some_app (t x ds rest : gostring) :
  match json.span_digits t with
  | ([], _) => None
  | (ds, rest) => Some (ds, rest)
  end = Some (ds, rest) ->
  match json.span_digits (t ++ x2c :: x) with
  | ([], _) => None
  | (ds, rest) => Some (ds, rest)
  end = Some (ds, rest ++ x2c :: x).
Proof.
  rewrite span_digits_app.
  destruct (json.span_digits t) as [[|d ds'] rest']; [discriminate|].
  intros [= <- <-]. reflexivity.
Qed.

Lemma scan_fraction_app (t x fs rest : gostring) :
  json.scan_fraction t = Some (fs, rest) ->
  json.scan_fraction (t ++ x2c :: x) = Some (fs, rest ++ x2c :: x).
Proof.
  rewrite !scan_fraction_if, HasPrefix_one_app by discriminate.
  destruct (strings.HasPrefix t [x2e]) eqn:P.
  - rewrite (tl_app_cons t _ _ P). apply span_digits_some_app.
  - now intros [= <- <-].
Qed.

Lemma scan_exponent_app (t x rest : gostring) (e : option (bool * gostring)) :
  json.scan_exponent t = Some (e, rest) ->
  json.scan_exponent (t ++ x2c :: x) = Some (e, rest ++ x2c :: x).
Proof.
  rewrite !scan_exponent_if, !HasPrefix_one_app by discriminate.
  destruct (strings.HasPrefix t [x65] || strings.HasPrefix t [x45]) eqn:P.
  - cbv zeta.
    assert (T : tl (t ++ x2c :: x) = tl t ++ x2c :: x).
    { apply orb_true_iff in P as [P|P]; exact (tl_app_cons t _ _ P). }
    rewrite T, !HasPrefix_one_app by discriminate.
    destruct (strings.HasPrefix (tl t) [x2d] || strings.HasPrefix (tl t) [x2b]) eqn:Q.
    + assert (T' : tl (tl t ++ x2c :: x) = tl (tl t) ++ x2c :: x).
      { apply orb_true_iff in Q as [Q|Q]; exact (tl_app_cons (tl t) _ _ Q). }
      rewrite T', span_digits_app.
      destruct (json.span_digits (tl (tl t))) as [[|d ds'] rest']; [discriminate|].
      now intros [= <- <-].
    + rewrite span_digits_app.
      destruct (json.span_digits (tl t)) as [[|d ds'] rest']; [discriminate|].
      now intros [= <- <-].
  - now intros [= <- <-].
Qed.

(** A number is read in the same way when a comma follows it. *)
Lemma scan_number_app (t x rest : gostring) (l : strconv.literal) :
  json.scan_number t = Some (l, rest) ->
  json.scan_number (t ++ x2c :: x) = Some (l, rest ++ x2c :: x).
Proof.
  rewrite !scan_number_if, !HasPrefix_one_app by discriminate. cbv zeta.
  set (neg := strings.HasPrefix t [x2d]).
  assert (R : (if neg then tl (t ++ x2c :: x) else t ++ x2c :: x)
              = (if neg then tl t else t) ++ x2c :: x).
  { destruct neg eqn:N; [|reflexivity]. exact (tl_app_cons t _ _ N). }
  rewrite R. set (r := if neg then tl t else t).
  rewrite HasPrefix_one_app by discriminate.
  assert (I : forall ds r1,
            (if strings.HasPrefix r [x30] then Some ([x30], tl r)
             else match json.span_digits r with
                  | ([], _) => None
                  | (ds, rest) => Some (ds, rest)
                  end) = Some (ds, r1) ->
            (if strings.HasPrefix r [x30] then Some ([x30], tl (r ++ x2c :: x))
             else match json.span_digits (r ++ x2c :: x) with
                  | ([], _) => None
                  | (ds, rest) => Some (ds, rest)
                  end) = Some (ds, r1 ++ x2c :: x)).
  { intros ds r1. destruct (strings.HasPrefix r [x30]) eqn:Z.
    - rewrite (tl_app_cons r _ _ Z). now intros [= <- <-].
    - apply span_digits_some_app. }
  destruct (if strings.HasPrefix r [x30] then Some ([x30], tl r)
            else match json.span_digits r with
                 | ([], _) => None
                 | (ds, rest) => Some (ds, rest)
                 end) as [[ds r1]|] eqn:E; [|discriminate].
  rewrite (I ds r1 eq_refl).
  destruct (json.scan_fraction r1) as [[fs r2]|] eqn:F; [|discriminate].
  rewrite (scan_fraction_app r1 x fs r2 F).
  destruct (json.scan_exponent r2) as [[e r3]|] eqn:X; [|discriminate].
  rewrite (scan_exponent_app r2 x r3 e X).
  now intros [= <- <-].
Qed.

(** What starts as a number is read as one. *)
Lemma scan_value_number (t rest : gostring) (l : strconv.literal) (f : nat) (d : Z) :
  json.scan_number t = Some (l, rest) ->
  json.scan_value (S f) d t = Some (json.Number l, rest).
Proof.
  intro H. destruct t as [|b t]; [discriminate H|].
  destruct b; try (cbn in H; discriminate H);
    cbn [json.scan_value json.skip_space json.is_space]; now rewrite H.
Qed.

(** **** Integers *)

Lemma digit_byte (k : Z) :
  0 <= k < 10 ->
  let d := match Byte.of_N (Z.to_N (48 + k)) with
           | Some b => b
           | None => x30
           end in
  strconv.is_digit d = true /\ strconv.digit_val d = k /\ (d = x30 -> k = 0).
Proof.
  intro H.
  assert (k = 0 \/ k = 1 \/ k = 2 \/ k = 3 \/ k = 4 \/ k = 5 \/ k = 6
          \/ k = 7 \/ k = 8 \/ k = 9) as C by lia.
  repeat (destruct C as [-> | C]; [repeat split; try reflexivity; discriminate|]).
  subst. repeat split; try reflexivity; discriminate.
Qed.

Lemma digits_fuel_acc (f : nat) (n : Z) (acc : gostring) :
  strconv.digits_fuel f n acc = strconv.digits_fuel f n [] ++ acc.
Proof.
  revert n acc. induction f as [|f IH]; intros n acc; [reflexivity|].
  cbn [strconv.digits_fuel]. destruct (n <? 10); [reflexivity|].
  rewrite IH. rewrite (IH _ [_]). now rewrite <- app_assoc.
Qed.

Lemma digits_val_snoc (ds : gostring) (d : byte) :
  strconv.digits_val (ds ++ [d])
  = 10 * strconv.digits_val ds + strconv.digit_val d.
Proof. unfold strconv.digits_val. now rewrite fold_left_app. Qed.

Lemma digits_val_single (d : byte) :
  strconv.digits_val [d] = strconv.digit_val d.
Proof. unfold strconv.digits_val. cbn [fold_left]. lia. Qed.

Lemma log2_tenth (n : Z) : 10 <= n -> Z.log2 (n / 10) <= Z.log2 n - 1.
Proof.
  intro H.
  assert (Z.log2 (n / 10) <= Z.log2 (n / 2)).
  { apply Z.log2_le_mono. apply Z.div_le_compat_l; lia. }
  assert (Z.log2 (n / 2) = Z.log2 n - 1).
  { rewrite <- Z.div2_div, Z.div2_spec, Z.log2_shiftr by lia.
    assert (1 <= Z.log2 n) by (apply (Z.log2_le_mono 2 n); lia). lia. }
  lia.
Qed.

Lemma digits_fuel_spec (f : nat) (n : Z) :
  0 <= n -> Z.log2 n <= Z.of_nat f ->
  strconv.digits_val (strconv.digits_fuel f n []) = n
  /\ forallb strconv.is_digit (strconv.digits_fuel f n []) = true
  /\ strconv.digits_fuel f n [] <> []
  /\ (0 < n -> hd x30 (strconv.digits_fuel f n []) <> x30).
Proof.
  revert n. induction f as [|f IH]; intros n Hn Hl.
  - assert (n < 10).
    { destruct (Z.ltb_spec n 10); [assumption|]. exfalso.
      assert (3 <= Z.log2 n) by (apply (Z.log2_le_mono 8 n); lia). lia. }
    cbn [strconv.digits_fuel].
    destruct (digit_byte (n mod 10)) as (D1 & D2 & D3);
      [apply Z.mod_pos_bound; lia|].
    pose proof (Z.mod_small n 10) as M.
    repeat split.
    + rewrite digits_val_single, D2. lia.
    + cbn [forallb]. now rewrite D1.
    + discriminate.
    + intros Hp E. cbn [hd] in E. apply D3 in E. lia.
  - cbn [strconv.digits_fuel].
    destruct (digit_byte (n mod 10)) as (D1 & D2 & D3);
      [apply Z.mod_pos_bound; lia|].
    destruct (Z.ltb_spec n 10) as [L|L].
    + pose proof (Z.mod_small n 10) as M.
      repeat split.
      * rewrite digits_val_single, D2. lia.
      * cbn [forallb]. now rewrite D1.
      * discriminate.
      * intros Hp E. cbn [hd] in E. apply D3 in E. lia.
    + rewrite digits_fuel_acc.
      destruct (IH (n / 10)) as (I1 & I2 & I3 & I4).
      { apply Z.div_pos; lia. }
      { pose proof (log2_tenth n L). lia. }
      repeat split.
      * rewrite digits_val_snoc, I1, D2.
        pose proof (Z.div_mod n 10). lia.
      * rewrite forallb_app, I2. cbn [forallb]. now rewrite D1.
      * intro E. apply app_eq_nil in E as [_ E]. discriminate E.
      * intros _.
        destruct (strconv.digits_fuel f (n / 10) []) as [|b r]; [contradiction|].
        apply I4. apply Z.div_str_pos. lia.
Qed.

Lemma digits_of_spec (n : Z) :
  0 <= n ->
  strconv.digits_val (strconv.digits_of n) = n
  /\ forallb strconv.is_digit (strconv.digits_of n) = true
  /\ strconv.digits_of n <> []
  /\ (0 < n -> hd x30 (strconv.digits_of n) <> x30).
Proof.
  intro H. apply digits_fuel_spec; [assumption|].
  rewrite Z2Nat.id; [lia | apply Z.log2_nonneg].
Qed.

Lemma span_digits_all (ds : gostring) :
  forallb strconv.is_digit ds = true -> json.span_digits ds = (ds, []).
Proof.
  induction ds as [|b ds IH]; [reflexivity|].
  simpl. intro H. apply andb_true_iff in H as [Hb H].
  now rewrite Hb, IH.
Qed.

Lemma digits_not_prefixed (ds : gostring) (c : byte) :
  forallb strconv.is_digit ds = true -> strconv.is_digit c = false ->
  strings.HasPrefix ds [c] = false.
Proof.
  destruct ds as [|b ds]; [reflexivity|]. simpl.
  intros H Hc. apply andb_true_iff in H as [Hb _].
  destruct (Byte.eqb b c) eqn:E; [|reflexivity].
  apply byte_eqb_eq in E. congruence.
Qed.

Lemma scan_number_digits (neg : bool) (ds : gostring) :
  forallb strconv.is_digit ds = true -> ds <> [] ->
  (strings.HasPrefix ds [x30] = true -> ds = [x30]) ->
  json.scan_number ((if neg then [x2d] else []) ++ ds)
  = Some (strconv.mk_literal neg ds [] None, []).
Proof.
  intros D N Z0. rewrite scan_number_if. cbv zeta.
  assert (P : strings.HasPrefix ((if neg then [x2d] else []) ++ ds) [x2d] = neg).
  { destruct neg; [reflexivity|]. simpl app.
    now apply digits_not_prefixed. }
  rewrite P.
  assert ((if neg then tl ((if neg then [x2d] else []) ++ ds)
           else (if neg then [x2d] else []) ++ ds) = ds) as ->
    by (destruct neg; reflexivity).
  destruct (strings.HasPrefix ds [x30]) eqn:E.
  - rewrite (Z0 eq_refl). reflexivity.
  - rewrite span_digits_all by assumption.
    destruct ds; [contradiction | reflexivity].
Qed.

(** An int is read back from what [FormatInt] writes for it. *)
Lemma scan_number_FormatInt (n : Z) :
  in_int64 n ->
  exists l,
    json.scan_number (strconv.FormatInt n) = Some (l, [])
    /\ strconv.ParseInt l = Some n.
Proof.
  intro R. unfold in_int64 in R.
  exists (strconv.mk_literal (n <? 0) (strconv.digits_of (Z.abs n)) [] None).
  destruct (digits_of_spec (Z.abs n)) as (V & D & N & Z0); [lia|].
  split.
  - assert (F : strconv.FormatInt n
                = (if n <? 0 then [x2d] else []) ++ strconv.digits_of (Z.abs n)).
    { unfold strconv.FormatInt. destruct (Z.ltb_spec n 0).
      - now rewrite Z.abs_neq by lia.
      - now rewrite Z.abs_eq by lia. }
    rewrite F. apply scan_number_digits; try assumption.
    intro P. destruct (Z.eq_dec (Z.abs n) 0) as [E|E].
    + rewrite E. reflexivity.
    + apply HasPrefix_one_cons in P as [r P].
      exfalso. apply Z0; [lia|]. now rewrite P.
  - unfold strconv.ParseInt. cbn [strconv.lit_frac strconv.lit_exp
                                  strconv.lit_neg strconv.lit_int].
    rewrite V.
    assert ((if n <? 0 then - Z.abs n else Z.abs n) = n) as ->
      by (destruct (Z.ltb_spec n 0); lia).
    replace ((- 2 ^ 63 <=? n) && (n <=? 2 ^ 63 - 1)) with true; [reflexivity|].
    symmetry. apply andb_true_iff. split; apply Z.leb_le; lia.
Qed.

(** **** Floating-point numbers *)

Lemma float64_same_eq (x y : float64) : float64_same x y = true -> x = y.
Proof.
  destruct x as [a|a| |a m e], y as [b|b| |b n f]; simpl; try discriminate;
    try reflexivity.
  - intro H. apply Bool.eqb_prop in H. now subst.
  - intro H. apply Bool.eqb_prop in H. now subst.
  - intro H. apply andb_true_iff in H as [H E]. apply andb_true_iff in H as [S M].
    apply Bool.eqb_prop in S. apply Pos.eqb_eq in M. apply Z.eqb_eq in E.
    now subst.
Qed.

Lemma float_reads_back_inv (f : float64) :
  float_reads_back f = true ->
  exists t l,
    json.encode_float64 f = Some t
    /\ json.scan_number t = Some (l, [])
    /\ strconv.ParseFloat l = Some f.
Proof.
  unfold float_reads_back.
  destruct (json.encode_float64 f) as [t|] eqn:E; [|discriminate].
  destruct (json.scan_number t) as [[l [|b r]]|] eqn:S; try discriminate.
  destruct (strconv.ParseFloat l) as [y|] eqn:P; [|discriminate].
  intro H. apply float64_same_eq in H. subst. now exists t, l.
Qed.

(** *** Values *)

Lemma scan_value_string (s x : gostring) (f : nat) (d : Z) :
  valid_utf8 s ->
  json.scan_value (S f) d (json.encode_string s ++ x) = Some (json.String s, x).
Proof.
  intro H. unfold json.encode_string.
  change ((x22 :: json.encode_bytes (length s) s ++ [x22]) ++ x)
    with (x22 :: (json.encode_bytes (length s) s ++ [x22]) ++ x).
  rewrite <- app_assoc. simpl app at 2.
  cbn [json.scan_value json.skip_space json.is_space].
  rewrite scan_string_encode; [reflexivity | assumption | lia |].
  rewrite length_app. simpl. lia.
Qed.

Lemma scan_value_bool (b : bool) (x : gostring) (f : nat) (d : Z) :
  json.scan_value (S f) d (json.encode_bool b ++ x) = Some (json.Bool b, x).
Proof. destruct b; reflexivity. Qed.

Lemma scan_value_number_comma
    (t x : gostring) (l : strconv.literal) (f : nat) (d : Z) :
  json.scan_number t = Some (l, []) ->
  json.scan_value (S f) d (t ++ x2c :: x) = Some (json.Number l, x2c :: x).
Proof.
  intro H. apply scan_value_number.
  now rewrite (scan_number_app t x [] l H).
Qed.

(** **** Members of an object *)

Lemma scan_members_key (key r : gostring) (f : nat) (d : Z) :
  valid_utf8 key ->
  json.scan_members (S f) d (json.encode_string key ++ x3a :: r)
  = match json.scan_value f d r with
    | None => None
    | Some (v, r3) =>
      match json.skip_space r3 with
      | x7d :: r4 => Some ([(key, v)], r4)
      | x2c :: r4 =>
        match json.scan_members f d (json.skip_space r4) with
        | Some (ms, rest) => Some ((key, v) :: ms, rest)
        | None => None
        end
      | _ => None
      end
    end.
Proof.
  intro H. unfold json.encode_string.
  change ((x22 :: json.encode_bytes (length key) key ++ [x22]) ++ x3a :: r)
    with (x22 :: (json.encode_bytes (length key) key ++ [x22]) ++ x3a :: r).
  rewrite <- app_assoc. simpl app at 2.
  cbn [json.scan_members].
  rewrite scan_string_encode; [reflexivity | assumption | lia |].
  rewrite length_app. simpl. lia.
Qed.

Lemma scan_members_cons
    (key vt more rest : gostring) (v : json.value)
    (ms : list (gostring * json.value)) (nv nm : nat) (d : Z) :
  valid_utf8 key ->
  (forall f, (nv <= f)%nat ->
     json.scan_value f d (vt ++ x2c :: x22 :: more) = Some (v, x2c :: x22 :: more)) ->
  (forall f, (nm <= f)%nat ->
     json.scan_members f d (x22 :: more) = Some (ms, rest)) ->
  forall f, (S (Nat.max nv nm) <= f)%nat ->
    json.scan_members f d
      (json.encode_string key ++ x3a :: vt ++ x2c :: x22 :: more)
    = Some ((key, v) :: ms, rest).
Proof.
  intros Hk Hv Hm f Hf. destruct f as [|f]; [lia|].
  rewrite scan_members_key by assumption.
  rewrite Hv by lia. cbn [json.skip_space json.is_space].
  now rewrite Hm by lia.
Qed.

Lemma scan_members_last
    (key vt rest : gostring) (v : json.value) (nv : nat) (d : Z) :
  valid_utf8 key ->
  (forall f, (nv <= f)%nat ->
     json.scan_value f d (vt ++ x7d :: rest) = Some (v, x7d :: rest)) ->
  forall f, (S nv <= f)%nat ->
    json.scan_members f d (json.encode_string key ++ x3a :: vt ++ x7d :: rest)
    = Some ([(key, v)], rest).
Proof.
  intros Hk Hv f Hf. destruct f as [|f]; [lia|].
  rewrite scan_members_key by assumption.
  now rewrite Hv by lia.
Qed.

Lemma scan_value_object
    (mt rest : gostring) (ms : list (gostring * json.value)) (nm : nat) (d : Z) :
  0 <= d <= 100 ->
  (forall f, (nm <= f)%nat ->
     json.scan_members f (d + 1) (x22 :: mt) = Some (ms, rest)) ->
  forall f, (S nm <= f)%nat ->
    json.scan_value f d (x7b :: x22 :: mt) = Some (json.Object ms, rest).
Proof.
  intros Hd Hm f Hf. destruct f as [|f]; [lia|].
  cbn [json.scan_value json.skip_space json.is_space].
  replace (json.maxNestingDepth <? d + 1) with false
    by (symmetry; apply Z.ltb_ge; unfold json.maxNestingDepth; lia).
  now rewrite Hm by lia.
Qed.

(** **** Elements of an array *)

Section Elements.

Context {A : Type}.
Variable enc : A -> gostring.
Variable dec : A -> json.value -> option A.
Variable zero : A.
Variable P : A -> Prop.
Variable ne : nat.
Variable d : Z.

(** Every element is written with a quotation mark or a brace first,
    and is read back from what is written for it. *)
Hypothesis enc_head :
  forall a, exists t, enc a = x22 :: t \/ enc a = x7b :: t.
Hypothesis enc_reads :
  forall a, P a ->
    exists v,
      (forall f x, (ne <= f)%nat -> json.scan_value f (d + 1) (enc a ++ x) = Some (v, x))
      /\ (forall cur, dec cur v = Some a).

Lemma scan_elements_join (l : list A) (a : A) :
  Forall P (a :: l) ->
  exists vs,
    (forall f x, (ne + length (a :: l) <= f)%nat ->
       json.scan_elements f (d + 1)
         (json.join (str ",") (map enc (a :: l)) ++ x5d :: x)
       = Some (vs, x))
    /\ (forall old, json.decode_elements dec zero old vs = Some (a :: l)).
Proof.
  revert a. induction l as [|b l IH]; intros a H.
  - apply Forall_inv in H.
    destruct (enc_reads a H) as (v & Hs & Hd).
    exists [v]. split.
    + intros f x Hf. destruct f as [|f]; [simpl in Hf; lia|].
      cbn [map json.join json.scan_elements].
      rewrite Hs by (simpl in Hf; lia). reflexivity.
    + intro old. cbn [json.decode_elements]. now rewrite Hd.
  - pose proof (Forall_inv H) as Ha. apply Forall_inv_tail in H.
    destruct (enc_reads a Ha) as (v & Hs & Hd).
    destruct (IH b H) as (vs & Hvs & Hds).
    exists (v :: vs). split.
    + intros f x Hf. destruct f as [|f]; [simpl in Hf; lia|].
      change (json.join (str ",") (map enc (a :: b :: l)))
        with (enc a ++ str "," ++ json.join (str ",") (map enc (b :: l))).
      rewrite <- !app_assoc.
      change (str "," ++ json.join (str ",") (map enc (b :: l)) ++ x5d :: x)
        with (x2c :: json.join (str ",") (map enc (b :: l)) ++ x5d :: x).
      cbn [json.scan_elements].
      rewrite Hs by (simpl in Hf; lia).
      cbn [json.skip_space json.is_space].
      rewrite Hvs by (simpl in Hf |- *; lia). reflexivity.
    + intro old. cbn [json.decode_elements]. now rewrite Hd, Hds.
Qed.

Lemma scan_value_slice (s : slice A) :
  0 <= d <= 100 ->
  slice_all P s ->
  exists v,
    (forall f x, (ne + length (match s with Some l => l | None => [] end) + 2 <= f)%nat ->
       json.scan_value f d (json.encode_slice enc s ++ x) = Some (v, x))
    /\ (forall cur, json.decode_slice dec zero cur v = Some s).
Proof.
  intros Hd H. destruct s as [[|a l]|].
  - exists (json.Array []). split.
    + intros f x Hf. destruct f as [|f]; [lia|].
      cbn [json.scan_value json.skip_space json.is_space json.encode_slice
           map json.join app str String.list_byte_of_string].
      replace (json.maxNestingDepth <? d + 1) with false
        by (symmetry; apply Z.ltb_ge; unfold json.maxNestingDepth; lia).
      reflexivity.
    + reflexivity.
  - destruct (scan_elements_join l a) as (vs & Hs & Hdec); [exact H|].
    exists (json.Array vs). split.
    + intros f x Hf. destruct f as [|f]; [lia|].
      assert (E : json.encode_slice enc (Some (a :: l)) ++ x
                  = x5b :: (json.join (str ",") (map enc (a :: l)) ++ x5d :: x)).
      { unfold json.encode_slice. rewrite <- !app_assoc. reflexivity. }
      rewrite E. clear E.
      assert (exists t, json.join (str ",") (map enc (a :: l)) ++ x5d :: x
                        = x22 :: t
                        \/ json.join (str ",") (map enc (a :: l)) ++ x5d :: x
                           = x7b :: t) as (t & Ht).
      { destruct (enc_head a) as (t & [E|E]); cbn [map json.join];
          destruct l; cbn [map json.join]; rewrite E; eexists;
          ((left; reflexivity) || (right; reflexivity)). }
      specialize (Hs f x).
      destruct Ht as [Ht|Ht]; rewrite Ht in Hs |- *;
        cbn [json.scan_value json.skip_space json.is_space];
        (replace (json.maxNestingDepth <? d + 1) with false
          by (symmetry; apply Z.ltb_ge; unfold json.maxNestingDepth; lia));
        (rewrite Hs by (simpl length in *; lia)); reflexivity.
    + intro cur. cbn [json.decode_slice]. now rewrite Hdec.
  - exists json.Null. split.
    + intros f x Hf. destruct f as [|f]; [lia|]. reflexivity.
    + reflexivity.
Qed.

End Elements.

(** *** The records *)

Lemma valid_utf8_ascii (s : gostring) :
  forallb (fun b => (Byte.to_N b <? 128)%N) s = true -> valid_utf8 s.
Proof.
  induction s as [|b s IH]; [constructor|].
  simpl. intro H. apply andb_true_iff in H as [Hb H].
  change (b :: s) with ([b] ++ s). constructor.
  - discriminate.
  - unfold utf8.valid_width. now rewrite Hb.
  - now apply IH.
Qed.

Ltac key_valid := apply valid_utf8_ascii; reflexivity.

Lemma scan_members_next
    (key vt next rest : gostring) (v : json.value)
    (ms : list (gostring * json.value)) (nv nm : nat) (d : Z) :
  valid_utf8 key ->
  json.skip_space next = next ->
  (forall f, (nv <= f)%nat ->
     json.scan_value f d (vt ++ x2c :: next) = Some (v, x2c :: next)) ->
  (forall f, (nm <= f)%nat -> json.scan_members f d next = Some (ms, rest)) ->
  forall f, (S (Nat.max nv nm) <= f)%nat ->
    json.scan_members f d (json.encode_string key ++ x3a :: vt ++ x2c :: next)
    = Some ((key, v) :: ms, rest).
Proof.
  intros Hk Hn Hv Hm f Hf. destruct f as [|f]; [lia|].
  rewrite scan_members_key by assumption.
  rewrite Hv by lia. cbn [json.skip_space json.is_space].
  rewrite Hn. now rewrite Hm by lia.
Qed.

Lemma string_then (s next : gostring) (d : Z) :
  valid_utf8 s ->
  forall f, (1 <= f)%nat ->
    json.scan_value f d (json.encode_string s ++ x2c :: next)
    = Some (json.String s, x2c :: next).
Proof.
  intros H f Hf. destruct f as [|f]; [lia|]. now apply scan_value_string.
Qed.

Lemma string_last (s rest : gostring) (d : Z) :
  valid_utf8 s ->
  forall f, (1 <= f)%nat ->
    json.scan_value f d (json.encode_string s ++ x7d :: rest)
    = Some (json.String s, x7d :: rest).
Proof.
  intros H f Hf. destruct f as [|f]; [lia|]. now apply scan_value_string.
Qed.

Lemma number_then (t next : gostring) (l : strconv.literal) (d : Z) :
  json.scan_number t = Some (l, []) ->
  forall f, (1 <= f)%nat ->
    json.scan_value f d (t ++ x2c :: next) = Some (json.Number l, x2c :: next).
Proof.
  intros H f Hf. destruct f as [|f]; [lia|]. now apply scan_value_number_comma.
Qed.

Lemma bool_then (b : bool) (next : gostring) (d : Z) :
  forall f, (1 <= f)%nat ->
    json.scan_value f d (json.encode_bool b ++ x2c :: next)
    = Some (json.Bool b, x2c :: next).
Proof.
  intros f Hf. destruct f as [|f]; [lia|]. apply scan_value_bool.
Qed.

(** One member after the other: the bound on the fuel goes down by one
    with each. *)
Ltac member n value :=
  let f := fresh "f" in
  let Hf := fresh "Hf" in
  intros f Hf;
  apply (scan_members_next _ _ _ _ _ _ 1 n);
  [key_valid | reflexivity | value | | lia].

Ltac last_member value :=
  let f := fresh "f" in
  let Hf := fresh "Hf" in
  intros f Hf;
  apply (scan_members_last _ _ _ _ 1); [key_valid | value | lia].

(** The text of [encode_CodeIssue] as the scanner meets it. *)
Lemma encode_CodeIssue_text (c : CodeIssue.t) (x : gostring) :
  json.encode_CodeIssue c ++ x
  = x7b :: json.encode_string "type" ++ x3a
    :: json.encode_string (CodeIssue.Type_ c) ++ x2c
    :: json.encode_string "severity" ++ x3a
    :: json.encode_string (CodeIssue.Severity c) ++ x2c
    :: json.encode_string "line_number" ++ x3a
    :: strconv.FormatInt (CodeIssue.LineNumber c) ++ x2c
    :: json.encode_string "description" ++ x3a
    :: json.encode_string (CodeIssue.Description c) ++ x2c
    :: json.encode_string "solution" ++ x3a
    :: json.encode_string (CodeIssue.Solution c) ++ x7d :: x.
Proof.
  unfold json.encode_CodeIssue. rewrite <- !app_assoc. reflexivity.
Qed.

Lemma CodeIssue_reads (c : CodeIssue.t) :
  issue_ok c ->
  exists v,
    (forall d f x, 0 <= d <= 100 -> (7 <= f)%nat ->
       json.scan_value f d (json.encode_CodeIssue c ++ x) = Some (v, x))
    /\ (forall cur, json.decode_struct json.store_CodeIssue cur v = Some c).
Proof.
  intros (Ht & Hs & Hl & Hd & Ho).
  destruct (scan_number_FormatInt _ Hl) as (l & Sl & Pl).
  exists (json.Object [(str "type", json.String (CodeIssue.Type_ c));
                       (str "severity", json.String (CodeIssue.Severity c));
                       (str "line_number", json.Number l);
                       (str "description", json.String (CodeIssue.Description c));
                       (str "solution", json.String (CodeIssue.Solution c))]).
  split.
  - intros d f x Hdep Hf. rewrite encode_CodeIssue_text.
    apply (scan_value_object _ _ _ 6); [assumption | | assumption].
    member 5%nat ltac:(now apply string_then).
    member 4%nat ltac:(now apply string_then).
    member 3%nat ltac:(now apply number_then).
    member 2%nat ltac:(now apply string_then).
    last_member ltac:(now apply string_last).
  - intros [ty sev line desc sol]. destruct c as [ty' sev' line' desc' sol'].
    cbn. cbn in Pl. rewrite Pl. reflexivity.
Qed.

Lemma encode_CodeSuggestion_text (c : CodeSuggestion.t) (x : gostring) :
  json.encode_CodeSuggestion c ++ x
  = x7b :: json.encode_string "category" ++ x3a
    :: json.encode_string (CodeSuggestion.Category c) ++ x2c
    :: json.encode_string "priority" ++ x3a
    :: json.encode_string (CodeSuggestion.Priority c) ++ x2c
    :: json.encode_string "description" ++ x3a
    :: json.encode_string (CodeSuggestion.Description c) ++ x2c
    :: json.encode_string "example" ++ x3a
    :: json.encode_string (CodeSuggestion.Example c) ++ x7d :: x.
Proof.
  unfold json.encode_CodeSuggestion. rewrite <- !app_assoc. reflexivity.
Qed.

Lemma CodeSuggestion_reads (c : CodeSuggestion.t) :
  suggestion_ok c ->
  exists v,
    (forall d f x, 0 <= d <= 100 -> (6 <= f)%nat ->
       json.scan_value f d (json.encode_CodeSuggestion c ++ x) = Some (v, x))
    /\ (forall cur, json.decode_struct json.store_CodeSuggestion cur v = Some c).
Proof.
  intros (Hc & Hp & Hd & He).
  exists (json.Object
            [(str "category", json.String (CodeSuggestion.Category c));
             (str "priority", json.String (CodeSuggestion.Priority c));
             (str "description", json.String (CodeSuggestion.Description c));
             (str "example", json.String (CodeSuggestion.Example c))]).
  split.
  - intros d f x Hdep Hf. rewrite encode_CodeSuggestion_text.
    apply (scan_value_object _ _ _ 5); [assumption | | assumption].
    member 4%nat ltac:(now apply string_then).
    member 3%nat ltac:(now apply string_then).
    member 2%nat ltac:(now apply string_then).
    last_member ltac:(now apply string_last).
  - intros [cat prio desc ex]. destruct c as [cat' prio' desc' ex'].
    reflexivity.
Qed.

Lemma encode_ComplexityAnalysis_text (c : ComplexityAnalysis.t) (x : gostring) :
  json.encode_ComplexityAnalysis c ++ x
  = x7b :: json.encode_string "time_complexity" ++ x3a
    :: json.encode_string (ComplexityAnalysis.TimeComplexity c) ++ x2c
    :: json.encode_string "space_complexity" ++ x3a
    :: json.encode_string (ComplexityAnalysis.SpaceComplexity c) ++ x2c
    :: json.encode_string "can_optimize" ++ x3a
    :: json.encode_bool (ComplexityAnalysis.CanOptimize c) ++ x2c
    :: json.encode_string "optimized_approach" ++ x3a
    :: json.encode_string (ComplexityAnalysis.OptimizedApproach c) ++ x7d :: x.
Proof.
  unfold json.encode_ComplexityAnalysis. rewrite <- !app_assoc. reflexivity.
Qed.

Lemma ComplexityAnalysis_reads (c : ComplexityAnalysis.t) :
  complexity_ok c ->
  exists v,
    (forall d f x, 0 <= d <= 100 -> (6 <= f)%nat ->
       json.scan_value f d (json.encode_ComplexityAnalysis c ++ x) = Some (v, x))
    /\ (forall cur, json.decode_struct json.store_ComplexityAnalysis cur v = Some c).
Proof.
  intros (Ht & Hs & Ho).
  exists (json.Object
            [(str "time_complexity",
              json.String (ComplexityAnalysis.TimeComplexity c));
             (str "space_complexity",
              json.String (ComplexityAnalysis.SpaceComplexity c));
             (str "can_optimize", json.Bool (ComplexityAnalysis.CanOptimize c));
             (str "optimized_approach",
              json.String (ComplexityAnalysis.OptimizedApproach c))]).
  split.
  - intros d f x Hdep Hf. rewrite encode_ComplexityAnalysis_text.
    apply (scan_value_object _ _ _ 5); [assumption | | assumption].
    member 4%nat ltac:(now apply string_then).
    member 3%nat ltac:(now apply string_then).
    member 2%nat ltac:(now apply bool_then).
    last_member ltac:(now apply string_last).
  - intros [tc sc can opt]. destruct c as [tc' sc' can' opt'].
    reflexivity.
Qed.

(** **** The three slices *)

Lemma issues_read (s : slice CodeIssue.t) :
  slice_all issue_ok s ->
  exists v,
    (forall f x,
       (9 + length (match s with Some l => l | None => [] end) <= f)%nat ->
       json.scan_value f 1 (json.encode_slice json.encode_CodeIssue s ++ x)
       = Some (v, x))
    /\ (forall cur,
          json.decode_slice (json.decode_struct json.store_CodeIssue)
            json.zero_CodeIssue cur v = Some s).
Proof.
  intro H.
  destruct (scan_value_slice json.encode_CodeIssue
              (json.decode_struct json.store_CodeIssue) json.zero_CodeIssue
              issue_ok 7 1) with (s := s) as (v & Hs & Hd); try assumption; try lia.
  - intro a. eexists. right. unfold json.encode_CodeIssue. reflexivity.
  - intros a Ha. destruct (CodeIssue_reads a Ha) as (v & Hs & Hd).
    exists v. split; [|assumption]. intros f x Hf. apply Hs; [lia | assumption].
  - exists v. split; [|assumption]. intros f x Hf. apply Hs. lia.
Qed.

Lemma suggestions_read (s : slice CodeSuggestion.t) :
  slice_all suggestion_ok s ->
  exists v,
    (forall f x,
       (8 + length (match s with Some l => l | None => [] end) <= f)%nat ->
       json.scan_value f 1 (json.encode_slice json.encode_CodeSuggestion s ++ x)
       = Some (v, x))
    /\ (forall cur,
          json.decode_slice (json.decode_struct json.store_CodeSuggestion)
            json.zero_CodeSuggestion cur v = Some s).
Proof.
  intro H.
  destruct (scan_value_slice json.encode_CodeSuggestion
              (json.decode_struct json.store_CodeSuggestion)
              json.zero_CodeSuggestion suggestion_ok 6 1) with (s := s)
    as (v & Hs & Hd); try assumption; try lia.
  - intro a. eexists. right. unfold json.encode_CodeSuggestion. reflexivity.
  - intros a Ha. destruct (CodeSuggestion_reads a Ha) as (v & Hs & Hd).
    exists v. split; [|assumption]. intros f x Hf. apply Hs; [lia | assumption].
  - exists v. split; [|assumption]. intros f x Hf. apply Hs. lia.
Qed.

Lemma questions_read (s : slice gostring) :
  slice_all valid_utf8 s ->
  exists v,
    (forall f x,
       (3 + length (match s with Some l => l | None => [] end) <= f)%nat ->
       json.scan_value f 1 (json.encode_slice json.encode_string s ++ x)
       = Some (v, x))
    /\ (forall cur, json.decode_slice json.decode_string [] cur v = Some s).
Proof.
  intro H.
  destruct (scan_value_slice json.encode_string json.decode_string []
              valid_utf8 1 1) with (s := s)
    as (v & Hs & Hd); try assumption; try lia.
  - intro a. eexists. left. reflexivity.
  - intros a Ha. exists (json.String a). split; [|reflexivity].
    intros f x Hf. destruct f as [|f]; [lia|]. now apply scan_value_string.
  - exists v. split; [|assumption]. intros f x Hf. apply Hs. lia.
Qed.

(** *** The review *)

Ltac member_of nv nm value :=
  let f := fresh "f" in
  let Hf := fresh "Hf" in
  intros f Hf;
  apply (scan_members_next _ _ _ _ _ _ nv nm);
  [key_valid | reflexivity | value | | lia].

Lemma join_length {A : Type} (enc : A -> gostring) (sep : gostring) (l : list A) :
  (forall a, (1 <= length (enc a))%nat) ->
  (length l <= length (json.join sep (map enc l)))%nat.
Proof.
  intro H. induction l as [|a l IH]; [simpl; lia|].
  change (length (a :: l)) with (S (length l)).
  change (map enc (a :: l)) with (enc a :: map enc l).
  destruct (map enc l) as [|g m] eqn:E.
  - destruct l; [|discriminate E]. simpl. apply H.
  - change (json.join sep (enc a :: g :: m))
      with (enc a ++ sep ++ json.join sep (g :: m)).
    rewrite !length_app. pose proof (H a). lia.
Qed.

Lemma encode_slice_length {A : Type} (enc : A -> gostring) (s : slice A) :
  (forall a, (1 <= length (enc a))%nat) ->
  (length (match s with Some l => l | None => [] end)
   <= length (json.encode_slice enc s))%nat.
Proof.
  intro H. destruct s as [l|]; [|simpl; lia].
  unfold json.encode_slice. rewrite !length_app.
  pose proof (join_length enc (str ",") l H). lia.
Qed.

Lemma encode_string_length (s : gostring) :
  (1 <= length (json.encode_string s))%nat.
Proof. unfold json.encode_string. simpl. lia. Qed.

Lemma encode_CodeIssue_length (c : CodeIssue.t) :
  (1 <= length (json.encode_CodeIssue c))%nat.
Proof.
  rewrite <- (app_nil_r (json.encode_CodeIssue c)), encode_CodeIssue_text.
  simpl. lia.
Qed.

Lemma encode_CodeSuggestion_length (c : CodeSuggestion.t) :
  (1 <= length (json.encode_CodeSuggestion c))%nat.
Proof.
  rewrite <- (app_nil_r (json.encode_CodeSuggestion c)), encode_CodeSuggestion_text.
  simpl. lia.
Qed.

(** The text of [Marshal] as the scanner meets it. *)
Lemma Marshal_text (r : AICodeReview) (score readability : gostring) :
  json.text "{'overall_score':" ++ score
  ++ json.text ",'issues':" ++ json.encode_slice json.encode_CodeIssue (Issues r)
  ++ json.text ",'suggestions':"
  ++ json.encode_slice json.encode_CodeSuggestion (Suggestions r)
  ++ json.text ",'interviewer_feedback':"
  ++ json.encode_string (InterviewerFeedback r)
  ++ json.text ",'follow_up_questions':"
  ++ json.encode_slice json.encode_string (FollowUpQuestions r)
  ++ json.text ",'complexity':" ++ json.encode_ComplexityAnalysis (Complexity r)
  ++ json.text ",'readability_score':" ++ readability
  ++ json.text ",'test_coverage':" ++ json.encode_string (TestCoverage r)
  ++ str "}"
  = x7b :: json.encode_string "overall_score" ++ x3a
    :: score ++ x2c
    :: json.encode_string "issues" ++ x3a
    :: json.encode_slice json.encode_CodeIssue (Issues r) ++ x2c
    :: json.encode_string "suggestions" ++ x3a
    :: json.encode_slice json.encode_CodeSuggestion (Suggestions r) ++ x2c
    :: json.encode_string "interviewer_feedback" ++ x3a
    :: json.encode_string (InterviewerFeedback r) ++ x2c
    :: json.encode_string "follow_up_questions" ++ x3a
    :: json.encode_slice json.encode_string (FollowUpQuestions r) ++ x2c
    :: json.encode_string "complexity" ++ x3a
    :: json.encode_ComplexityAnalysis (Complexity r) ++ x2c
    :: json.encode_string "readability_score" ++ x3a
    :: readability ++ x2c
    :: json.encode_string "test_coverage" ++ x3a
    :: json.encode_string (TestCoverage r) ++ x7d :: [].
Proof. reflexivity. Qed.

(** A review of valid strings and 64-bit line numbers, whose two scores
    are written in digits that read back, is read back by [Unmarshal]
    from what [Marshal] writes for it. *)
Lemma Unmarshal_Marshal (r : AICodeReview) (j : gostring) :
  review_ok r ->
  float_reads_back (OverallScore r) = true ->
  float_reads_back (ReadabilityScore r) = true ->
  json.Marshal_AICodeReview r = Some j ->
  json.Unmarshal_AICodeReview j = Some r.
Proof.
  intros (Hi & Hs & Hfb & Hq & Hc & Ht) F1 F2 M.
  destruct (float_reads_back_inv _ F1) as (t1 & l1 & E1 & S1 & P1).
  destruct (float_reads_back_inv _ F2) as (t2 & l2 & E2 & S2 & P2).
  unfold json.Marshal_AICodeReview in M. rewrite E1, E2 in M.
  apply (f_equal (fun o => match o with Some x => x | None => [] end)) in M.
  cbv beta iota in M. subst j. rewrite Marshal_text.
  destruct (issues_read _ Hi) as (vi & Si & Di).
  destruct (suggestions_read _ Hs) as (vs & Ss & Ds).
  destruct (questions_read _ Hq) as (vq & Sq & Dq).
  destruct (ComplexityAnalysis_reads _ Hc) as (vc & Sc & Dc).
  pose proof (encode_slice_length json.encode_CodeIssue (Issues r)
                encode_CodeIssue_length) as Li.
  pose proof (encode_slice_length json.encode_CodeSuggestion (Suggestions r)
                encode_CodeSuggestion_length) as Ls.
  pose proof (encode_slice_length json.encode_string (FollowUpQuestions r)
                encode_string_length) as Lq.
  set (li := length (match Issues r with Some l => l | None => [] end)) in *.
  set (ls := length (match Suggestions r with Some l => l | None => [] end)) in *.
  set (lq := length (match FollowUpQuestions r with Some l => l | None => [] end)) in *.
  unfold json.Unmarshal_AICodeReview, json.parse.
  match goal with
  | |- context [json.scan_value ?f 0 ?text] =>
    assert (Sc0 : json.scan_value f 0 text
                  = Some (json.Object
                            [(str "overall_score", json.Number l1);
                             (str "issues", vi);
                             (str "suggestions", vs);
                             (str "interviewer_feedback",
                              json.String (InterviewerFeedback r));
                             (str "follow_up_questions", vq);
                             (str "complexity", vc);
                             (str "readability_score", json.Number l2);
                             (str "test_coverage", json.String (TestCoverage r))],
                          []))
  end.
  { apply (scan_value_object _ _ _ (12 + li + ls + lq)); [lia | |].
    - member_of 1%nat (11 + li + ls + lq)%nat ltac:(now apply number_then).
      member_of (9 + li)%nat (10 + ls + lq)%nat ltac:(intros; now apply Si).
      member_of (8 + ls)%nat (9 + lq)%nat ltac:(intros; now apply Ss).
      member_of 1%nat (8 + lq)%nat ltac:(now apply string_then).
      member_of (3 + lq)%nat 7%nat ltac:(intros; now apply Sq).
      member_of 6%nat 3%nat ltac:(intros; apply Sc; [lia | assumption]).
      member_of 1%nat 2%nat ltac:(now apply number_then).
      last_member ltac:(now apply string_last).
    - repeat (rewrite length_app || cbn [length]). lia. }
  rewrite Sc0. clear - P1 P2 Di Ds Dq Dc.
  cbn [json.skip_space json.decode_struct].
  destruct r as [score issues suggs fb qs cx read cov].
  cbn [OverallScore Issues Suggestions InterviewerFeedback FollowUpQuestions
       Complexity ReadabilityScore TestCoverage] in *.
  unfold json.zero_AICodeReview.
  repeat (cbn [json.decode_members json.store_AICodeReview];
          repeat match goal with
                 | |- context [json.names ?a ?b] =>
                   let v := eval vm_compute in (json.names a b) in
                   change (json.names a b) with v
                 end;
          cbv beta iota;
          cbn [json.decode_float64 json.decode_string];
          rewrite ?P1, ?Di, ?Ds, ?Dq, ?Dc, ?P2;
          cbn [option_map]).
  reflexivity.
Qed.

(** *** What the decoder delivers *)

(** **** The strings of a document are valid UTF-8 *)

Lemma forallb_range (p : Z -> bool) (n : nat) :
  forallb p (map Z.of_nat (seq 0 n)) = true ->
  forall z, 0 <= z < Z.of_nat n -> p z = true.
Proof.
  intros H z Hz. rewrite forallb_forall in H. apply H.
  rewrite <- (Z2Nat.id z) by lia. apply in_map, in_seq. lia.
Qed.

Lemma ascii_byte (r : Z) :
  0 <= r < 128 -> (Byte.to_N (json.byte_of_Z r) <? 128)%N = true.
Proof.
  apply (forallb_range (fun r => (Byte.to_N (json.byte_of_Z r) <? 128)%N) 128).
  vm_compute. reflexivity.
Qed.

Lemma cont_byte (m : Z) :
  0 <= m < 64 -> utf8.is_cont (json.byte_of_Z (128 + m)) = true.
Proof.
  apply (forallb_range (fun m => utf8.is_cont (json.byte_of_Z (128 + m))) 64).
  vm_compute. reflexivity.
Qed.

Lemma lead2_byte (q : Z) :
  2 <= q < 32 ->
  (Byte.to_N (json.byte_of_Z (192 + q)) <? 128)%N = false
  /\ utf8.in_range xc2 xdf (json.byte_of_Z (192 + q)) = true.
Proof.
  intro H.
  pose (p := (fun q => (q <? 2)
                || negb (Byte.to_N (json.byte_of_Z (192 + q)) <? 128)%N
                   && utf8.in_range xc2 xdf (json.byte_of_Z (192 + q)))).
  assert (C : p q = true)
    by (apply (forallb_range p 32); [vm_compute; reflexivity | lia]).
  unfold p in C. clear p.
  cbv beta in C. replace (q <? 2) with false in C by (symmetry; apply Z.ltb_ge; lia).
  apply andb_true_iff in C as [A B]. apply negb_true_iff in A. now split.
Qed.

(** The first two bytes of an encoding of three bytes, by the rune
    divided by 64. *)
Lemma lead3_bytes (k : Z) :
  32 <= k < 1024 -> ~ (864 <= k < 896) ->
  let b0 := json.byte_of_Z (224 + k / 64) in
  let b1 := json.byte_of_Z (128 + k mod 64) in
  (Byte.to_N b0 <? 128)%N = false
  /\ utf8.in_range xc2 xdf b0 = false
  /\ utf8.in_range xe0 xef b0 = true
  /\ (if Byte.eqb b0 xe0 then utf8.in_range xa0 xbf b1
      else if Byte.eqb b0 xed then utf8.in_range x80 x9f b1
      else utf8.is_cont b1) = true.
Proof.
  intros H S.
  pose (p := (fun k =>
                 (k <? 32) || ((864 <=? k) && (k <? 896))
                 || (let b0 := json.byte_of_Z (224 + k / 64) in
                     let b1 := json.byte_of_Z (128 + k mod 64) in
                     negb (Byte.to_N b0 <? 128)%N
                     && negb (utf8.in_range xc2 xdf b0)
                     && utf8.in_range xe0 xef b0
                     && (if Byte.eqb b0 xe0 then utf8.in_range xa0 xbf b1
                         else if Byte.eqb b0 xed then utf8.in_range x80 x9f b1
                         else utf8.is_cont b1)))).
  assert (C : p k = true)
    by (apply (forallb_range p 1024); [vm_compute; reflexivity | lia]).
  unfold p in C. clear p.
  cbv beta zeta in C.
  replace (k <? 32) with false in C by (symmetry; apply Z.ltb_ge; lia).
  replace ((864 <=? k) && (k <? 896)) with false in C.
  2:{ symmetry. apply andb_false_iff.
      destruct (Z.leb_spec 864 k); [right; apply Z.ltb_ge; lia | now left]. }
  cbn [orb] in C.
  apply andb_true_iff in C as [C C4]. apply andb_true_iff in C as [C C3].
  apply andb_true_iff in C as [C1 C2].
  apply negb_true_iff in C1, C2. cbv zeta. now repeat split.
Qed.

(** The first two bytes of an encoding of four bytes, by the rune
    divided by 4096. *)
Lemma lead4_bytes (k : Z) :
  16 <= k < 272 ->
  let b0 := json.byte_of_Z (240 + k / 64) in
  let b1 := json.byte_of_Z (128 + k mod 64) in
  (Byte.to_N b0 <? 128)%N = false
  /\ utf8.in_range xc2 xdf b0 = false
  /\ utf8.in_range xe0 xef b0 = false
  /\ (utf8.in_range xf0 xf4 b0
      && (if Byte.eqb b0 xf0 then utf8.in_range x90 xbf b1
          else if Byte.eqb b0 xf4 then utf8.in_range x80 x8f b1
          else utf8.is_cont b1)) = true.
Proof.
  intros H.
  pose (p := (fun k =>
                 (k <? 16)
                 || (let b0 := json.byte_of_Z (240 + k / 64) in
                     let b1 := json.byte_of_Z (128 + k mod 64) in
                     negb (Byte.to_N b0 <? 128)%N
                     && negb (utf8.in_range xc2 xdf b0)
                     && negb (utf8.in_range xe0 xef b0)
                     && (utf8.in_range xf0 xf4 b0
                         && (if Byte.eqb b0 xf0 then utf8.in_range x90 xbf b1
                             else if Byte.eqb b0 xf4 then utf8.in_range x80 x8f b1
                             else utf8.is_cont b1))))).
  assert (C : p k = true)
    by (apply (forallb_range p 272); [vm_compute; reflexivity | lia]).
  unfold p in C. clear p.
  cbv beta zeta in C.
  replace (k <? 16) with false in C by (symmetry; apply Z.ltb_ge; lia).
  cbn [orb] in C.
  apply andb_true_iff in C as [C C4]. apply andb_true_iff in C as [C C3].
  apply andb_true_iff in C as [C1 C2].
  apply negb_true_iff in C1, C2, C3. cbv zeta. now repeat split.
Qed.

(** [EncodeRune] writes a valid encoding of every rune that is not a
    surrogate. *)
Lemma encode_rune_valid (r : Z) :
  0 <= r < 1114112 -> json.is_surrogate r = false ->
  valid_utf8 (json.encode_rune r).
Proof.
  intros H S. apply valid_utf8_one.
  { unfold json.encode_rune. repeat destruct (_ <? _); discriminate. }
  unfold json.encode_rune.
  destruct (Z.ltb_spec r 128) as [L1|L1].
  { unfold utf8.valid_width. now rewrite ascii_byte by lia. }
  destruct (Z.ltb_spec r 2048) as [L2|L2].
  { destruct (lead2_byte (r / 64)) as [A B].
    { split; [apply Z.div_le_lower_bound; lia | apply Z.div_lt_upper_bound; lia]. }
    unfold utf8.valid_width. rewrite A, B, cont_byte; [reflexivity|].
    apply Z.mod_pos_bound. lia. }
  destruct (Z.ltb_spec r 65536) as [L3|L3].
  { destruct (lead3_bytes (r / 64)) as (A & B & C & D).
    { split; [apply Z.div_le_lower_bound; lia | apply Z.div_lt_upper_bound; lia]. }
    { intros [K1 K2]. unfold json.is_surrogate in S.
      apply andb_false_iff in S as [S|S];
        [apply Z.leb_gt in S | apply Z.ltb_ge in S].
      - assert (r / 64 < 864) by (apply Z.div_lt_upper_bound; lia). lia.
      - assert (896 <= r / 64) by (apply Z.div_le_lower_bound; lia). lia. }
    cbv zeta in *.
    replace (r / 4096) with (r / 64 / 64) by (rewrite Z.div_div by lia; reflexivity).
    unfold utf8.valid_width. rewrite A, B, C, D, cont_byte; [reflexivity|].
    apply Z.mod_pos_bound. lia. }
  destruct (lead4_bytes (r / 4096)) as (A & B & C & D).
  { split; [apply Z.div_le_lower_bound; lia | apply Z.div_lt_upper_bound; lia]. }
  cbv zeta in *.
  replace (r / 262144) with (r / 4096 / 64) by (rewrite Z.div_div by lia; reflexivity).
  unfold utf8.valid_width. rewrite A, B, C, D, !cont_byte; [reflexivity| |];
    apply Z.mod_pos_bound; lia.
Qed.

Lemma hex_val_range (b : byte) (v : Z) : json.hex_val b = Some v -> 0 <= v < 16.
Proof. destruct b; cbn; intros [= <-]; lia. Qed.

Lemma hex4_range (s r : gostring) (v : Z) :
  json.hex4 s = Some (v, r) -> 0 <= v < 65536.
Proof.
  unfold json.hex4.
  destruct s as [|a [|b [|c [|d s]]]]; try discriminate.
  destruct (json.hex_val a) as [va|] eqn:A; [|discriminate].
  destruct (json.hex_val b) as [vb|] eqn:B; [|discriminate].
  destruct (json.hex_val c) as [vc|] eqn:C; [|discriminate].
  destruct (json.hex_val d) as [vd|] eqn:D; [|discriminate].
  apply hex_val_range in A, B, C, D. intros [= <- _]. lia.
Qed.

Lemma decode_surrogates_range (r1 r2 v : Z) :
  json.decode_surrogates r1 r2 = Some v ->
  65536 <= v < 1114112 /\ json.is_surrogate v = false.
Proof.
  unfold json.decode_surrogates.
  destruct (_ && _ && _ && _) eqn:E; [|discriminate].
  intros [= <-].
  apply andb_true_iff in E as [E E4]. apply andb_true_iff in E as [E E3].
  apply andb_true_iff in E as [E1 E2].
  apply Z.leb_le in E1, E3. apply Z.ltb_lt in E2, E4.
  split; [lia|]. unfold json.is_surrogate.
  apply andb_false_iff. right. apply Z.ltb_ge. lia.
Qed.

Lemma valid_utf8_byte (b : byte) :
  (Byte.to_N b <? 128)%N = true -> valid_utf8 [b].
Proof.
  intro H. apply valid_utf8_one; [discriminate|].
  unfold utf8.valid_width. now rewrite H.
Qed.

Lemma replacement_char_valid : valid_utf8 json.replacement_char.
Proof. apply valid_utf8_one; [discriminate | reflexivity]. Qed.

Lemma valid_width_firstn (s : gostring) (w : nat) :
  utf8.valid_width s = S w ->
  firstn (S w) s <> [] /\ utf8.valid_width (firstn (S w) s) = length (firstn (S w) s).
Proof.
  intro H.
  destruct s as [|b0 [|b1 [|b2 [|b3 s]]]];
    cbn [utf8.valid_width] in H;
    repeat match type of H with
           | context [if ?c then _ else _] => destruct c eqn:?
           end;
    try discriminate H; injection H as <-;
    (split; [discriminate|]);
    cbn [firstn utf8.valid_width length];
    repeat match goal with
           | E : ?c = _ |- context [if ?c then _ else _] => rewrite E
           end;
    reflexivity.
Qed.

Lemma continue_valid (f : nat) (pre x o rest : gostring) :
  (forall s out rest', json.scan_string f s = Some (out, rest') -> valid_utf8 out) ->
  match json.scan_string f x with
  | Some (tl, rest') => Some (pre ++ tl, rest')
  | None => None
  end = Some (o, rest) ->
  valid_utf8 pre -> valid_utf8 o.
Proof.
  intros IH H V.
  destruct (json.scan_string f x) as [[tl r']|] eqn:E; [|discriminate H].
  assert (O : o = pre ++ tl) by congruence. subst o.
  apply valid_utf8_app; [assumption | eapply IH; eassumption].
Qed.

Ltac emitted IH H := apply (continue_valid _ _ _ _ _ IH H).

Lemma scan_string_plain (c : byte) (r : gostring) (f : nat) :
  (Byte.to_N c <? 128)%N = true -> c <> x22 -> c <> x5c ->
  json.scan_string (S f) (c :: r)
  = if (Byte.to_N c <? 32)%N then None
    else match json.scan_string f r with
         | Some (tl, rest) => Some ([c] ++ tl, rest)
         | None => None
         end.
Proof.
  intros A Q B. destruct c; try discriminate A; try reflexivity; contradiction.
Qed.

(** What the scanner reads as a string is valid UTF-8. *)
Lemma scan_string_valid (f : nat) :
  forall s out rest,
    json.scan_string f s = Some (out, rest) -> valid_utf8 out.
Proof.
  induction f as [|f IH]; intros s out rest H; [discriminate H|].
  destruct s as [|c r]; [discriminate H|].
  destruct ((Byte.to_N c <? 128)%N) eqn:A.
  - destruct (Byte.byte_eq_dec c x22) as [->|Q].
    { cbn [json.scan_string] in H. injection H as <- <-. constructor. }
    destruct (Byte.byte_eq_dec c x5c) as [->|B].
    2:{ rewrite scan_string_plain in H by assumption.
        destruct ((Byte.to_N c <? 32)%N); [discriminate H|].
        emitted IH H. now apply valid_utf8_byte. }
    (* the escapes *)
    cbn [json.scan_string] in H.
    destruct r as [|c2 r]; [discriminate H|].
    destruct c2; cbv beta iota in H; try discriminate H;
      try (emitted IH H; apply valid_utf8_byte; reflexivity).
    destruct (json.hex4 r) as [[rr r']|] eqn:X; [|discriminate H].
    pose proof (hex4_range _ _ _ X) as Rr.
    destruct (json.is_surrogate rr) eqn:S.
    + assert (D : forall o, (match json.scan_string f r' with
                            | Some (tl, rest') =>
                              Some (json.replacement_char ++ tl, rest')
                            | None => None
                            end = Some (o, rest)) -> valid_utf8 o).
      { intros o Ho. emitted IH Ho. apply replacement_char_valid. }
      destruct r' as [|a r']; [apply D; exact H|].
      destruct a; try (apply D; exact H).
      destruct r' as [|b r']; [apply D; exact H|].
      destruct b; try (apply D; exact H).
      destruct (json.hex4 r') as [[rr1 r4]|] eqn:X1; [|now apply D].
      destruct (json.decode_surrogates rr rr1) as [dec|] eqn:Ds; [|now apply D].
      apply decode_surrogates_range in Ds as [Rd Sd].
      emitted IH H. apply encode_rune_valid; [lia | assumption].
    + emitted IH H. apply encode_rune_valid; [lia | assumption].
  - rewrite scan_string_rune in H by assumption.
    destruct (utf8.valid_width (c :: r)) as [|w] eqn:W.
    + emitted IH H. apply replacement_char_valid.
    + emitted IH H.
      destruct (valid_width_firstn _ _ W) as [N V].
      now apply valid_utf8_one.
Qed.

(** *** What the scanner reads is a document of valid strings *)

Lemma value_ok_object (k : gostring) (v : json.value) ms :
  value_ok (json.Object ((k, v) :: ms))
  <-> value_ok v /\ value_ok (json.Object ms).
Proof. reflexivity. Qed.

Lemma value_ok_array (v : json.value) vs :
  value_ok (json.Array (v :: vs)) <-> value_ok v /\ value_ok (json.Array vs).
Proof. reflexivity. Qed.

Ltac scanned_number H :=
  match type of H with
  | match json.scan_number ?x with _ => _ end = Some _ =>
    destruct (json.scan_number x) as [[? ?]|];
    [injection H as <- _; exact I | discriminate H]
  end.

Lemma scan_ok (f : nat) :
  (forall d s v rest, json.scan_value f d s = Some (v, rest) -> value_ok v)
  /\ (forall d s ms rest,
        json.scan_members f d s = Some (ms, rest) -> value_ok (json.Object ms))
  /\ (forall d s vs rest,
        json.scan_elements f d s = Some (vs, rest) -> value_ok (json.Array vs)).
Proof.
  induction f as [|f [IHv [IHm IHe]]];
    [repeat split; intros; discriminate|].
  repeat split.
  - intros d s v rest H. cbn [json.scan_value] in H.
    destruct (json.skip_space s) as [|c r]; [scanned_number H|].
    destruct c; try scanned_number H.
    + (* a string *)
      destruct (json.scan_string (S (length r)) r) as [[t u]|] eqn:E;
        [|discriminate H].
      injection H as <- _. exact (scan_string_valid _ _ _ _ E).
    + (* an array *)
      destruct (json.maxNestingDepth <? d + 1); [discriminate H|].
      assert (D : match json.scan_elements f (d + 1) (json.skip_space r) with
                  | Some (vs, rest0) => Some (json.Array vs, rest0)
                  | None => None
                  end = Some (v, rest) -> value_ok v).
      { destruct (json.scan_elements f (d + 1) (json.skip_space r))
          as [[vs u]|] eqn:E; [|discriminate].
        intro X. injection X as <- _. exact (IHe _ _ _ _ E). }
      destruct (json.skip_space r) as [|c r']; [exact (D H)|].
      destruct c; try exact (D H).
      injection H as <- _. exact I.
    + (* false *)
      destruct r as [|c r]; [scanned_number H|].
      destruct c; try scanned_number H.
      destruct r as [|c r]; [scanned_number H|].
      destruct c; try scanned_number H.
      destruct r as [|c r]; [scanned_number H|].
      destruct c; try scanned_number H.
      destruct r as [|c r]; [scanned_number H|].
      destruct c; try scanned_number H.
      injection H as <- _. exact I.
    + (* null *)
      destruct r as [|c r]; [scanned_number H|].
      destruct c; try scanned_number H.
      destruct r as [|c r]; [scanned_number H|].
      destruct c; try scanned_number H.
      destruct r as [|c r]; [scanned_number H|].
      destruct c; try scanned_number H.
      injection H as <- _. exact I.
    + (* true *)
      destruct r as [|c r]; [scanned_number H|].
      destruct c; try scanned_number H.
      destruct r as [|c r]; [scanned_number H|].
      destruct c; try scanned_number H.
      destruct r as [|c r]; [scanned_number H|].
      destruct c; try scanned_number H.
      injection H as <- _. exact I.
    + (* an object *)
      destruct (json.maxNestingDepth <? d + 1); [discriminate H|].
      assert (D : match json.scan_members f (d + 1) (json.skip_space r) with
                  | Some (ms, rest0) => Some (json.Object ms, rest0)
                  | None => None
                  end = Some (v, rest) -> value_ok v).
      { destruct (json.scan_members f (d + 1) (json.skip_space r))
          as [[ms u]|] eqn:E; [|discriminate].
        intro X. injection X as <- _. exact (IHm _ _ _ _ E). }
      destruct (json.skip_space r) as [|c r']; [exact (D H)|].
      destruct c; try exact (D H).
      injection H as <- _. exact I.
  - intros d s ms rest H. cbn [json.scan_members] in H.
    destruct s as [|c r]; [discriminate H|].
    destruct c; try discriminate H.
    destruct (json.scan_string (S (length r)) r) as [[key r1]|];
      [|discriminate H].
    destruct (json.skip_space r1) as [|c r2]; [discriminate H|].
    destruct c; try discriminate H.
    destruct (json.scan_value f d r2) as [[v r3]|] eqn:V; [|discriminate H].
    apply IHv in V.
    destruct (json.skip_space r3) as [|c r4]; [discriminate H|].
    destruct c; try discriminate H.
    + destruct (json.scan_members f d (json.skip_space r4)) as [[ms' u]|] eqn:M;
        [|discriminate H].
      injection H as <- _. apply value_ok_object. split; [exact V|].
      exact (IHm _ _ _ _ M).
    + injection H as <- _. apply value_ok_object. split; [exact V | exact I].
  - intros d s vs rest H. cbn [json.scan_elements] in H.
    destruct (json.scan_value f d s) as [[v r1]|] eqn:V; [|discriminate H].
    apply IHv in V.
    destruct (json.skip_space r1) as [|c r2]; [discriminate H|].
    destruct c; try discriminate H.
    + destruct (json.scan_elements f d r2) as [[vs' u]|] eqn:M;
        [|discriminate H].
      injection H as <- _. apply value_ok_array. split; [exact V|].
      exact (IHe _ _ _ _ M).
    + injection H as <- _. apply value_ok_array. split; [exact V | exact I].
Qed.

Lemma parse_ok (data : gostring) (v : json.value) :
  json.parse data = Some v -> value_ok v.
Proof.
  unfold json.parse.
  destruct (json.scan_value _ 0 data) as [[w rest]|] eqn:E; [|discriminate].
  destruct (json.skip_space rest); [|discriminate].
  intro H. injection H as <-.
  exact (proj1 (scan_ok _) _ _ _ _ E).
Qed.

(** *** What the decoder stores is valid too *)

Lemma decode_string_ok (cur : gostring) (v : json.value) (s : gostring) :
  valid_utf8 cur -> value_ok v -> json.decode_string cur v = Some s ->
  valid_utf8 s.
Proof.
  intros C V H. destruct v; try discriminate H; injection H as <-; assumption.
Qed.

Lemma ParseInt_in_int64 (l : strconv.literal) (n : Z) :
  strconv.ParseInt l = Some n -> in_int64 n.
Proof.
  unfold strconv.ParseInt, in_int64.
  destruct (strconv.lit_frac l); [|discriminate].
  destruct (strconv.lit_exp l); [discriminate|].
  match goal with
  | |- (if ?c then _ else _) = _ -> _ => destruct c eqn:E; [|discriminate]
  end.
  intro H. injection H as <-.
  apply andb_prop in E as [A B].
  apply Z.leb_le in A. apply Z.leb_le in B. lia.
Qed.

Lemma decode_int_ok (cur : Z) (v : json.value) (n : Z) :
  in_int64 cur -> json.decode_int cur v = Some n -> in_int64 n.
Proof.
  intros C H. destruct v; try discriminate H.
  - injection H as <-. assumption.
  - exact (ParseInt_in_int64 _ _ H).
Qed.

Section Decoded.

Context {A : Type}.
Variable P : A -> Prop.

Lemma decode_elements_ok (decode : A -> json.value -> option A) (zero : A) :
  (forall cur v a, P cur -> value_ok v -> decode cur v = Some a -> P a) ->
  P zero ->
  forall vs old l,
    Forall P old -> value_ok (json.Array vs) ->
    json.decode_elements decode zero old vs = Some l -> Forall P l.
Proof.
  intros D Z. induction vs as [|v vs IH]; intros old l O V H.
  - injection H as <-. constructor.
  - cbn [json.decode_elements] in H.
    apply value_ok_array in V as [V1 V2].
    destruct (decode (hd zero old) v) as [a|] eqn:E; [|discriminate H].
    destruct (json.decode_elements decode zero (tl old) vs) as [l'|] eqn:E';
      [|discriminate H].
    assert (Q : P (hd zero old)) by (destruct O; assumption).
    assert (T : Forall P (tl old)) by (destruct O; [constructor | assumption]).
    injection H as <-. constructor.
    + exact (D _ _ _ Q V1 E).
    + exact (IH _ _ T V2 E').
Qed.

Lemma decode_slice_ok (decode : A -> json.value -> option A) (zero : A)
    (cur : slice A) (v : json.value) (s : slice A) :
  (forall cur v a, P cur -> value_ok v -> decode cur v = Some a -> P a) ->
  P zero -> slice_all P cur -> value_ok v ->
  json.decode_slice decode zero cur v = Some s -> slice_all P s.
Proof.
  intros D Z C V H. destruct v as [| | | |vs|]; try discriminate H.
  - injection H as <-. exact I.
  - cbn [json.decode_slice] in H.
    destruct (json.decode_elements decode zero _ vs) as [l'|] eqn:E;
      [|discriminate H].
    injection H as <-.
    apply (decode_elements_ok decode zero D Z vs _ l') in E; [exact E| |exact V].
    destruct cur; [exact C | constructor].
Qed.

Lemma decode_members_ok (store : A -> gostring -> json.value -> option A) :
  (forall cur k v a, P cur -> value_ok v -> store cur k v = Some a -> P a) ->
  forall ms cur a,
    P cur -> value_ok (json.Object ms) ->
    json.decode_members store cur ms = Some a -> P a.
Proof.
  intros D. induction ms as [|[k v] ms IH]; intros cur a C V H.
  - injection H as <-. assumption.
  - cbn [json.decode_members] in H.
    apply value_ok_object in V as [V1 V2].
    destruct (store cur k v) as [c'|] eqn:E; [|discriminate H].
    exact (IH _ _ (D _ _ _ _ C V1 E) V2 H).
Qed.

Lemma decode_struct_ok (store : A -> gostring -> json.value -> option A)
    (cur : A) (v : json.value) (a : A) :
  (forall cur k v a, P cur -> value_ok v -> store cur k v = Some a -> P a) ->
  P cur -> value_ok v -> json.decode_struct store cur v = Some a -> P a.
Proof.
  intros D C V H. destruct v; try discriminate H.
  - injection H as <-. assumption.
  - exact (decode_members_ok store D _ _ _ C V H).
Qed.

End Decoded.

Ltac stored :=
  repeat match goal with
  | H : (if ?c then _ else _) = Some _ |- _ => destruct c
  | H : option_map _ ?o = Some _ |- _ =>
    let E := fresh "E" in
    destruct o eqn:E; [|discriminate H]; injection H as <-
  | H : Some _ = Some _ |- _ => injection H as <-
  end.

Lemma store_CodeIssue_ok cur k v a :
  issue_ok cur -> value_ok v -> json.store_CodeIssue cur k v = Some a ->
  issue_ok a.
Proof.
  intros C V H. destruct cur as [ty sev line desc sol].
  destruct C as (C1 & C2 & C3 & C4 & C5). cbn in C1, C2, C3, C4, C5.
  unfold json.store_CodeIssue in H. stored;
    refine (conj _ (conj _ (conj _ (conj _ _))));
    cbn [CodeIssue.Type_ CodeIssue.Severity CodeIssue.LineNumber
         CodeIssue.Description CodeIssue.Solution]; try assumption;
    first [eapply decode_string_ok; [| |eassumption]; assumption
          | eapply decode_int_ok; [|eassumption]; assumption].
Qed.

Lemma store_CodeSuggestion_ok cur k v a :
  suggestion_ok cur -> value_ok v ->
  json.store_CodeSuggestion cur k v = Some a -> suggestion_ok a.
Proof.
  intros C V H. destruct cur as [cat prio desc ex].
  destruct C as (C1 & C2 & C3 & C4). cbn in C1, C2, C3, C4.
  unfold json.store_CodeSuggestion in H. stored;
    refine (conj _ (conj _ (conj _ _))); cbn; try assumption;
    (eapply decode_string_ok; [| |eassumption]; assumption).
Qed.

Lemma store_ComplexityAnalysis_ok cur k v a :
  complexity_ok cur -> value_ok v ->
  json.store_ComplexityAnalysis cur k v = Some a -> complexity_ok a.
Proof.
  intros C V H. destruct cur as [tc sc can opt].
  destruct C as (C1 & C2 & C3). cbn in C1, C2, C3.
  unfold json.store_ComplexityAnalysis in H. stored;
    refine (conj _ (conj _ _)); cbn; try assumption;
    (eapply decode_string_ok; [| |eassumption]; assumption).
Qed.

Lemma zero_CodeIssue_ok : issue_ok json.zero_CodeIssue.
Proof.
  refine (conj _ (conj _ (conj _ (conj _ _)))); try constructor;
    cbn; lia.
Qed.

Lemma zero_CodeSuggestion_ok : suggestion_ok json.zero_CodeSuggestion.
Proof. repeat split; constructor. Qed.

Lemma store_AICodeReview_ok cur k v a :
  review_ok cur -> value_ok v -> json.store_AICodeReview cur k v = Some a ->
  review_ok a.
Proof.
  intros C V H. destruct cur as [score issues suggs fb qs cx read cov].
  destruct C as (C1 & C2 & C3 & C4 & C5 & C6).
  cbn in C1, C2, C3, C4, C5, C6.
  unfold json.store_AICodeReview in H. stored;
    refine (conj _ (conj _ (conj _ (conj _ (conj _ _)))));
    cbn [Issues Suggestions InterviewerFeedback FollowUpQuestions
                       Complexity TestCoverage]; try assumption.
  - eapply (decode_slice_ok issue_ok); [| | |exact V|eassumption];
      [|exact zero_CodeIssue_ok|assumption].
    intros c w b Pc Vw. apply decode_struct_ok; try assumption.
    exact store_CodeIssue_ok.
  - eapply (decode_slice_ok suggestion_ok); [| | |exact V|eassumption];
      [|exact zero_CodeSuggestion_ok|assumption].
    intros c w b Pc Vw. apply decode_struct_ok; try assumption.
    exact store_CodeSuggestion_ok.
  - eapply decode_string_ok; [| |eassumption]; assumption.
  - eapply (decode_slice_ok valid_utf8); [| | |exact V|eassumption];
      [|constructor|assumption].
    intros c w b. apply decode_string_ok.
  - eapply (decode_struct_ok complexity_ok); [| | |eassumption]; try assumption.
    exact store_ComplexityAnalysis_ok.
  - eapply decode_string_ok; [| |eassumption]; assumption.
Qed.

Lemma zero_AICodeReview_ok : review_ok json.zero_AICodeReview.
Proof. repeat split; try constructor; exact I. Qed.

(** Every review that [Unmarshal] delivers has strings of valid UTF-8
    and line numbers of 64 bits. *)
Lemma Unmarshal_ok (data : gostring) (r : AICodeReview) :
  json.Unmarshal_AICodeReview data = Some r -> review_ok r.
Proof.
  unfold json.Unmarshal_AICodeReview.
  destruct (json.parse data) as [v|] eqn:E; [|discriminate].
  apply parse_ok in E. intro H.
  apply (decode_struct_ok review_ok json.store_AICodeReview
           json.zero_AICodeReview v r); try assumption.
  - exact store_AICodeReview_ok.
  - exact zero_AICodeReview_ok.
Qed.

(** The scores of the prompt's scale, 0 to 100 in steps of a tenth, are
    written in digits that read back. *)
Lemma float_reads_back_tenths (n : Z) :
  0 <= n <= 1000 -> float_reads_back (float64_of_decimal n (-1)) = true.
Proof.
  intro H.
  apply (forallb_range
           (fun k => float_reads_back (float64_of_decimal k (-1))) 1001);
    [vm_compute; reflexivity | lia].
Qed.

(** A score that reads back can be written. *)
Lemma float_reads_back_written (f : float64) :
  float_reads_back f = true -> exists t, json.encode_float64 f = Some t.
Proof.
  intro H. destruct (float_reads_back_inv f H) as (t & _ & E & _).
  now exists t.
Qed.

Lemma Marshal_AICodeReview_written (r : AICodeReview) :
  float_reads_back (OverallScore r) = true ->
  float_reads_back (ReadabilityScore r) = true ->
  exists j, json.Marshal_AICodeReview r = Some j.
Proof.
  intros F1 F2.
  destruct (float_reads_back_written _ F1) as (t1 & E1).
  destruct (float_reads_back_written _ F2) as (t2 & E2).
  unfold json.Marshal_AICodeReview. rewrite E1, E2. eexists. reflexivity.
Qed.



Example ExtractObject_round_trip_complete_review :
  json.Marshal_AICodeReview complete_review_value = Some complete_review_written
  /\ ExtractObject complete_review_written = Returned (complete_review_value, None).
Proof. split; vm_compute; reflexivity. Qed.


(** ** Code fences *)

Lemma parseAIResponse_cleaned
    (decode : gostring -> option AICodeReview) (a b : gostring) :
  strip_code_fence a = strip_code_fence b ->
  parseAIResponse decode a = parseAIResponse decode b.
Proof. intro H. unfold parseAIResponse. now rewrite H. Qed.

Lemma hd_cons_neq (t : gostring) (c : byte) :
  hd x00 t <> c -> t = [] \/ exists b r, t = b :: r /\ b <> c.
Proof.
  destruct t as [|b r]; [now left|]. right. now exists b, r.
Qed.

Lemma last_snoc_neq (t : gostring) (c : byte) :
  last t x00 <> c -> t = [] \/ exists r b, t = r ++ [b] /\ b <> c.
Proof.
  induction t as [|a t' _] using rev_ind; [now left|].
  rewrite last_last. right. now exists t', a.
Qed.

Lemma spaces_hd (w : gostring) : spaces w -> hd x00 w <> x60.
Proof.
  destruct w as [|b w]; [discriminate|].
  intros H E. simpl in E. subst b. apply spaces_lead in H. discriminate H.
Qed.

Lemma hd_app_spaces (w z : gostring) :
  spaces w -> hd x00 z <> x60 -> hd x00 (w ++ z) <> x60.
Proof.
  intros Hw Hz. destruct w as [|b w]; [assumption|].
  now apply (spaces_hd (b :: w)).
Qed.

(** A reply that, once trimmed, has no backtick at either end is only
    trimmed by the cleaning. *)
Lemma strip_code_fence_plain (s : gostring) :
  hd x00 (strings.TrimSpace s) <> x60 ->
  last (strings.TrimSpace s) x00 <> x60 ->
  strip_code_fence s = strings.TrimSpace s.
Proof.
  intros Hh Hl. unfold strip_code_fence.
  set (t := strings.TrimSpace s) in *.
  assert (strings.TrimPrefix t "```json" = t) as ->.
  { destruct (hd_cons_neq t x60 Hh) as [-> | (b & r & -> & Hb)]; [reflexivity|].
    now apply TrimPrefix_first. }
  assert (strings.TrimPrefix t "```" = t) as ->.
  { destruct (hd_cons_neq t x60 Hh) as [-> | (b & r & -> & Hb)]; [reflexivity|].
    now apply TrimPrefix_first. }
  assert (strings.TrimSuffix t "```" = t) as ->.
  { destruct (last_snoc_neq t x60 Hl) as [-> | (r & b & -> & Hb)]; [reflexivity|].
    change (str "```") with (str "``" ++ [x60]). now apply TrimSuffix_last. }
  apply TrimSpace_idem.
Qed.

(** After white space or a backtick, a string that does not start with
    [json] still does not. *)
Lemma HasPrefix_json_app (s rest : gostring) (c : byte) :
  strings.HasPrefix s "json" = false ->
  space_lead c = true \/ c = x60 ->
  strings.HasPrefix (s ++ c :: rest) "json" = false.
Proof.
  intros Hs Hc.
  assert (Byte.eqb c x6a = false /\ Byte.eqb c x73 = false
          /\ Byte.eqb c x6f = false /\ Byte.eqb c x6e = false) as (Cj & Cs & Co & Cn).
  { destruct Hc as [Hc | ->]; [|now repeat split].
    repeat split;
      match goal with
      | |- Byte.eqb c ?k = false =>
        destruct (Byte.eqb c k) eqn:E; [|reflexivity];
        apply byte_eqb_eq in E; subst c; discriminate Hc
      end. }
  change (str "json") with [x6a; x73; x6f; x6e] in *.
  destruct s as [|a1 [|a2 [|a3 [|a4 s']]]]; cbn [app strings.HasPrefix] in *;
    rewrite ?Cj, ?Cs, ?Co, ?Cn, ?andb_false_r; auto.
Qed.

(** The cleaning removes the fence and the white space around the
    reply. *)
Lemma strip_code_fence_fenced (w1 tag w2 s w3 w4 : gostring) :
  spaces w1 -> spaces w2 -> spaces w3 -> spaces w4 ->
  tag = str "json" \/ tag = [] ->
  hd x00 (strings.TrimSpace s) <> x60 ->
  (tag = [] -> w2 = [] -> strings.HasPrefix s "json" = false) ->
  strip_code_fence (fenced w1 tag w2 s w3 w4) = strings.TrimSpace s.
Proof.
  intros H1 H2 H3 H4 Htag Hh Hj.
  set (Z := w2 ++ s ++ w3).
  assert (HZ : strings.TrimSpace Z = strings.TrimSpace s)
    by now apply TrimSpace_spaces_around.
  assert (HhZ : hd x00 Z <> x60).
  { destruct (TrimSpace_split s) as (u1 & u2 & Hu1 & Hu2 & E).
    unfold Z. rewrite E. apply hd_app_spaces; [assumption|].
    rewrite <- app_assoc. apply hd_app_spaces; [assumption|].
    rewrite <- !app_assoc.
    destruct (hd_cons_neq _ _ Hh) as [-> | (b & r & -> & Hb)].
    - simpl app. apply hd_app_spaces; [assumption|]. now apply spaces_hd.
    - exact Hb. }
  unfold strip_code_fence, fenced.
  set (X := str "```" ++ tag ++ Z ++ str "```").
  replace (w1 ++ str "```" ++ tag ++ w2 ++ s ++ w3 ++ str "```" ++ w4)
    with (w1 ++ X ++ w4)
    by (unfold X, Z; now rewrite <- !app_assoc).
  rewrite TrimSpace_spaces_around by assumption.
  assert (strings.TrimSpace X = X) as ->.
  { apply (TrimSpace_tight X (str "``" ++ tag ++ Z ++ str "```")
             (str "```" ++ tag ++ Z ++ str "``") x60 x60); try reflexivity.
    unfold X. change (str "```") with (str "``" ++ [x60]) at 2.
    now rewrite <- !app_assoc. }
  destruct Htag as [-> | ->].
  - (* ```json *)
    assert (X = str "```json" ++ Z ++ str "```") as -> by reflexivity.
    rewrite TrimPrefix_app.
    destruct (hd_cons_neq Z x60 HhZ) as [EZ | (b & r & EZ & Hb)]; rewrite EZ in *.
    + simpl app. change (strings.TrimPrefix (str "```") (str "```")) with (@nil byte).
      change (strings.TrimSuffix [] (str "```")) with (@nil byte).
      now rewrite <- HZ.
    + change (str "```") with [x60; x60; x60].
      simpl app. rewrite TrimPrefix_first by assumption.
      change (b :: r ++ [x60; x60; x60]) with ((b :: r) ++ [x60; x60; x60]).
      rewrite TrimSuffix_app. exact HZ.
  - (* ``` *)
    assert (strings.TrimPrefix X "```json" = X) as ->.
    { unfold strings.TrimPrefix.
      replace (strings.HasPrefix X "```json") with false; [reflexivity|].
      symmetry. unfold X. simpl app.
      change (str "```json") with (str "```" ++ str "json").
      change (str "```") with [x60; x60; x60].
      cbn [app strings.HasPrefix].
      change (Byte.eqb x60 x60) with true. cbn [andb].
      unfold Z. destruct w2 as [|c w2'].
      - destruct w3 as [|c w3'].
        + replace (([] ++ s ++ []) ++ [x60; x60; x60])
            with (s ++ x60 :: [x60; x60])
            by (simpl; now rewrite app_nil_r).
          apply HasPrefix_json_app; auto.
        + replace (([] ++ s ++ c :: w3') ++ [x60; x60; x60])
            with (s ++ c :: (w3' ++ [x60; x60; x60]))
            by (simpl; now rewrite <- app_assoc).
          apply HasPrefix_json_app; auto.
          left. now apply (spaces_lead c w3').
      - apply (HasPrefix_json_app [] _ c); [reflexivity|].
        left. now apply (spaces_lead c w2'). }
    assert (X = str "```" ++ Z ++ str "```") as -> by reflexivity.
    rewrite TrimPrefix_app, TrimSuffix_app. exact HZ.
Qed.

(** C7, as the code has it.  Let the reply, once trimmed, have no
    backtick at either end.  Wrapped in a fence whose opening marker is
    bare or tagged [json] (a bare marker not being followed at once by a
    reply that starts with [json]), with any white space around the
    markers and the reply, it is extracted as the reply alone is. *)
Theorem parseAIResponse_fenced :
  forall (decode : gostring -> option AICodeReview)
         (w1 tag w2 s w3 w4 : gostring),
    spaces w1 -> spaces w2 -> spaces w3 -> spaces w4 ->
    tag = str "json" \/ tag = [] ->
    hd x00 (strings.TrimSpace s) <> x60 ->
    last (strings.TrimSpace s) x00 <> x60 ->
    (tag = [] -> w2 = [] -> strings.HasPrefix s "json" = false) ->
    parseAIResponse decode (fenced w1 tag w2 s w3 w4) = parseAIResponse decode s.
Proof.
  intros decode w1 tag w2 s w3 w4 H1 H2 H3 H4 Htag Hh Hl Hj.
  apply parseAIResponse_cleaned.
  rewrite strip_code_fence_fenced by assumption.
  symmetry. now apply strip_code_fence_plain.
Qed.

Lemma parseAIResponse_fenced_witness :
  ExtractObject (fenced [] "json" [x0a] complete_review [x0a] [])
  = ExtractObject complete_review.
Proof.
  apply (parseAIResponse_fenced json.Unmarshal_AICodeReview
           [] "json" [x0a] complete_review [x0a] []).
  - constructor.
  - constructor; [reflexivity | constructor].
  - constructor; [reflexivity | constructor].
  - constructor.
  - left. reflexivity.
  - vm_compute. discriminate.
  - vm_compute. discriminate.
  - intro E. vm_compute in E. discriminate E.
Defined.

Example ExtractObject_fenced_complete_review :
  ExtractObject (fenced [] "json" [x0a] complete_review [x0a] [])
  = Returned (complete_review_value, None).
Proof. vm_compute. reflexivity. Qed.

(** C7, as stated, fails: a tag other than [json] stays in the text that
    the fallback echoes, and a reply that is itself fenced loses its own
    fence only when it is not wrapped. *)
Lemma ExtractObject_fence_changes_result :
  ExtractObject (fenced [] "go" [x0a] "no json here" [x0a] [])
  <> ExtractObject "no json here"
  /\ ExtractObject (fenced [] "json" [x0a] "```hi```" [x0a] [])
     <> ExtractObject "```hi```".
Proof.
  split; intro E;
    match type of E with
    | ?a = ?b =>
      assert (F : match a with
                  | Returned (r, _) => InterviewerFeedback r
                  | Panicked _ => []
                  end
                  = match b with
                    | Returned (r, _) => InterviewerFeedback r
                    | Panicked _ => []
                    end) by now rewrite E
    end;
    revert F; apply gostring_neq; vm_compute; reflexivity.
Qed.

(** ** Plain text *)

(** A text is left alone by [TrimSpace] exactly when it has no white
    space at either end. *)
Lemma TrimSpace_shorter (s : gostring) :
  (length (strings.TrimSpace s) <= length s)%nat.
Proof.
  destruct (TrimSpace_split s) as (w1 & w2 & _ & _ & E).
  rewrite E at 2. rewrite !length_app. lia.
Qed.

Lemma trimmed_TrimSpace (s : gostring) : strings.TrimSpace s = s -> trimmed s.
Proof.
  intro F. split.
  - intros w r Hw E.
    assert (T : strings.TrimSpace s = strings.TrimSpace r).
    { rewrite E. rewrite <- (app_nil_r r) at 1.
      apply TrimSpace_spaces_around; [assumption | constructor]. }
    pose proof (TrimSpace_shorter r) as L.
    rewrite <- T, F, E, length_app in L.
    destruct w; [reflexivity | simpl in L; lia].
  - intros r w Hw E.
    assert (T : strings.TrimSpace s = strings.TrimSpace r).
    { rewrite E. change (r ++ w) with ([] ++ r ++ w).
      apply TrimSpace_spaces_around; [constructor | assumption]. }
    pose proof (TrimSpace_shorter r) as L.
    rewrite <- T, F, E, length_app in L.
    destruct w; [reflexivity | simpl in L; lia].
Qed.

Lemma TrimSpace_trimmed (s : gostring) : trimmed s -> strings.TrimSpace s = s.
Proof.
  intros [Hl Hr].
  destruct (TrimSpace_split s) as (w1 & w2 & H1 & H2 & E).
  assert (w1 = []) as -> by (apply (Hl w1 (strings.TrimSpace s ++ w2)); assumption).
  assert (w2 = []) as ->.
  { apply (Hr (strings.TrimSpace s) w2); assumption. }
  simpl in E. now rewrite app_nil_r in E.
Qed.

Lemma TrimSpace_reading (w1 t w2 : gostring) :
  spaces w1 -> spaces w2 -> trimmed t ->
  strings.TrimSpace (w1 ++ t ++ w2) = t.
Proof.
  intros H1 H2 Ht.
  rewrite TrimSpace_spaces_around by assumption. now apply TrimSpace_trimmed.
Qed.

Lemma HasPrefix_false (s p : gostring) :
  strings.HasPrefix s p = false -> ~ (exists r, s = p ++ r).
Proof.
  intros H [r ->]. now rewrite HasPrefix_app in H.
Qed.

Lemma HasSuffix_false (s p : gostring) :
  strings.HasSuffix s p = false -> ~ (exists r, s = r ++ p).
Proof.
  intros H [r ->]. now rewrite HasSuffix_app in H.
Qed.

Lemma TrimPrefix_absent (s p : gostring) :
  ~ (exists r, s = p ++ r) -> strings.TrimPrefix s p = s.
Proof.
  intro H. unfold strings.TrimPrefix.
  destruct (strings.HasPrefix s p) eqn:P; [|reflexivity].
  exfalso. apply H. eexists. now apply HasPrefix_true.
Qed.

Lemma TrimSuffix_absent (s p : gostring) :
  ~ (exists r, s = r ++ p) -> strings.TrimSuffix s p = s.
Proof.
  intro H. unfold strings.TrimSuffix.
  destruct (strings.HasSuffix s p) eqn:P; [|reflexivity].
  exfalso. apply H. eexists. now apply HasSuffix_true.
Qed.

Lemma TrimPrefix_cases (s p : gostring) :
  exists opening,
    s = opening ++ strings.TrimPrefix s p
    /\ (opening = p \/ opening = [] /\ ~ (exists r, s = p ++ r)).
Proof.
  unfold strings.TrimPrefix. destruct (strings.HasPrefix s p) eqn:P.
  - exists p. split; [now apply HasPrefix_true | now left].
  - exists []. split; [reflexivity|]. right. split; [reflexivity|].
    now apply HasPrefix_false.
Qed.

Lemma TrimSuffix_cases (s p : gostring) :
  exists closing,
    s = strings.TrimSuffix s p ++ closing
    /\ (closing = p \/ closing = [] /\ ~ (exists r, s = r ++ p)).
Proof.
  unfold strings.TrimSuffix. destruct (strings.HasSuffix s p) eqn:P.
  - exists p. split; [now apply HasSuffix_true | now left].
  - exists []. split; [now rewrite app_nil_r|]. right. split; [reflexivity|].
    now apply HasSuffix_false.
Qed.

(** Every reply has a reading, and the result is the core of any of
    them. *)
Lemma chat_reading_exists (response : gostring) :
  exists w1 opening w2 core w3 closing w4,
    chat_reading response w1 opening w2 core w3 closing w4.
Proof.
  destruct (TrimSpace_split response) as (w1 & w4 & H1 & H4 & E0).
  set (t0 := strings.TrimSpace response) in *.
  assert (T0 : trimmed t0) by (apply trimmed_TrimSpace, TrimSpace_idem).
  destruct (TrimPrefix_cases t0 "```") as (opening & E1 & Hopen).
  set (t1 := strings.TrimPrefix t0 "```") in *.
  destruct (TrimSuffix_cases t1 "```") as (closing & E2 & Hclose).
  set (t2 := strings.TrimSuffix t1 "```") in *.
  destruct (TrimSpace_split t2) as (w2 & w3 & H2 & H3 & E3).
  set (core := strings.TrimSpace t2) in *.
  assert (E1' : t1 = w2 ++ core ++ w3 ++ closing)
    by (rewrite E2, E3, <- !app_assoc; reflexivity).
  assert (Ec : trimmed core) by (apply trimmed_TrimSpace, TrimSpace_idem).
  exists w1, opening, w2, core, w3, closing, w4.
  unfold chat_reading.
  split.
  { rewrite E0 at 1. rewrite E1 at 1. rewrite E1'.
    now rewrite <- !app_assoc. }
  split; [assumption|]. split; [assumption|].
  split; [now rewrite <- E1', <- E1|].
  split.
  { destruct Hopen as [-> | [-> Hn]]; [now left|]. right.
    split; [reflexivity|]. simpl in E1. now rewrite <- E1', <- E1. }
  split.
  { destruct Hclose as [-> | [-> Hn]]; [now left|]. right.
    split; [reflexivity|]. rewrite app_nil_r in E2. now rewrite <- E3, <- E2. }
  split; [assumption|]. split; assumption.
Qed.

Lemma chat_reading_result
    (response w1 opening w2 core w3 closing w4 : gostring) :
  chat_reading response w1 opening w2 core w3 closing w4 ->
  parseChatResponse response
  = if gostring_is_empty core
    then str "I'm here to help! Could you rephrase your question?"
    else core.
Proof.
  intros (E & H1 & H4 & Ht & Hopen & Hclose & H2 & H3 & Hc).
  unfold parseChatResponse.
  assert (T0 : strings.TrimSpace response = opening ++ w2 ++ core ++ w3 ++ closing).
  { rewrite E.
    replace (w1 ++ opening ++ w2 ++ core ++ w3 ++ closing ++ w4)
      with (w1 ++ (opening ++ w2 ++ core ++ w3 ++ closing) ++ w4)
      by (now rewrite <- !app_assoc).
    now apply TrimSpace_reading. }
  rewrite T0.
  assert (T1 : strings.TrimPrefix (opening ++ w2 ++ core ++ w3 ++ closing) "```"
               = w2 ++ core ++ w3 ++ closing).
  { destruct Hopen as [-> | [-> Hn]].
    - apply TrimPrefix_app.
    - simpl app. now apply TrimPrefix_absent. }
  rewrite T1.
  assert (T2 : strings.TrimSuffix (w2 ++ core ++ w3 ++ closing) "```"
               = w2 ++ core ++ w3).
  { destruct Hclose as [-> | [-> Hn]].
    - replace (w2 ++ core ++ w3 ++ str "```")
        with ((w2 ++ core ++ w3) ++ str "```")
        by (now rewrite <- !app_assoc).
      apply TrimSuffix_app.
    - rewrite app_nil_r. now apply TrimSuffix_absent. }
  rewrite T2, TrimSpace_reading by assumption.
  now rewrite gostring_eqb_nil.
Qed.

(** C9.  [parseChatResponse] removes the white space around the reply,
    one opening triple backtick when the text begins with one, one
    closing triple backtick when the rest ends with one, and the white
    space around what is left; everything else, a language tag included,
    is kept, and an empty rest is replaced by a fixed sentence.
    [parseHint] removes the white space around the reply only, and has a
    fixed sentence of its own.  Every reply can be read in this way, and
    whichever way it is read, the result is the core, which has no white
    space at either end.  Neither function takes a decoder: the text is
    returned as text. *)
Theorem parseChatResponse_cleans :
  forall response : gostring,
    (exists w1 opening w2 core w3 closing w4,
        chat_reading response w1 opening w2 core w3 closing w4)
    /\ (forall w1 opening w2 core w3 closing w4,
          chat_reading response w1 opening w2 core w3 closing w4 ->
          parseChatResponse response
          = if gostring_is_empty core
            then str "I'm here to help! Could you rephrase your question?"
            else core)
    /\ (exists w1 core w2, hint_reading response w1 core w2)
    /\ (forall w1 core w2,
          hint_reading response w1 core w2 ->
          parseHint response
          = if gostring_is_empty core
            then str "Consider the problem step by step. What's the core requirement here?"
            else core).
Proof.
  intro response.
  split; [apply chat_reading_exists|].
  split; [apply chat_reading_result|].
  split.
  - destruct (TrimSpace_split response) as (w1 & w2 & H1 & H2 & E).
    exists w1, (strings.TrimSpace response), w2.
    repeat split; try assumption; apply trimmed_TrimSpace, TrimSpace_idem.
  - intros w1 core w2 (E & H1 & H2 & Hc).
    unfold parseHint. rewrite E, TrimSpace_reading by assumption.
    now rewrite gostring_eqb_nil.
Qed.

Lemma parseChatResponse_cleans_witness :
  parseChatResponse (fenced [x20] "go" [x0a] "x := 1" [x0a] [x0a])
  = str "go" ++ [x0a] ++ str "x := 1"
  /\ parseHint ([x20] ++ str "Use a map." ++ [x0a]) = str "Use a map.".
Proof.
  destruct (parseChatResponse_cleans
              (fenced [x20] "go" [x0a] "x := 1" [x0a] [x0a]))
    as (_ & C & _ & _).
  destruct (parseChatResponse_cleans ([x20] ++ str "Use a map." ++ [x0a]))
    as (_ & _ & _ & H).
  split.
  - apply (C [x20] (str "```") [] (str "go" ++ [x0a] ++ str "x := 1")
             [x0a] (str "```") [x0a]).
    unfold chat_reading. repeat split.
    + repeat (constructor; [reflexivity|]). constructor.
    + repeat (constructor; [reflexivity|]). constructor.
    + apply trimmed_TrimSpace. vm_compute. reflexivity.
    + apply trimmed_TrimSpace. vm_compute. reflexivity.
    + now left.
    + now left.
    + constructor.
    + repeat (constructor; [reflexivity|]). constructor.
    + apply trimmed_TrimSpace. vm_compute. reflexivity.
    + apply trimmed_TrimSpace. vm_compute. reflexivity.
  - apply (H [x20] (str "Use a map.") [x0a]).
    unfold hint_reading. repeat split.
    + repeat (constructor; [reflexivity|]). constructor.
    + repeat (constructor; [reflexivity|]). constructor.
    + apply trimmed_TrimSpace. vm_compute. reflexivity.
    + apply trimmed_TrimSpace. vm_compute. reflexivity.
Defined.

Example parseChatResponse_keeps_language_tag :
  parseChatResponse (fenced [x20] "go" [x0a] "x := 1" [x0a] [x0a])
  = str "go" ++ [x0a] ++ str "x := 1".
Proof. vm_compute. reflexivity. Qed.

Example parseChatResponse_leaves_json_alone :
  parseChatResponse complete_review = complete_review.
Proof. vm_compute. reflexivity. Qed.

Example parseChatResponse_empty :
  parseChatResponse (fenced [x20] [] [] [] [x0a] [])
  = "I'm here to help! Could you rephrase your question?".
Proof. vm_compute. reflexivity. Qed.

(** ** Counting braces, locating brackets *)

(** For a single byte [Count] is the number of its occurrences, inside
    string literals or not. *)
Lemma Count_single (s : gostring) (b : byte) :
  strings.Count s [b] = Z.of_nat (count_occ Byte.byte_eq_dec s b).
Proof.
  unfold strings.Count.
  induction s as [|x s IH]; [reflexivity|].
  cbn [strings.count_from strings.HasPrefix count_occ length Nat.sub].
  destruct (Byte.byte_eq_dec x b) as [->|Hne].
  - rewrite (proj2 (byte_eqb_eq b b) eq_refl). cbn [andb].
    rewrite IH. lia.
  - destruct (Byte.eqb x b) eqn:E.
    + apply byte_eqb_eq in E. contradiction.
    + cbn [andb]. exact IH.
Qed.

Lemma balanced_iff (s : gostring) :
  balanced s = true
  <-> count_occ Byte.byte_eq_dec s x7b = count_occ Byte.byte_eq_dec s x7d.
Proof.
  unfold balanced. change (str "{") with [x7b]. change (str "}") with [x7d].
  rewrite !Count_single, Z.eqb_eq. lia.
Qed.

Lemma array_candidate_none (response : gostring) :
  ~ In x5b response \/ ~ In x5d response ->
  array_candidate response = Returned None.
Proof.
  intro H. unfold array_candidate.
  change (str "[") with [x5b]. change (str "]") with [x5d].
  destruct H as [H|H].
  - now rewrite Index_absent.
  - rewrite (LastIndex_absent _ x5d) by assumption. now rewrite orb_true_r.
Qed.

Lemma array_candidate_some (pre mid post : gostring) :
  ~ In x5b pre -> ~ In x5d post ->
  array_candidate (pre ++ x5b :: mid ++ x5d :: post)
  = Returned (Some (x5b :: mid ++ [x5d])).
Proof.
  intros Hpre Hpost. unfold array_candidate.
  change (str "[") with [x5b]. change (str "]") with [x5d].
  assert (strings.Index (pre ++ x5b :: mid ++ x5d :: post) [x5b] = len pre) as ->
    by now apply Index_found.
  assert (strings.LastIndex (pre ++ x5b :: mid ++ x5d :: post) [x5d]
          = len pre + len (x5b :: mid ++ [x5d]) - 1) as ->.
  { replace (pre ++ x5b :: mid ++ x5d :: post)
      with ((pre ++ x5b :: mid) ++ x5d :: post)
      by (now rewrite <- app_assoc).
    rewrite LastIndex_found by assumption.
    unfold len. rewrite length_app. simpl length. rewrite length_app.
    simpl length. lia. }
  pose proof (len_nonneg pre).
  assert (0 < len (x5b :: mid ++ [x5d])) by (unfold len; simpl length; lia).
  replace ((len pre =? -1) || (len pre + len (x5b :: mid ++ [x5d]) - 1 =? -1))
    with false
    by (symmetry; apply orb_false_iff; split; apply Z.eqb_neq; lia).
  replace (len pre + len (x5b :: mid ++ [x5d]) - 1 + 1)
    with (len pre + len (x5b :: mid ++ [x5d])) by lia.
  replace (pre ++ x5b :: mid ++ x5d :: post)
    with (pre ++ (x5b :: mid ++ [x5d]) ++ post)
    by (simpl; now rewrite <- app_assoc).
  now rewrite slice_expr_middle.
Qed.

(** [parseQuestions] panics exactly when the first opening bracket lies
    more than one byte after the last closing bracket. *)
Lemma parseQuestions_panics_iff
    (decode : gostring -> option (slice gostring)) (response : gostring) :
  let start := strings.Index response "[" in
  let end_ := strings.LastIndex response "]" in
  (exists e, parseQuestions decode response = Panicked e)
  <-> (end_ <> -1 /\ end_ + 1 < start).
Proof.
  cbv zeta. unfold parseQuestions.
  change (str "[") with [x5b]. change (str "]") with [x5d].
  destruct (Index_range response x5b) as [[Es _]|[Rs _]];
    destruct (LastIndex_range response x5d) as [[Ee _]|[Re _]].
  - rewrite Es, Ee. simpl. split; [intros [e H]; discriminate H | lia].
  - rewrite Es. simpl. split; [intros [e H]; discriminate H | lia].
  - rewrite Ee, orb_true_r. split; [intros [e H]; discriminate H | lia].
  - replace ((strings.Index response [x5b] =? -1)
             || (strings.LastIndex response [x5d] =? -1))
      with false
      by (symmetry; apply orb_false_iff; split; apply Z.eqb_neq; lia).
    unfold slice_expr.
    destruct ((0 <=? strings.Index response [x5b])
              && (strings.Index response [x5b]
                  <=? strings.LastIndex response [x5d] + 1)
              && (strings.LastIndex response [x5d] + 1 <=? len response)) eqn:G;
      cbn [bind].
    + split.
      * intros [e H]. destruct (decode _); discriminate H.
      * apply andb_true_iff in G as [G _]. apply andb_true_iff in G as [_ G].
        apply Z.leb_le in G. lia.
    + split; [intros _ | intros _; eexists; reflexivity].
      split; [lia|].
      apply andb_false_iff in G as [G|G];
        [apply andb_false_iff in G as [G|G]|]; apply Z.leb_gt in G; lia.
Qed.

(** * The rest of the service *)

(** ** Text around the candidate *)

(** A prefix that does not hold the byte lies before its first
    occurrence. *)
Lemma app_cons_first (b : byte) (u t pre rest : gostring) :
  u ++ t = pre ++ b :: rest -> ~ In b u ->
  exists pre', pre = u ++ pre' /\ t = pre' ++ b :: rest.
Proof.
  revert pre. induction u as [|a u IH]; intros pre E Hu.
  - exists pre. now split.
  - destruct pre as [|a' pre].
    + simpl in E. injection E as -> _. exfalso. apply Hu. now left.
    + simpl in E. injection E as -> E.
      destruct (IH pre E) as (pre' & -> & Et).
      * intro H. apply Hu. now right.
      * exists pre'. now split.
Qed.

Lemma app_cons_last (b : byte) (t v pre post : gostring) :
  t ++ v = pre ++ b :: post -> ~ In b v ->
  exists post', post = post' ++ v /\ t = pre ++ b :: post'.
Proof.
  intros E Hv.
  apply (f_equal (@rev byte)) in E.
  rewrite !rev_app_distr in E. simpl in E. rewrite <- app_assoc in E. simpl in E.
  destruct (app_cons_first b (rev v) (rev t) (rev post) (rev pre) E)
    as (p & Ep & Et).
  - now rewrite <- in_rev.
  - exists (rev p). split.
    + rewrite <- (rev_involutive post), Ep, rev_app_distr.
      now rewrite rev_involutive.
    + rewrite <- (rev_involutive t), Et, rev_app_distr. simpl.
      rewrite rev_involutive, <- app_assoc. reflexivity.
Qed.

(** What is cut off at both ends of a text, when it holds neither the
    opening nor the closing byte, leaves the text between the first
    opening and the last closing byte where it is. *)
Lemma core_kept (o c : byte) (u t v pre mid post : gostring) :
  u ++ t ++ v = pre ++ o :: mid ++ c :: post ->
  ~ In o u -> ~ In c v -> ~ In o pre -> ~ In c post ->
  exists pre' post',
    t = pre' ++ o :: mid ++ c :: post' /\ ~ In o pre' /\ ~ In c post'.
Proof.
  intros E Hu Hv Hpre Hpost.
  destruct (app_cons_first o u (t ++ v) pre (mid ++ c :: post) E Hu)
    as (pre' & -> & E1).
  replace (pre' ++ o :: mid ++ c :: post)
    with ((pre' ++ o :: mid) ++ c :: post) in E1
    by (now rewrite <- app_assoc).
  destruct (app_cons_last c t v (pre' ++ o :: mid) post E1 Hv)
    as (post' & -> & ->).
  exists pre', post'. rewrite <- app_assoc. simpl. repeat split.
  - intro H. apply Hpre. apply in_or_app. now right.
  - intro H. apply Hpost. apply in_or_app. now left.
Qed.

Lemma TrimPrefix_frame (s p : gostring) :
  exists u, s = u ++ strings.TrimPrefix s p /\ (u = p \/ u = []).
Proof.
  unfold strings.TrimPrefix. destruct (strings.HasPrefix s p) eqn:H.
  - exists p. split; [now apply HasPrefix_true | now left].
  - exists []. split; [reflexivity | now right].
Qed.

Lemma TrimSuffix_frame (s p : gostring) :
  exists v, s = strings.TrimSuffix s p ++ v /\ (v = p \/ v = []).
Proof.
  unfold strings.TrimSuffix. destruct (strings.HasSuffix s p) eqn:H.
  - exists p. split; [now apply HasSuffix_true | now left].
  - exists []. split; [now rewrite app_nil_r | now right].
Qed.

(** Cleaning removes text before the first opening and after the last
    closing brace only. *)
Lemma strip_code_fence_core (pre mid post : gostring) :
  ~ In x7b pre -> ~ In x7d post ->
  exists pre' post',
    strip_code_fence (pre ++ x7b :: mid ++ x7d :: post)
    = pre' ++ x7b :: mid ++ x7d :: post'
    /\ ~ In x7b pre' /\ ~ In x7d post'.
Proof.
  intros Hpre Hpost. unfold strip_code_fence.
  set (s0 := pre ++ x7b :: mid ++ x7d :: post).
  destruct (TrimSpace_split s0) as (w1 & w2 & Hw1 & Hw2 & E0).
  destruct (core_kept x7b x7d w1 (strings.TrimSpace s0) w2 pre mid post)
    as (pre1 & post1 & E1 & Hpre1 & Hpost1); try assumption.
  { now rewrite <- E0. }
  { now apply spaces_no_byte. }
  { now apply spaces_no_byte. }
  set (s1 := strings.TrimSpace s0) in *.
  destruct (TrimPrefix_frame s1 "```json") as (u2 & E2 & Hu2).
  destruct (core_kept x7b x7d u2 (strings.TrimPrefix s1 "```json") []
              pre1 mid post1)
    as (pre2 & post2 & E2' & Hpre2 & Hpost2); try assumption.
  { now rewrite app_nil_r, <- E2. }
  { destruct Hu2 as [->| ->]; vm_compute; intuition discriminate. }
  { intros []. }
  set (s2 := strings.TrimPrefix s1 "```json") in *.
  destruct (TrimPrefix_frame s2 "```") as (u3 & E3 & Hu3).
  destruct (core_kept x7b x7d u3 (strings.TrimPrefix s2 "```") []
              pre2 mid post2)
    as (pre3 & post3 & E3' & Hpre3 & Hpost3); try assumption.
  { now rewrite app_nil_r, <- E3. }
  { destruct Hu3 as [->| ->]; vm_compute; intuition discriminate. }
  { intros []. }
  set (s3 := strings.TrimPrefix s2 "```") in *.
  destruct (TrimSuffix_frame s3 "```") as (v4 & E4 & Hv4).
  destruct (core_kept x7b x7d [] (strings.TrimSuffix s3 "```") v4
              pre3 mid post3)
    as (pre4 & post4 & E4' & Hpre4 & Hpost4); try assumption.
  { simpl. now rewrite <- E4. }
  { intros []. }
  { destruct Hv4 as [->| ->]; vm_compute; intuition discriminate. }
  set (s4 := strings.TrimSuffix s3 "```") in *.
  destruct (TrimSpace_split s4) as (w5 & w6 & Hw5 & Hw6 & E5).
  destruct (core_kept x7b x7d w5 (strings.TrimSpace s4) w6 pre4 mid post4)
    as (pre5 & post5 & E5' & Hpre5 & Hpost5); try assumption.
  { now rewrite <- E5. }
  { now apply spaces_no_byte. }
  { now apply spaces_no_byte. }
  now exists pre5, post5.
Qed.

(** X1.  [parseAIResponse] does not look at what stands before the first
    opening brace and after the last closing brace of the reply: prose,
    code fences or white space there change neither the review returned
    nor the reason of a default. *)
Theorem parseAIResponse_ignores_text_around_braces :
  forall (decode : gostring -> option AICodeReview) (pre mid post : gostring),
    ~ In x7b pre -> ~ In x7d post ->
    parseAIResponse decode (pre ++ x7b :: mid ++ x7d :: post)
    = parseAIResponse decode (x7b :: mid ++ [x7d]).
Proof.
  intros decode pre mid post Hpre Hpost.
  rewrite !parseAIResponse_paths.
  destruct (strip_code_fence_core pre mid post Hpre Hpost)
    as (pre' & post' & E & Hpre' & Hpost').
  rewrite (json_candidate_some _ pre' mid post' E Hpre' Hpost').
  rewrite (json_candidate_object (x7b :: mid ++ [x7d]) (mid ++ [x7d]) (x7b :: mid))
    by reflexivity.
  reflexivity.
Qed.

Lemma parseAIResponse_ignores_text_around_braces_witness :
  ExtractObject (str "Here is my review: " ++ complete_review ++ str " - hope it helps!")
  = ExtractObject complete_review.
Proof.
  refine (eq_trans _ (eq_trans
    (parseAIResponse_ignores_text_around_braces json.Unmarshal_AICodeReview
       "Here is my review: "
       (removelast (tl complete_review))
       " - hope it helps!" _ _) _)).
  - vm_compute. reflexivity.
  - vm_compute. intuition discriminate.
  - vm_compute. intuition discriminate.
  - vm_compute. reflexivity.
Defined.

(** X2.  [parseQuestions] does not look at what stands before the first
    opening bracket and after the last closing bracket of the reply. *)
Theorem parseQuestions_ignores_text_around_brackets :
  forall (decode : gostring -> option (slice gostring)) (pre mid post : gostring),
    ~ In x5b pre -> ~ In x5d post ->
    parseQuestions decode (pre ++ x5b :: mid ++ x5d :: post)
    = parseQuestions decode (x5b :: mid ++ [x5d]).
Proof.
  intros decode pre mid post Hpre Hpost.
  rewrite !parseQuestions_paths.
  rewrite (array_candidate_some pre mid post Hpre Hpost).
  change (x5b :: mid ++ [x5d]) with ([] ++ x5b :: mid ++ [x5d]) at 2.
  rewrite (array_candidate_some [] mid []) by (intros []).
  reflexivity.
Qed.

Lemma parseQuestions_ignores_text_around_brackets_witness :
  ExtractArray (json.text "Sure! ['Why a map?', 'What if it is empty?'] Good luck.")
  = ExtractArray (json.text "['Why a map?', 'What if it is empty?']").
Proof.
  refine (eq_trans _ (eq_trans
    (parseQuestions_ignores_text_around_brackets json.Unmarshal_strings
       "Sure! " (json.text "'Why a map?', 'What if it is empty?'")
       " Good luck." _ _) _)).
  - vm_compute. reflexivity.
  - vm_compute. intuition discriminate.
  - vm_compute. intuition discriminate.
  - vm_compute. reflexivity.
Defined.

(** ** The shape of the replies that panic *)

(** The slice from the first opening to the last closing byte is out of
    bounds exactly when the last closing byte comes first, with at least
    one byte between the two. *)
Lemma candidate_slice_out_of_bounds (o c : byte) (s : gostring) (e : runtime_error) :
  o <> c ->
  ((strings.Index s [o] =? -1) || (strings.LastIndex s [c] =? -1) = false
   /\ slice_expr s (strings.Index s [o]) (strings.LastIndex s [c] + 1) = Panicked e)
  <-> exists a b d,
        s = a ++ c :: b ++ o :: d
        /\ b <> [] /\ ~ In o (a ++ b) /\ ~ In c (b ++ d)
        /\ e = slice_bounds_out_of_range (len a + 1 + len b) (len a + 1) (len s).
Proof.
  intro Hoc. split.
  - intros [G P].
    apply orb_false_iff in G as [Gs Ge].
    apply Z.eqb_neq in Gs, Ge.
    destruct (Index_range s o) as [[Es _]|[Rs Ho]]; [contradiction|].
    destruct (LastIndex_range s c) as [[Ee _]|[Re Hc]]; [contradiction|].
    destruct (in_split_first o s Ho) as (pre & post & E1 & Hpre).
    destruct (in_split_last c s Hc) as (pre2 & post2 & E2 & Hpost2).
    assert (Is : strings.Index s [o] = len pre)
      by (rewrite E1; now apply Index_found).
    assert (Ie : strings.LastIndex s [c] = len pre2)
      by (rewrite E2 at 1; now apply LastIndex_found).
    unfold slice_expr in P.
    destruct ((0 <=? strings.Index s [o])
              && (strings.Index s [o] <=? strings.LastIndex s [c] + 1)
              && (strings.LastIndex s [c] + 1 <=? len s)) eqn:B;
      [discriminate P|].
    injection P as <-.
    assert (Hlt : len pre2 + 1 < len pre).
    { apply andb_false_iff in B as [B|B];
        [apply andb_false_iff in B as [B|B]|]; apply Z.leb_gt in B; lia. }
    assert (E : pre ++ o :: post = pre2 ++ c :: post2) by congruence.
    apply app_eq_app in E as [l [[Ea Eb]|[Ea Eb]]].
    + (* pre = pre2 ++ l *)
      destruct l as [|x l].
      * rewrite app_nil_r in Ea. subst pre. lia.
      * simpl in Eb. injection Eb as <- Eb.
        exists pre2, l, post. subst pre post2.
        repeat split.
        -- rewrite E1, <- app_assoc. reflexivity.
        -- intros ->. unfold len in Hlt. rewrite length_app in Hlt.
           simpl length in Hlt. lia.
        -- intro H. apply Hpre. apply in_app_or in H as [H|H];
             apply in_or_app; [now left | right; now right].
        -- intro H. apply Hpost2. apply in_app_or in H as [H|H];
             apply in_or_app; [now left | right; now right].
        -- rewrite Is, Ie. f_equal.
           unfold len. rewrite length_app. simpl length. lia.
    + (* pre2 = pre ++ l *)
      subst pre2. unfold len in Hlt. rewrite length_app in Hlt. lia.
  - intros (a & b & d & -> & Hb & Ho & Hc & ->).
    assert (Is : strings.Index (a ++ c :: b ++ o :: d) [o] = len a + 1 + len b).
    { replace (a ++ c :: b ++ o :: d) with ((a ++ c :: b) ++ o :: d)
        by (now rewrite <- app_assoc).
      rewrite Index_found.
      - unfold len. rewrite length_app. simpl length. lia.
      - intro H. apply in_app_or in H as [H|[H|H]].
        + apply Ho. apply in_or_app. now left.
        + now apply Hoc.
        + apply Ho. apply in_or_app. now right. }
    assert (Ie : strings.LastIndex (a ++ c :: b ++ o :: d) [c] = len a).
    { apply LastIndex_found.
      intro H. apply in_app_or in H as [H|[H|H]].
      - apply Hc. apply in_or_app. now left.
      - now apply Hoc.
      - apply Hc. apply in_or_app. now right. }
    rewrite Is, Ie.
    pose proof (len_nonneg a). pose proof (len_nonneg b).
    assert (0 < len b)
      by (destruct b; [contradiction | unfold len; simpl length; lia]).
    split.
    + apply orb_false_iff. split; apply Z.eqb_neq; lia.
    + unfold slice_expr.
      replace (len a + 1 + len b <=? len a + 1) with false
        by (symmetry; apply Z.leb_gt; lia).
      now rewrite andb_false_r.
Qed.

(** X3.  [parseQuestions] panics on exactly the replies whose last
    closing bracket comes before the first opening bracket with at least
    one byte in between, and the panic is the slice out of bounds with
    the two indices in the wrong order. *)
Theorem parseQuestions_panics_exactly :
  forall (decode : gostring -> option (slice gostring))
         (response : gostring) (e : runtime_error),
    parseQuestions decode response = Panicked e
    <-> exists a b d,
          response = a ++ x5d :: b ++ x5b :: d
          /\ b <> [] /\ ~ In x5b (a ++ b) /\ ~ In x5d (b ++ d)
          /\ e = slice_bounds_out_of_range
                   (len a + 1 + len b) (len a + 1) (len response).
Proof.
  intros decode response e.
  rewrite <- (candidate_slice_out_of_bounds x5b x5d) by discriminate.
  unfold parseQuestions.
  change (str "[") with [x5b]. change (str "]") with [x5d].
  destruct ((strings.Index response [x5b] =? -1)
            || (strings.LastIndex response [x5d] =? -1)).
  - split; [discriminate | intros [G _]; discriminate G].
  - destruct (slice_expr _ _ _) as [jsonStr|e']; cbn [bind].
    + split; [|intros [_ P]; discriminate P].
      destruct (decode jsonStr); discriminate.
    + split; [intros [= ->]; now split | intros [_ [= ->]]; reflexivity].
Qed.

(** X4.  [parseAIResponse] panics on exactly the replies of which the
    cleaned text has its last closing brace before its first opening
    brace with at least one byte in between. *)
Theorem parseAIResponse_panics_exactly :
  forall (decode : gostring -> option AICodeReview)
         (response : gostring) (e : runtime_error),
    parseAIResponse decode response = Panicked e
    <-> exists a b d,
          strip_code_fence response = a ++ x7d :: b ++ x7b :: d
          /\ b <> [] /\ ~ In x7b (a ++ b) /\ ~ In x7d (b ++ d)
          /\ e = slice_bounds_out_of_range
                   (len a + 1 + len b) (len a + 1)
                   (len (strip_code_fence response)).
Proof.
  intros decode response e.
  rewrite <- (candidate_slice_out_of_bounds x7b x7d) by discriminate.
  rewrite parseAIResponse_paths. unfold json_candidate.
  change (str "{") with [x7b]. change (str "}") with [x7d].
  destruct ((strings.Index (strip_code_fence response) [x7b] =? -1)
            || (strings.LastIndex (strip_code_fence response) [x7d] =? -1)).
  - cbn [bind]. split; [discriminate | intros [G _]; discriminate G].
  - destruct (slice_expr _ _ _) as [jsonStr|e']; cbn [bind].
    + split; [|intros [_ P]; discriminate P].
      destruct (negb _); [discriminate|].
      destruct (decode jsonStr) as [review|]; [|discriminate].
      destruct (signals_all_zero review); discriminate.
    + split; [intros [= ->]; now split | intros [_ [= ->]]; reflexivity].
Qed.

Lemma parseQuestions_panics_exactly_witness :
  ExtractArray "] [" = Panicked (slice_bounds_out_of_range 2 1 3).
Proof.
  apply (proj2 (parseQuestions_panics_exactly json.Unmarshal_strings "] [" _)).
  exists [], [x20], [].
  repeat split; try discriminate; vm_compute; intuition discriminate.
Defined.

Lemma parseAIResponse_panics_exactly_witness :
  ExtractObject "} {" = Panicked (slice_bounds_out_of_range 2 1 3).
Proof.
  apply (proj2 (parseAIResponse_panics_exactly json.Unmarshal_AICodeReview "} {" _)).
  exists [], [x20], [].
  repeat split; try discriminate; vm_compute; intuition discriminate.
Defined.

(** ** The plain-text cleaners *)

Lemma parseHint_nonempty (response : gostring) : parseHint response <> [].
Proof.
  unfold parseHint. destruct (gostring_eqb _ _) eqn:E.
  - discriminate.
  - now apply gostring_neq.
Qed.

Lemma parseChatResponse_nonempty (response : gostring) :
  parseChatResponse response <> [].
Proof.
  unfold parseChatResponse. destruct (gostring_eqb _ _) eqn:E.
  - discriminate.
  - now apply gostring_neq.
Qed.


(** X6.  White space around the reply, Unicode white space included,
    changes the result of none of the three functions that clean the
    reply first. *)
Theorem white_space_around_the_reply_is_ignored :
  forall (decode : gostring -> option AICodeReview) (w1 response w2 : gostring),
    spaces w1 -> spaces w2 ->
    parseHint (w1 ++ response ++ w2) = parseHint response
    /\ parseChatResponse (w1 ++ response ++ w2) = parseChatResponse response
    /\ parseAIResponse decode (w1 ++ response ++ w2)
       = parseAIResponse decode response.
Proof.
  intros decode w1 response w2 H1 H2. repeat split.
  - unfold parseHint. now rewrite TrimSpace_spaces_around.
  - unfold parseChatResponse. now rewrite TrimSpace_spaces_around.
  - apply parseAIResponse_cleaned. unfold strip_code_fence.
    now rewrite TrimSpace_spaces_around.
Qed.

Lemma white_space_around_the_reply_is_ignored_witness :
  parseHint ([x20; x0a] ++ str "Use a map." ++ [xc2; xa0]) = parseHint "Use a map."
  /\ parseChatResponse ([x20; x0a] ++ str "Use a map." ++ [xc2; xa0])
     = parseChatResponse "Use a map."
  /\ ExtractObject ([x20; x0a] ++ str "Use a map." ++ [xc2; xa0])
     = ExtractObject "Use a map.".
Proof.
  apply (white_space_around_the_reply_is_ignored json.Unmarshal_AICodeReview
           [x20; x0a] "Use a map." [xc2; xa0]).
  - constructor; [reflexivity|]. constructor; [reflexivity | constructor].
  - apply spaces_two; [reflexivity | constructor].
Defined.

(** X7.  [createFallbackReview] never panics, whatever the length of the
    text it is given, and its feedback has between 126 and 628 bytes: the
    two fixed sentences and at most 503 bytes for the text. *)
Theorem createFallbackReview_feedback_is_bounded :
  forall reason rawResponse : gostring,
    exists r,
      createFallbackReview reason rawResponse = Returned r
      /\ 126 <= len (InterviewerFeedback r) <= 628.
Proof.
  intros reason rawResponse. rewrite createFallbackReview_returns.
  eexists. split; [reflexivity|].
  unfold canonical_default, InterviewerFeedback. rewrite !len_app.
  change (len prompt_before) with 54. change (len prompt_after) with 71.
  assert (1 <= len (echo rawResponse) <= 503); [|lia].
  unfold echo. destruct rawResponse as [|b r]; [vm_compute; intuition discriminate|].
  destruct (500 <? len (b :: r)) eqn:L.
  - apply Z.ltb_lt in L. rewrite len_app. unfold len in *.
    rewrite firstn_length_le by lia. simpl length. lia.
  - apply Z.ltb_ge in L. unfold len in *. simpl length in *. lia.
Qed.

(** ** The requests of the service *)

Lemma subslice_tail {A : Type} (l : list A) (start : Z) :
  0 <= start <= len l ->
  subslice l start (len l) = Done (skipn (Z.to_nat start) l).
Proof.
  intro H. unfold subslice.
  replace ((0 <=? start) && (start <=? len l) && (len l <=? len l)) with true
    by (symmetry; rewrite !andb_true_iff, !Z.leb_le; lia).
  f_equal. apply firstn_all2. rewrite length_skipn. unfold len in *. lia.
Qed.

(** *** Follow-up suggestions *)

Section FollowUp.

Variable Challenge : Type.
Variable lower : Z -> Z.

(** What [generateFollowUpSuggestions] returns for each of the eight
    ways the three groups of key words can be found. *)
Lemma generateFollowUpSuggestions_cases
    (userMessage aiResponse : gostring) (challenge : option Challenge) :
  let userLower := strings_ToLower lower userMessage in
  let asks_explain :=
    strings_Contains userLower "explain" || strings_Contains userLower "what" in
  let asks_error :=
    strings_Contains userLower "error" || strings_Contains userLower "problem" in
  let asks_optimize :=
    strings_Contains userLower "optimize"
    || strings_Contains userLower "performance" in
  generateFollowUpSuggestions lower userMessage aiResponse challenge
  = Done (Some
      (if asks_explain then
         str "Can you show me an example?" :: str "How would I implement this?"
         :: (if asks_error then [str "How can I debug this?"]
             else if asks_optimize then [str "What's the time complexity?"] else [])
       else if asks_error then
         str "How can I debug this?" :: str "What's the best practice here?"
         :: (if asks_optimize then [str "What's the time complexity?"] else [])
       else if asks_optimize then
         [str "What's the time complexity?"; str "Are there other approaches?"]
       else
         [str "Can you explain this more?"; str "Show me best practices";
          str "Help with the current challenge"])).
Proof.
  cbv zeta. unfold generateFollowUpSuggestions.
  destruct (strings_Contains _ "explain" || strings_Contains _ "what");
    destruct (strings_Contains _ "error" || strings_Contains _ "problem");
    destruct (strings_Contains _ "optimize" || strings_Contains _ "performance");
    reflexivity.
Qed.

(** Two or three suggestions, all different. *)
Lemma generateFollowUpSuggestions_count
    (userMessage aiResponse : gostring) (challenge : option Challenge) :
  exists l,
    generateFollowUpSuggestions lower userMessage aiResponse challenge
    = Done (Some l)
    /\ (2 <= length l <= 3)%nat
    /\ NoDup l.
Proof.
  rewrite generateFollowUpSuggestions_cases. cbv zeta.
  set (e := strings_Contains _ "explain" || strings_Contains _ "what").
  set (r := strings_Contains _ "error" || strings_Contains _ "problem").
  set (o := strings_Contains _ "optimize" || strings_Contains _ "performance").
  clearbody e r o.
  eexists. split; [reflexivity|].
  destruct e, r, o; (split; [simpl; lia|]);
    repeat (constructor; [simpl; intuition discriminate|]); constructor.
Qed.

(** X8.  [generateFollowUpSuggestions] never panics and never returns a
    nil or an empty slice: it returns two or three different suggestions,
    whatever the message, and every one of them is a question or a
    request of the fixed catalogue of nine. *)
Theorem generateFollowUpSuggestions_two_or_three :
  forall (userMessage aiResponse : gostring) (challenge : option Challenge),
    exists l,
      generateFollowUpSuggestions lower userMessage aiResponse challenge
      = Done (Some l)
      /\ (2 <= length l <= 3)%nat
      /\ NoDup l
      /\ incl l [str "Can you show me an example?";
                 str "How would I implement this?";
                 str "How can I debug this?";
                 str "What's the best practice here?";
                 str "What's the time complexity?";
                 str "Are there other approaches?";
                 str "Can you explain this more?";
                 str "Show me best practices";
                 str "Help with the current challenge"].
Proof.
  intros userMessage aiResponse challenge.
  destruct (generateFollowUpSuggestions_count userMessage aiResponse challenge)
    as (l & E & Hlen & Hnd).
  exists l. repeat split; try assumption; try lia.
  rewrite generateFollowUpSuggestions_cases in E. cbv zeta in E.
  revert E.
  set (e := strings_Contains _ "explain" || strings_Contains _ "what").
  set (r := strings_Contains _ "error" || strings_Contains _ "problem").
  set (o := strings_Contains _ "optimize" || strings_Contains _ "performance").
  clearbody e r o.
  destruct e, r, o; intros [= <-]; intros x Hx;
    repeat (destruct Hx as [<-|Hx];
            [cbn [In]; repeat first [left; reflexivity | right]|]);
    destruct Hx.
Qed.

(** X9.  Because the list is cut to three, the second suggestion of the
    third group is returned only when the message holds a key word of
    that group and none of the two others; the default suggestions are
    returned exactly when the message holds no key word at all. *)
Theorem generateFollowUpSuggestions_cut_and_default :
  forall (userMessage aiResponse : gostring) (challenge : option Challenge)
         (l : list gostring),
    generateFollowUpSuggestions lower userMessage aiResponse challenge
    = Done (Some l) ->
    let userLower := strings_ToLower lower userMessage in
    let asks_explain :=
      strings_Contains userLower "explain" || strings_Contains userLower "what" in
    let asks_error :=
      strings_Contains userLower "error" || strings_Contains userLower "problem" in
    let asks_optimize :=
      strings_Contains userLower "optimize"
      || strings_Contains userLower "performance" in
    (In (str "Are there other approaches?") l
     <-> asks_explain = false /\ asks_error = false /\ asks_optimize = true)
    /\ (l = [str "Can you explain this more?"; str "Show me best practices";
             str "Help with the current challenge"]
        <-> asks_explain = false /\ asks_error = false /\ asks_optimize = false).
Proof.
  intros userMessage aiResponse challenge l.
  rewrite generateFollowUpSuggestions_cases. cbv zeta.
  set (e := strings_Contains _ "explain" || strings_Contains _ "what").
  set (r := strings_Contains _ "error" || strings_Contains _ "problem").
  set (o := strings_Contains _ "optimize" || strings_Contains _ "performance").
  clearbody e r o.
  destruct e, r, o; intros [= <-]; split; split;
    try (intros (? & ? & ?); discriminate);
    try (intros _; repeat split; reflexivity);
    try (intro H; simpl in H; intuition discriminate);
    try discriminate;
    try (intros _; simpl; intuition reflexivity).
Qed.

End FollowUp.

(** *** The prompt of the chat *)

Section ChatPrompt.

Variable Challenge : Type.
Variable Title : Challenge -> gostring.

Lemma buildChatPrompt_returns
    (userMessage : gostring) (challenge : option Challenge)
    (conversationHistory : slice ChatMessage.t) (codeContext : gostring) :
  exists prompt,
    buildChatPrompt Title userMessage challenge conversationHistory codeContext
    = Done prompt.
Proof.
  unfold buildChatPrompt.
  destruct (0 <? len (elements conversationHistory)) eqn:L.
  - rewrite subslice_tail.
    + cbn [and_then]. eexists. reflexivity.
    + pose proof (len_nonneg (elements conversationHistory)).
      destruct (5 <? len (elements conversationHistory)) eqn:F; [|lia].
      apply Z.ltb_lt in F. lia.
  - cbn [and_then]. eexists. reflexivity.
Qed.

(** X10.  [buildChatPrompt] never panics: the challenge may be nil, the
    history nil, empty or of any length (its slice is always in bounds),
    and the prompt always ends with the same closing sentence. *)
Theorem buildChatPrompt_never_panics :
  forall (userMessage : gostring) (challenge : option Challenge)
         (conversationHistory : slice ChatMessage.t) (codeContext : gostring),
    exists body,
      buildChatPrompt Title userMessage challenge conversationHistory codeContext
      = Done (chatPrompt_0 ++ body ++ chatPrompt_5).
Proof.
  intros userMessage challenge conversationHistory codeContext.
  unfold buildChatPrompt.
  destruct (0 <? len (elements conversationHistory)) eqn:L.
  - rewrite subslice_tail.
    + cbn [and_then]. cbv zeta.
      match goal with
      | |- exists body,
             Done (_ ++ ?a ++ ?b ++ ?c ++ ?d ++ ?e ++ ?f ++ ?g ++ ?h ++ ?i ++ _) = _ =>
        exists (a ++ b ++ c ++ d ++ e ++ f ++ g ++ h ++ i)
      end.
      rewrite <- !app_assoc. reflexivity.
    + pose proof (len_nonneg (elements conversationHistory)).
      destruct (5 <? len (elements conversationHistory)) eqn:F; [|lia].
      apply Z.ltb_lt in F. lia.
  - cbn [and_then]. cbv zeta.
    match goal with
    | |- exists body,
           Done (_ ++ ?a ++ ?b ++ ?c ++ ?d ++ ?e ++ ?f ++ ?g ++ ?h ++ ?i ++ _) = _ =>
      exists (a ++ b ++ c ++ d ++ e ++ f ++ g ++ h ++ i)
    end.
    rewrite <- !app_assoc. reflexivity.
Qed.

(** X11.  Only the last five messages of the history reach the prompt:
    whatever stands before them changes nothing. *)
Theorem buildChatPrompt_reads_the_last_five_messages :
  forall (userMessage : gostring) (challenge : option Challenge)
         (older recent : list ChatMessage.t) (codeContext : gostring),
    length recent = 5%nat ->
    buildChatPrompt Title userMessage challenge (Some (older ++ recent)) codeContext
    = buildChatPrompt Title userMessage challenge (Some recent) codeContext.
Proof.
  intros userMessage challenge older recent codeContext H5.
  assert (Lr : len recent = 5) by (unfold len; lia).
  assert (La : len (older ++ recent) = len older + 5)
    by (rewrite len_app; lia).
  pose proof (len_nonneg older) as Ho.
  assert (S1 : subslice (older ++ recent)
                 (if 5 <? len (older ++ recent)
                  then len (older ++ recent) - 5 else 0)
                 (len (older ++ recent)) = Done recent).
  { rewrite subslice_tail by (destruct (5 <? _); lia).
    f_equal. destruct (5 <? len (older ++ recent)) eqn:F.
    - replace (len (older ++ recent) - 5) with (len older) by lia.
      unfold len. now rewrite Nat2Z.id, skipn_app, skipn_all, Nat.sub_diag.
    - apply Z.ltb_ge in F.
      destruct older; [reflexivity | unfold len in *; simpl length in *; lia]. }
  assert (S2 : subslice recent
                 (if 5 <? len recent then len recent - 5 else 0)
                 (len recent) = Done recent).
  { replace (if 5 <? len recent then len recent - 5 else 0) with 0
      by (rewrite Lr; reflexivity).
    rewrite subslice_tail by lia. reflexivity. }
  assert (G1 : (0 <? len (older ++ recent)) = true) by (apply Z.ltb_lt; lia).
  assert (G2 : (0 <? len recent) = true) by (apply Z.ltb_lt; lia).
  unfold buildChatPrompt. cbn [elements].
  rewrite S1, S2, G1, G2. reflexivity.
Qed.

(** X12.  Code that is white space only counts as no code: the prompt is
    the one built without code. *)
Theorem buildChatPrompt_blank_code_is_no_code :
  forall (userMessage : gostring) (challenge : option Challenge)
         (conversationHistory : slice ChatMessage.t) (codeContext : gostring),
    spaces codeContext ->
    buildChatPrompt Title userMessage challenge conversationHistory codeContext
    = buildChatPrompt Title userMessage challenge conversationHistory [].
Proof.
  intros userMessage challenge conversationHistory codeContext H.
  unfold buildChatPrompt. rewrite (TrimSpace_spaces codeContext) by assumption.
  change (gostring_eqb [] "") with true. cbn [negb andb].
  rewrite andb_false_r. reflexivity.
Qed.

End ChatPrompt.

(** *** The prompt of the hint *)

Section HintPrompt.

Variable Challenge : Type.
Variable Title : Challenge -> gostring.

(** X13.  A context that is not empty takes the place of the title in the
    prompt of the hint: the prompt is then the same for every challenge
    that is not nil. *)
Theorem buildHintPrompt_context_replaces_title :
  forall (code : gostring) (c1 c2 : Challenge) (hintLevel : Z) (context : gostring),
    context <> [] ->
    buildHintPrompt Title code (Some c1) hintLevel context
    = buildHintPrompt Title code (Some c2) hintLevel context.
Proof.
  intros code c1 c2 hintLevel context H.
  unfold buildHintPrompt. cbn [deref and_then].
  destruct (gostring_eqb context "") eqn:E; [|reflexivity].
  apply gostring_eqb_eq in E. contradiction.
Qed.

End HintPrompt.

(** *** Code review *)

Section Review.

Variable Challenge : Type.
Variable Title : Challenge -> gostring.
Variable gemini : AIService.t -> gostring -> bool -> gostring * error.
Variable openai : AIService.t -> gostring -> bool -> gostring * error.
Variable claude : AIService.t -> gostring -> bool -> gostring * error.
Variable decode : gostring -> option AICodeReview.

Local Notation "'provider_call'" := (callLLMWithOpts gemini openai claude).

(** X14.  Whenever [ReviewCode] returns, its error is nil and the review
    has a signal: its two scores and its feedback are not all zero, be it
    the notice about the missing key, the notice about the failed call, a
    fallback or a decoded review. *)
Theorem ReviewCode_returns_a_review_with_a_signal :
  forall (ai : AIService.t) (code : gostring) (challenge : option Challenge)
         (context : gostring) (r : AICodeReview) (err : error),
    ReviewCode Title gemini openai claude decode ai code challenge context
    = Done (r, err) ->
    err = None /\ signals_all_zero r = false.
Proof.
  intros ai code challenge context r err. unfold ReviewCode.
  destruct (gostring_eqb _ _).
  - intros [= <- <-]. split; reflexivity.
  - destruct challenge as [c|]; [|discriminate].
    cbn [buildCodeReviewPrompt deref and_then].
    destruct (provider_call _ _ _) as [response [e|]].
    + intros [= <- <-]. split; reflexivity.
    + destruct (parseAIResponse decode response) as [[review e]|pe] eqn:P;
        cbn [of_result and_then]; [|discriminate].
      pose proof (parseAIResponse_error_nil decode response review e P) as ->.
      intros [= <- <-]. split; [reflexivity|].
      exact (parseAIResponse_signal decode response review None P).
Qed.


(** X15.  When the provider replies, [ReviewCode] returns what
    [parseAIResponse] makes of the reply and nothing else: the branch
    for an error of the parser is never taken. *)
Theorem ReviewCode_is_parseAIResponse_on_a_reply :
  forall (ai : AIService.t) (code : gostring) (c : Challenge)
         (context prompt response : gostring),
    LLMConfig.APIKey (AIService.config ai) <> [] ->
    buildCodeReviewPrompt Title code (Some c) context = Done prompt ->
    provider_call ai prompt true = (response, None) ->
    ReviewCode Title gemini openai claude decode ai code (Some c) context
    = of_result (parseAIResponse decode response).
Proof.
  intros ai code c context prompt response K P R. unfold ReviewCode.
  destruct (gostring_eqb _ _) eqn:E;
    [apply gostring_eqb_eq in E; contradiction|].
  rewrite P. cbn [and_then]. rewrite R.
  destruct (parseAIResponse decode response) as [[review e]|pe] eqn:Q;
    cbn [of_result and_then]; [|reflexivity].
  now rewrite (parseAIResponse_error_nil decode response review e Q).
Qed.

(** X16.  [ReviewCode] panics in two cases only, both with a key
    configured: on a nil challenge, before any call of the provider, and
    when the provider replies with a text on which [parseAIResponse]
    panics; nothing recovers from the panic of the parser. *)
Theorem ReviewCode_panics_exactly :
  forall (ai : AIService.t) (code : gostring) (challenge : option Challenge)
         (context : gostring) (p : panic_value),
    ReviewCode Title gemini openai claude decode ai code challenge context
    = Panic p
    <-> LLMConfig.APIKey (AIService.config ai) <> []
        /\ (challenge = None /\ p = nil_pointer_dereference
            \/ exists prompt response e,
                 buildCodeReviewPrompt Title code challenge context = Done prompt
                 /\ provider_call ai prompt true = (response, None)
                 /\ parseAIResponse decode response = Panicked e
                 /\ p = runtime_panic e).
Proof.
  intros ai code challenge context p. unfold ReviewCode.
  destruct (gostring_eqb _ _) eqn:E.
  - apply gostring_eqb_eq in E.
    split; [discriminate | intros [K _]; contradiction].
  - apply gostring_neq in E.
    destruct challenge as [c|]; cbn [buildCodeReviewPrompt deref and_then].
    + destruct (provider_call _ _ _) as [response [e|]] eqn:R.
      * split; [discriminate|].
        intros [_ [[H _]|(prompt & response' & e' & [= <-] & R' & _)]];
          [discriminate H|].
        pose proof (eq_trans (eq_sym R) R') as X. discriminate X.
      * destruct (parseAIResponse decode response) as [[review e]|pe] eqn:Q;
          cbn [of_result and_then].
        -- pose proof (parseAIResponse_error_nil decode response review e Q) as ->.
           split.
           ++ discriminate.
           ++ intros [_ [[H _]|(prompt & response' & e' & [= <-] & R' & Q' & _)]];
                [discriminate H|].
              pose proof (eq_trans (eq_sym R) R') as X. injection X as <-.
              rewrite Q in Q'. discriminate Q'.
        -- split.
           ++ intros [= <-]. split; [assumption|]. right.
              eexists _, response, pe. repeat split; assumption.
           ++ intros [_ [[H _]|(prompt & response' & e' & [= <-] & R' & Q' & ->)]];
                [discriminate H|].
              pose proof (eq_trans (eq_sym R) R') as X. injection X as <-.
              rewrite Q in Q'. now injection Q' as <-.
    + split.
      * intros [= <-]. split; [assumption|]. now left.
      * intros [_ [[_ ->]|(prompt & _ & _ & H & _)]]; [reflexivity|discriminate H].
Qed.

End Review.

(** *** Questions *)

Section Questions.

Variable Challenge : Type.
Variable Title : Challenge -> gostring.
Variable gemini : AIService.t -> gostring -> bool -> gostring * error.
Variable openai : AIService.t -> gostring -> bool -> gostring * error.
Variable claude : AIService.t -> gostring -> bool -> gostring * error.
Variable decode_strings : gostring -> option (slice gostring).

Local Notation "'provider_call'" := (callLLMWithOpts gemini openai claude).

(** X17.  [GetInterviewerQuestions] panics in two cases only, both with
    a key configured: on a nil challenge, and when the provider replies
    with a text on which [parseQuestions] panics; whenever it returns,
    its error is nil. *)
Theorem GetInterviewerQuestions_panics_exactly :
  forall (ai : AIService.t) (code : gostring) (challenge : option Challenge)
         (userProgress : gostring),
    (forall p,
       GetInterviewerQuestions Title gemini openai claude decode_strings
         ai code challenge userProgress = Panic p
       <-> LLMConfig.APIKey (AIService.config ai) <> []
           /\ (challenge = None /\ p = nil_pointer_dereference
               \/ exists prompt response e,
                    buildQuestionPrompt Title code challenge userProgress
                    = Done prompt
                    /\ provider_call ai prompt true = (response, None)
                    /\ parseQuestions decode_strings response = Panicked e
                    /\ p = runtime_panic e))
    /\ (forall questions err,
          GetInterviewerQuestions Title gemini openai claude decode_strings
            ai code challenge userProgress = Done (questions, err) ->
          err = None).
Proof.
  intros ai code challenge userProgress. unfold GetInterviewerQuestions.
  destruct (gostring_eqb _ _) eqn:E.
  - apply gostring_eqb_eq in E. split.
    + intro p. split; [discriminate | intros [K _]; contradiction].
    + now intros questions err [= _ <-].
  - apply gostring_neq in E.
    destruct challenge as [c|]; cbn [buildQuestionPrompt deref and_then].
    + destruct (provider_call _ _ _) as [response [e|]] eqn:R.
      * split; [|now intros questions err [= _ <-]].
        intro p. split; [discriminate|].
        intros [_ [[H _]|(prompt & response' & e' & [= <-] & R' & _)]];
          [discriminate H|].
        pose proof (eq_trans (eq_sym R) R') as X. discriminate X.
      * destruct (parseQuestions decode_strings response) as [q|pe] eqn:Q;
          cbn [of_result and_then].
        -- split; [|now intros questions err [= _ <-]].
           intro p. split; [discriminate|].
           intros [_ [[H _]|(prompt & response' & e' & [= <-] & R' & Q' & _)]];
             [discriminate H|].
           pose proof (eq_trans (eq_sym R) R') as X. injection X as <-.
           rewrite Q in Q'. discriminate Q'.
        -- split; [|discriminate].
           intro p. split.
           ++ intros [= <-]. split; [assumption|]. right.
              eexists _, response, pe. repeat split; assumption.
           ++ intros [_ [[H _]|(prompt & response' & e' & [= <-] & R' & Q' & ->)]];
                [discriminate H|].
              pose proof (eq_trans (eq_sym R) R') as X. injection X as <-.
              rewrite Q in Q'. now injection Q' as <-.
    + split; [|discriminate].
      intro p. split.
      * intros [= <-]. split; [assumption|]. now left.
      * intros [_ [[_ ->]|(prompt & _ & _ & H & _)]]; [reflexivity|discriminate H].
Qed.

End Questions.

(** *** Hints *)

Section Hints.

Variable Challenge : Type.
Variable Title : Challenge -> gostring.
Variable gemini : AIService.t -> gostring -> bool -> gostring * error.
Variable openai : AIService.t -> gostring -> bool -> gostring * error.
Variable claude : AIService.t -> gostring -> bool -> gostring * error.

Local Notation "'provider_call'" := (callLLMWithOpts gemini openai claude).

(** X18.  [GetCodeHint] never returns an empty hint nor an error, and it
    panics in one case only: a key is configured and the challenge is
    nil, even when a context is given that would replace the title. *)
Theorem GetCodeHint_hint_or_nil_challenge :
  forall (ai : AIService.t) (code : gostring) (challenge : option Challenge)
         (hintLevel : Z) (context : gostring),
    (forall hint err,
       GetCodeHint Title gemini openai claude ai code challenge hintLevel context
       = Done (hint, err) ->
       err = None /\ hint <> [])
    /\ (forall p,
          GetCodeHint Title gemini openai claude ai code challenge hintLevel context
          = Panic p
          <-> LLMConfig.APIKey (AIService.config ai) <> []
              /\ challenge = None /\ p = nil_pointer_dereference).
Proof.
  intros ai code challenge hintLevel context. unfold GetCodeHint.
  destruct (gostring_eqb _ _) eqn:E.
  - apply gostring_eqb_eq in E. split.
    + intros hint err [= <- <-]. split; [reflexivity | discriminate].
    + intro p. split; [discriminate | intros [K _]; contradiction].
  - apply gostring_neq in E.
    destruct challenge as [c|]; cbn [buildHintPrompt deref and_then].
    + destruct (provider_call _ _ _) as [response [e|]].
      * split.
        -- intros hint err [= <- <-]. split; [reflexivity | discriminate].
        -- intro p. split; [discriminate | intros (_ & H & _); discriminate H].
      * split.
        -- intros hint err [= <- <-]. split; [reflexivity|].
           apply parseHint_nonempty.
        -- intro p. split; [discriminate | intros (_ & H & _); discriminate H].
    + split; [discriminate|].
      intro p. split.
      * intros [= <-]. now repeat split.
      * now intros (_ & _ & ->).
Qed.

End Hints.

(** *** Chat *)

Section Chat.

Variable Challenge : Type.
Variable Title : Challenge -> gostring.
Variable lower : Z -> Z.
Variable timestamp : gostring.
Variable gemini : AIService.t -> gostring -> bool -> gostring * error.
Variable openai : AIService.t -> gostring -> bool -> gostring * error.
Variable claude : AIService.t -> gostring -> bool -> gostring * error.

Local Notation "'provider_call'" := (callLLMWithOpts gemini openai claude).

(** X19.  [ChatWithMentor] never panics, a nil challenge included, and
    never returns an error.  Its message is never empty.  It reports
    success exactly when a key is configured and the provider replied,
    and then with no error text and two or three suggestions; without
    success it gives neither context nor suggestions. *)
Theorem ChatWithMentor_always_answers :
  forall (ai : AIService.t) (userMessage : gostring) (challenge : option Challenge)
         (conversationHistory : slice ChatMessage.t) (codeContext : gostring),
    exists r,
      ChatWithMentor Title lower timestamp gemini openai claude
        ai userMessage challenge conversationHistory codeContext
      = Done (r, None)
      /\ ChatResponse.Message r <> []
      /\ (ChatResponse.Success r = true
          <-> LLMConfig.APIKey (AIService.config ai) <> []
              /\ exists prompt response,
                   buildChatPrompt Title userMessage challenge
                     conversationHistory codeContext = Done prompt
                   /\ provider_call ai prompt false = (response, None))
      /\ (ChatResponse.Success r = true ->
          ChatResponse.Error r = []
          /\ ChatResponse.Context r = getContextDescription Title challenge
          /\ exists l, ChatResponse.Suggestions r = Some l
                       /\ (2 <= length l <= 3)%nat)
      /\ (ChatResponse.Success r = false ->
          ChatResponse.Context r = [] /\ ChatResponse.Suggestions r = None).
Proof.
  intros ai userMessage challenge conversationHistory codeContext.
  unfold ChatWithMentor.
  destruct (gostring_eqb _ _) eqn:E.
  - apply gostring_eqb_eq in E.
    eexists. split; [reflexivity|]. cbn.
    repeat split; try discriminate.
    intros [K _]. contradiction.
  - apply gostring_neq in E.
    destruct (buildChatPrompt_returns Challenge Title userMessage challenge conversationHistory
                codeContext) as [prompt P].
    rewrite P. cbn [and_then].
    destruct (provider_call _ _ _) as [response [e|]] eqn:R.
    + eexists. split; [reflexivity|]. cbn.
      repeat split; try discriminate.
      intros [_ (prompt' & response' & [= <-] & R')].
      pose proof (eq_trans (eq_sym R) R') as X. discriminate X.
    + destruct (generateFollowUpSuggestions_count Challenge lower userMessage
                  (parseChatResponse response) challenge) as (l & G & Hl & _).
      rewrite G. cbn [and_then].
      eexists. split; [reflexivity|].
      cbn [ChatResponse.Message ChatResponse.Success ChatResponse.Error
           ChatResponse.Context ChatResponse.Suggestions].
      split; [apply parseChatResponse_nonempty|].
      split; [|split].
      * split; [|reflexivity]. intros _. split; [assumption|].
        now exists prompt, response.
      * intros _. repeat split. now exists l.
      * discriminate.
Qed.

End Chat.

(** ** The requests on the sample deployment *)

Lemma buildChatPrompt_reads_the_last_five_messages_witness :
  let m (n : gostring) := ChatMessage.mk "user" n "" in
  buildChatPrompt sample_title "Why?" None
    (Some ([m "0"; m "1"] ++ [m "2"; m "3"; m "4"; m "5"; m "6"])) ""
  = buildChatPrompt sample_title "Why?" None
      (Some [m "2"; m "3"; m "4"; m "5"; m "6"]) "".
Proof.
  intro m.
  apply (buildChatPrompt_reads_the_last_five_messages gostring sample_title
           "Why?" None
           [m "0"; m "1"] [m "2"; m "3"; m "4"; m "5"; m "6"] "").
  reflexivity.
Defined.

Lemma buildChatPrompt_blank_code_is_no_code_witness :
  buildChatPrompt sample_title "Why?" (Some (str "Two Sum")) None [x20; x09; x0a]
  = buildChatPrompt sample_title "Why?" (Some (str "Two Sum")) None [].
Proof.
  apply (buildChatPrompt_blank_code_is_no_code gostring sample_title
           "Why?" (Some (str "Two Sum")) None [x20; x09; x0a]).
  repeat (constructor; [reflexivity|]). constructor.
Defined.

Lemma ReviewCode_returns_a_review_with_a_signal_witness :
  exists r,
    ReviewCode sample_title (fails "quota") (fails "timeout") (fails "quota")
      json.Unmarshal_AICodeReview sample_service "package main"
      (Some (str "Two Sum")) ""
    = Done (r, None)
    /\ signals_all_zero r = false.
Proof.
  eexists. split; [vm_compute; reflexivity|].
  eapply (ReviewCode_returns_a_review_with_a_signal gostring sample_title
            (fails "quota") (fails "timeout") (fails "quota")
            json.Unmarshal_AICodeReview sample_service "package main"
            (Some (str "Two Sum")) "" _ None).
  vm_compute. reflexivity.
Defined.

Lemma generateFollowUpSuggestions_cut_and_default_witness :
  generateFollowUpSuggestions (Challenge := gostring) (fun r => r)
    "How do I OPTIMIZE this?" "" None
  = Done (Some [str "What's the time complexity?";
                str "Are there other approaches?"])
  /\ In (str "Are there other approaches?")
       [str "What's the time complexity?"; str "Are there other approaches?"].
Proof.
  assert (G : generateFollowUpSuggestions (Challenge := gostring) (fun r => r)
                "How do I OPTIMIZE this?" "" None
              = Done (Some [str "What's the time complexity?";
                            str "Are there other approaches?"]))
    by (vm_compute; reflexivity).
  split; [exact G|].
  apply (proj1 (generateFollowUpSuggestions_cut_and_default gostring
                  (fun r => r) "How do I OPTIMIZE this?" "" None _ G)).
  vm_compute. repeat split; reflexivity.
Defined.

Lemma ReviewCode_is_parseAIResponse_on_a_reply_witness :
  ReviewCode sample_title (answers "gemini") (answers complete_review)
    (answers "claude") json.Unmarshal_AICodeReview sample_service
    "package main" (Some (str "Two Sum")) ""
  = of_result (ExtractObject complete_review).
Proof.
  eapply (ReviewCode_is_parseAIResponse_on_a_reply gostring sample_title
            (answers "gemini") (answers complete_review) (answers "claude")
            json.Unmarshal_AICodeReview sample_service
            "package main" (str "Two Sum") "").
  - vm_compute. discriminate.
  - reflexivity.
  - vm_compute. reflexivity.
Defined.

Lemma ReviewCode_panics_exactly_witness :
  ReviewCode sample_title (answers "gemini") (answers "} {")
    (answers "claude") json.Unmarshal_AICodeReview sample_service
    "package main" (Some (str "Two Sum")) ""
  = Panic (runtime_panic (slice_bounds_out_of_range 2 1 3)).
Proof.
  apply (proj2 (ReviewCode_panics_exactly gostring sample_title
                  (answers "gemini") (answers "} {") (answers "claude")
                  json.Unmarshal_AICodeReview sample_service
                  "package main" (Some (str "Two Sum")) "" _)).
  split; [vm_compute; discriminate|]. right.
  eexists _, (str "} {"), _.
  repeat split; reflexivity.
Defined.

Lemma GetInterviewerQuestions_panics_exactly_witness :
  GetInterviewerQuestions sample_title (answers "gemini") (answers "] [")
    (answers "claude") json.Unmarshal_strings sample_service
    "package main" (Some (str "Two Sum")) "first attempt"
  = Panic (runtime_panic (slice_bounds_out_of_range 2 1 3)).
Proof.
  apply (proj2 (proj1 (GetInterviewerQuestions_panics_exactly gostring sample_title
                         (answers "gemini") (answers "] [") (answers "claude")
                         json.Unmarshal_strings sample_service
                         "package main" (Some (str "Two Sum")) "first attempt")
                  _)).
  split; [vm_compute; discriminate|]. right.
  eexists _, (str "] ["), _.
  repeat split; reflexivity.
Defined.

Lemma GetCodeHint_hint_or_nil_challenge_witness :
  GetCodeHint sample_title (answers "gemini") (answers "Use a map.")
    (answers "claude") sample_service "package main" None 2 "Gin routing"
  = Panic nil_pointer_dereference.
Proof.
  apply (proj2 (proj2 (GetCodeHint_hint_or_nil_challenge gostring sample_title
                         (answers "gemini") (answers "Use a map.")
                         (answers "claude") sample_service
                         "package main" None 2 "Gin routing") _)).
  repeat split. vm_compute. discriminate.
Defined.

Lemma buildHintPrompt_context_replaces_title_witness :
  buildHintPrompt sample_title "package main" (Some (str "Two Sum")) 2 "Gin routing"
  = buildHintPrompt sample_title "package main" (Some (str "Word Count")) 2
      "Gin routing".
Proof.
  apply (buildHintPrompt_context_replaces_title gostring sample_title
           "package main" "Two Sum" "Word Count" 2 "Gin routing").
  discriminate.
Defined.

Lemma ChatWithMentor_always_answers_witness :
  exists r,
    ChatWithMentor sample_title (fun r => r) "2025-01-01T00:00:00Z"
      (answers "gemini") (answers "Use a map.") (answers "claude")
      sample_service "What is a map?" None None ""
    = Done (r, None)
    /\ ChatResponse.Success r = true
    /\ ChatResponse.Error r = [].
Proof.
  destruct (ChatWithMentor_always_answers gostring sample_title (fun r => r)
              "2025-01-01T00:00:00Z"
              (answers "gemini") (answers "Use a map.") (answers "claude")
              sample_service "What is a map?" None None "")
    as (r & E & _ & S & T & _).
  assert (Hs : ChatResponse.Success r = true).
  { apply S. split; [vm_compute; discriminate|].
    eexists _, _. split; reflexivity. }
  exists r. repeat split; [exact E | exact Hs | exact (proj1 (T Hs))].
Defined.

(** ** The configuration *)

Lemma ascii_lower_is_ascii (c : byte) :
  (Byte.to_N (ascii_lower c) <? 128)%N = (Byte.to_N c <? 128)%N.
Proof. destruct c; reflexivity. Qed.

Lemma is_ascii_lower (s : gostring) : is_ascii (map ascii_lower s) = is_ascii s.
Proof.
  induction s as [|c s IH]; [reflexivity|].
  simpl. now rewrite ascii_lower_is_ascii, IH.
Qed.

Lemma getProviderFromEnv_cases (lower : Z -> Z) (env : gostring -> gostring) :
  getProviderFromEnv lower env = ProviderGemini
  \/ getProviderFromEnv lower env = ProviderOpenAI
  \/ getProviderFromEnv lower env = ProviderClaude.
Proof.
  unfold getProviderFromEnv.
  destruct (gostring_eqb _ "gemini"); [now left|].
  destruct (gostring_eqb _ "openai"); [right; now left|].
  destruct (gostring_eqb _ "claude"); [right; now right | now left].
Qed.

(** X20.  The provider named by [AI_PROVIDER] is matched whatever the
    case of its ASCII letters. *)
Theorem getProviderFromEnv_ignores_ascii_case :
  forall (lower : Z -> Z) (env : gostring -> gostring) (name : LLMProvider),
    In name [ProviderGemini; ProviderOpenAI; ProviderClaude] ->
    map ascii_lower (env "AI_PROVIDER") = name ->
    getProviderFromEnv lower env = name.
Proof.
  intros lower env name Hin E.
  assert (A : is_ascii (env "AI_PROVIDER") = true).
  { rewrite <- is_ascii_lower, E.
    destruct Hin as [<-|[<-|[<-|[]]]]; reflexivity. }
  unfold getProviderFromEnv, strings_ToLower. rewrite A, E.
  destruct Hin as [<-|[<-|[<-|[]]]]; reflexivity.
Qed.

Lemma getProviderFromEnv_ignores_ascii_case_witness :
  getProviderFromEnv (fun r => r) sample_env = ProviderOpenAI.
Proof.
  apply (getProviderFromEnv_ignores_ascii_case (fun r => r) sample_env
           ProviderOpenAI).
  - right. left. reflexivity.
  - reflexivity.
Defined.

(** X21.  A service made by [NewAIService] always has one of the three
    supported providers, whatever the environment, so that
    [callLLMWithOpts] always reaches one of the three calls and never
    answers that the provider is unsupported. *)
Theorem NewAIService_provider_is_supported :
  forall (lower : Z -> Z) (env : gostring -> gostring)
         (gemini openai claude : AIService.t -> gostring -> bool -> gostring * error)
         (prompt : gostring) (expectJSON : bool),
    let ai := NewAIService lower env in
    let provider := LLMConfig.Provider (AIService.config ai) in
    provider = getProviderFromEnv lower env
    /\ In provider [ProviderGemini; ProviderOpenAI; ProviderClaude]
    /\ callLLMWithOpts gemini openai claude ai prompt expectJSON
       = (if gostring_eqb provider ProviderOpenAI then openai
          else if gostring_eqb provider ProviderClaude then claude
          else gemini) ai prompt expectJSON.
Proof.
  intros lower env gemini openai claude prompt expectJSON. cbv zeta.
  unfold NewAIService, callLLMWithOpts.
  destruct (getProviderFromEnv_cases lower env) as [-> | [-> | ->]];
    cbn; repeat split; auto.
Qed.

(** X22.  The configuration made by [NewAIService] is complete in every
    environment: the model is [AI_MODEL] when that is set and is never
    empty, the URL is that of the provider, and the key is missing
    exactly when both the variable of the provider and [AI_API_KEY] are
    empty. *)
Theorem NewAIService_config_is_complete :
  forall (lower : Z -> Z) (env : gostring -> gostring),
    let cfg := AIService.config (NewAIService lower env) in
    let provider := getProviderFromEnv lower env in
    let variable :=
      if gostring_eqb provider ProviderOpenAI then str "OPENAI_API_KEY"
      else if gostring_eqb provider ProviderClaude then str "CLAUDE_API_KEY"
      else str "GEMINI_API_KEY" in
    LLMConfig.Model cfg <> []
    /\ (env "AI_MODEL" <> [] -> LLMConfig.Model cfg = env "AI_MODEL")
    /\ LLMConfig.BaseURL cfg
       = (if gostring_eqb provider ProviderOpenAI
          then str "https://api.openai.com/v1/chat/completions"
          else if gostring_eqb provider ProviderClaude
          then str "https://api.anthropic.com/v1/messages"
          else str "https://generativelanguage.googleapis.com/v1beta/models")
    /\ LLMConfig.APIKey cfg
       = (if gostring_eqb (env variable) "" then env "AI_API_KEY" else env variable)
    /\ (LLMConfig.APIKey cfg = [] <-> env variable = [] /\ env "AI_API_KEY" = [])
    /\ LLMConfig.MaxTokens cfg = 4000.
Proof.
  intros lower env. cbv zeta.
  unfold NewAIService, getModelFromEnv, getAPIKeyFromEnvFor.
  assert (M : forall d : gostring, d <> [] ->
            (if gostring_eqb (env "AI_MODEL") "" then d else env "AI_MODEL") <> []
            /\ (env "AI_MODEL" <> [] ->
                (if gostring_eqb (env "AI_MODEL") "" then d else env "AI_MODEL")
                = env "AI_MODEL")).
  { intros d Hd. destruct (gostring_eqb (env "AI_MODEL") "") eqn:E.
    - apply gostring_eqb_eq in E. split; [assumption | intro H; contradiction].
    - apply gostring_neq in E. now split. }
  assert (K : forall v g : gostring,
            (if negb (gostring_eqb v "") then v else g)
            = (if gostring_eqb v "" then g else v)
            /\ ((if negb (gostring_eqb v "") then v else g) = []
                <-> v = [] /\ g = [])).
  { intros v g. destruct (gostring_eqb v "") eqn:E; cbn [negb].
    - apply gostring_eqb_eq in E. split; [reflexivity|].
      split; [now intros -> | now intros [_ ->]].
    - apply gostring_neq in E. split; [reflexivity|].
      split; [intro H; contradiction | now intros [-> _]]. }
  destruct (getProviderFromEnv_cases lower env) as [-> | [-> | ->]]; cbn;
    (split; [apply M; discriminate|]);
    (split; [apply M; discriminate|]);
    (split; [reflexivity|]);
    (split; [apply K|]);
    (split; [apply K | reflexivity]).
Qed.

(** X23.  [NewAIService] reads four variables only: [AI_PROVIDER],
    [AI_MODEL], the key of the provider chosen and [AI_API_KEY].  Two
    environments that agree on them give the same service, whatever keys
    of other providers they hold. *)
Theorem NewAIService_reads_one_key :
  forall (lower : Z -> Z) (env1 env2 : gostring -> gostring),
    env1 "AI_PROVIDER" = env2 "AI_PROVIDER" ->
    env1 "AI_MODEL" = env2 "AI_MODEL" ->
    env1 "AI_API_KEY" = env2 "AI_API_KEY" ->
    (let provider := getProviderFromEnv lower env1 in
     let variable :=
       if gostring_eqb provider ProviderOpenAI then str "OPENAI_API_KEY"
       else if gostring_eqb provider ProviderClaude then str "CLAUDE_API_KEY"
       else str "GEMINI_API_KEY" in
     env1 variable = env2 variable) ->
    NewAIService lower env1 = NewAIService lower env2.
Proof.
  intros lower env1 env2 Hp Hm Hg Hk. cbv zeta in Hk.
  assert (P : getProviderFromEnv lower env2 = getProviderFromEnv lower env1)
    by (unfold getProviderFromEnv; now rewrite Hp).
  unfold NewAIService, getModelFromEnv, getAPIKeyFromEnvFor.
  rewrite P, <- Hm, <- Hg.
  destruct (getProviderFromEnv_cases lower env1) as [E | [E | E]];
    rewrite E in *; cbn in Hk |- *; now rewrite Hk.
Qed.

Lemma NewAIService_reads_one_key_witness :
  NewAIService (fun r => r) sample_env = NewAIService (fun r => r) sample_env_one_key.
Proof.
  apply (NewAIService_reads_one_key (fun r => r) sample_env sample_env_one_key);
    reflexivity.
Defined.

Lemma NewAIService_config_is_complete_witness :
  LLMConfig.Model
    (AIService.config
       (NewAIService (fun r => r)
          (fun name => if gostring_eqb name "AI_MODEL" then str "gpt-4.1" else [])))
  = str "gpt-4.1".
Proof.
  apply (proj1 (proj2 (NewAIService_config_is_complete (fun r => r)
                         (fun name => if gostring_eqb name "AI_MODEL"
                                      then str "gpt-4.1" else [])))).
  vm_compute. discriminate.
Defined.
